(** * Prism core services: scheduler, timer service, notification service, event bus

    A shallow embedding of the four cooperating services of the backend
    ([scheduler.ts], [timer.ts], [notifications.ts], [event-bus.ts]) and the
    properties of their specification.

    The services are TypeScript classes that share one object graph
    ([CoreServices]).  The embedding threads that graph explicitly as a
    [Heap]; a method is a function from the heap to an outcome and the heap
    it leaves behind, so that the mutations made before a [throw] stay
    visible, as they do in JavaScript.  An asynchronous method is run to
    completion as one step: the interleavings at an [await] are not part of
    the model.

    What lies outside the four classes is modelled by what the classes see
    of it.  The store, the socket server, a channel handler and an event
    listener are functions that return or throw and that do not call back
    into the core; each call is recorded in a trace.  Node's [EventEmitter],
    which the bus wraps, is modelled with what it does on its own account:
    it emits ['newListener'] before it adds a listener and ['removeListener']
    after it has removed one, the wrapper of a [once] listener removes
    itself before it calls the function, and ['error'] without a listener
    throws.  The queue of the broker is a finite map from job ids to jobs,
    which answers every call once it has been constructed; a delayed job
    leaves it when it is delivered.  The clock does not move within one
    call. *)

From stdpp Require Import base strings gmap list pretty.

Local Open Scope Z_scope.
Local Open Scope string_scope.

(** ** Values and errors *)

(** A JavaScript value of static type [unknown] (event and message payloads,
    the entries of [meta]). *)
#[local] Unset Elimination Schemes.
Inductive JsVal : Type :=
| JsNull
| JsBool (b : bool)
| JsNum (n : Z)
| JsStr (s : string)
| JsArr (xs : list JsVal)
| JsObj (fields : list (string * JsVal)).
#[local] Set Elimination Schemes.

(** The exceptions of the core.  The first three are the [new Error(...)]
    of the source, one constructor per message; [External] is a rejection or
    exception raised by a collaborator (the store, the socket server, a
    channel handler, an event listener, the queue library). *)
Inductive Error : Type :=
| RedisUnavailable
    (* Error('Scheduler: Redis unavailable') *)
| TargetInPast (iso : option string)
    (* Error(`TimerService.at: target DateTime is in the past (${dt.toISO()})`) *)
| NoTimerFound (timerId : string)
    (* Error(`TimerService: no timer found with id ...`) *)
| UnhandledError (payload : JsVal)
    (* EventEmitter: 'error' emitted without a listener *)
| External (msg : string).

(** The names the specification gives to these errors. *)
Definition SchedulerUnavailable : Error := RedisUnavailable.
Definition InvalidSchedule (iso : option string) : Error := TargetInPast iso.
Definition TimerNotFound (timerId : string) : Error := NoTimerFound timerId.

(** Outcome of a call: a returned value (a resolved promise) or a thrown
    error (a rejected promise). *)
Inductive result (A : Type) : Type :=
| Ok (a : A)
| Throw (e : Error).
Arguments Ok {A} a.
Arguments Throw {A} e.

Definition is_ok {A} (r : result A) : bool :=
  match r with Ok _ => true | Throw _ => false end.

(** ** shared/types/module.ts *)

Module NotifyPayload.
Record t : Type := mk {
  userId : string;
  title : string;
  body : string;
  channel : option string;
  meta : option (list (string * JsVal))
}.
End NotifyPayload.

Inductive TimerAction : Type :=
| notify_action (payload : NotifyPayload.t)
| event_action (event : string) (payload : JsVal)
| message_action (channel : string) (payload : JsVal).

Inductive TimerStatus : Type := pending | fired | cancelled | failed.

Module TimerEntry.
Record t : Type := mk {
  id : string;
  label : string;
  action : TimerAction;
  status : TimerStatus;
  fireAt : string;
  createdAt : string
}.

(** [{ ...entry, status }] *)
Definition with_status (entry : t) (st : TimerStatus) : t :=
  {| id := id entry; label := label entry; action := action entry;
     status := st; fireAt := fireAt entry; createdAt := createdAt entry |}.
End TimerEntry.

(** [JobFn]: the functions handed to the scheduler.  The core creates three
    closures; each is represented by the variables it captures and is run by
    [JobFn_call] below. *)
Inductive JobFn : Type :=
| after_closure (id : string) (action : TimerAction)
    (* timer.ts, after: markStatus(id,'fired'); await dispatch(action) *)
| cron_closure (id : string) (action : TimerAction)
    (* timer.ts, cron: markStatus fired; dispatch; markStatus pending *)
| schedule_closure (payload : NotifyPayload.t).
    (* notifications.ts, schedule: await this.send(payload) *)

(** What a listener is called with.  An emission of the bus passes the
    payload.  Node's emitter itself emits ['newListener'] before it adds a
    listener and ['removeListener'] after it has removed one, and passes the
    name of the event and the function, which is named here by its
    identity. *)
Inductive Args : Type :=
| args_payload (payload : JsVal)
| args_listener (event : string) (listener : nat).

(** [EventHandler = (payload: unknown) => void].  A listener is an external
    function: it has an identity ([off] compares functions by identity) and,
    called, it returns or throws synchronously.  A listener declared [async]
    never throws synchronously.  What the body of a listener does besides is
    not part of the model: the listener that the notifications module adds
    for ['notify'] calls [NotificationService.send] from its body; the
    statements about the bus say which listeners are called, with what and
    in which order, not what their bodies do. *)
Record EventHandler : Type := mkEventHandler {
  fn_id : nat;
  fn_call : Args -> option Error
}.

(** [ChannelHandler = (payload: NotifyPayload) => Promise<void>]: the promise
    resolves ([None]) or rejects. *)
Record ChannelHandler : Type := mkChannelHandler {
  handle : NotifyPayload.t -> option Error
}.

(** ** Collaborators outside the core *)

(** The row handed to [db.notification.create] and the message handed to
    the socket server. *)
Record NotificationData : Type := mkNotificationData {
  data_userId : string;
  data_title : string;
  data_body : string;
  data_channel : string;
  data_meta : list (string * JsVal)
}.

Record PushMessage : Type := mkPushMessage {
  msg_title : string;
  msg_body : string;
  msg_channel : string;
  msg_meta : option (list (string * JsVal))
}.

(** [PrismaClient], as far as the core uses it: [notification.create]
    resolves or rejects. *)
Record PrismaClient : Type := mkPrismaClient {
  notification_create : NotificationData -> option Error
}.

(** Socket.io server: [io.to(room).emit(event, msg)] returns or throws. *)
Record SocketServer : Type := mkSocketServer {
  to_emit : string -> string -> PushMessage -> option Error
}.

(** BullMQ.  A job of the durable queue: its id, its name and how it is
    scheduled ([data] is always the empty object in this code). *)
Inductive JobOpts : Type :=
| opts_delay (delay : Z)
| opts_repeat_pattern (pattern : string)
| opts_repeat_every (every : Z).

Record BullJob : Type := mkBullJob {
  job_id : option string;
  job_name : string;
  job_opts : JobOpts
}.

(** The queue held by the broker: the jobs not yet consumed, keyed by job
    id, and the counter from which the broker numbers the jobs that come
    without an id of their own. *)
Record Queue : Type := mkQueue {
  held : gmap string BullJob;
  next_seq : N
}.

Inductive Worker : Type := mkWorker.

Record ConnectionOptions : Type := mkConnectionOptions {
  host : option string;
  port : option Z
}.

(** The constructors of the queue library: each returns the object or
    throws (the broker cannot be reached). *)
Record BullMQ : Type := mkBullMQ {
  new_Queue : string -> ConnectionOptions -> result Queue;
  new_Worker : string -> ConnectionOptions -> result Worker
}.

Module Queue_.
(** [queue.add(name, {}, opts)]: a job that brings its own [jobId] is
    stored under it, unless a job with that id is already held, which is
    then returned; any other job is numbered by the broker. *)
Definition add (name : string) (opts : JobOpts) (jobId : option string)
    (q : Queue) : BullJob * Queue :=
  match jobId with
  | Some j =>
      match held q !! j with
      | Some job => (job, q)
      | None =>
          let job := mkBullJob (Some j) name opts in
          (job, mkQueue (<[j := job]> (held q)) (next_seq q))
      end
  | None =>
      let j := "repeat:" +:+ pretty (next_seq q) in
      let job := mkBullJob (Some j) name opts in
      (job, mkQueue (<[j := job]> (held q)) (next_seq q + 1)%N)
  end.

Arguments add : simpl never.

(** [queue.getJob(jobId)] *)
Definition getJob (jobId : string) (q : Queue) : option BullJob :=
  held q !! jobId.

(** [job.remove()] *)
Definition remove_job (job : BullJob) (q : Queue) : Queue :=
  match job_id job with
  | Some j => mkQueue (delete j (held q)) (next_seq q)
  | None => q
  end.
End Queue_.

(** ** The objects of the core *)

Module SchedulerJob.
Inductive kind : Type := cron | delayed | repeating.
Record t : Type := mk { id : string; name : string; type : kind }.
End SchedulerJob.

(** scheduler.ts, the fields of [class Scheduler]. *)
Record SchedulerObj : Type := mkScheduler {
  queue : option Queue;
  worker : option Worker;
  connection : ConnectionOptions;
  queueName : string;
  jobs : gmap string SchedulerJob.t;
  handlers : gmap string JobFn;
  _ready : bool
}.

(** Node's [EventEmitter]: per event name, the listeners in the order they
    were added.  A listener added by [once] is wrapped; every registration
    has a serial number, which tells two wrappers of one function apart. *)
Record Listener : Type := mkListener {
  l_serial : nat;
  l_fn : EventHandler;
  l_once : bool
}.

Record EventEmitter : Type := mkEventEmitter {
  listeners : gmap string (list Listener);
  next_serial : nat;
  maxListeners : nat
}.

(** event-bus.ts, [class EventBus]. *)
Record EventBusObj : Type := mkEventBus {
  emitter : EventEmitter
}.

(** notifications.ts, [class NotificationService]; its [scheduler] field is
    the shared scheduler of the heap. *)
Record NotificationServiceObj : Type := mkNotificationService {
  channels : gmap string ChannelHandler;
  io : option SocketServer;
  db : PrismaClient
}.

(** timer.ts, [class TimerService]; [scheduler], [events] and [notify] are
    the shared objects of the heap. *)
Record TimerServiceObj : Type := mkTimerService {
  entries : gmap string TimerEntry.t
}.

(** What the core does to the outside, in the order it does it. *)
Inductive LogLine : Type :=
| log_connected (host : string) (port : Z)
| warn_could_not_connect (e : Error)
| warn_no_handler (jobName : string)
| warn_skip_add
| error_job_failed (jobName : string) (e : Error).

Inductive Effect : Type :=
| DbNotificationCreate (data : NotificationData)
| SocketEmit (room event : string) (msg : PushMessage)
| ChannelCall (channel : string) (payload : NotifyPayload.t)
| ListenerCall (event : string) (fn : nat) (payload : JsVal)
| ListenerTold (event : string) (fn : nat) (about : string) (listener : nat)
| Console (line : LogLine).

(** The object graph ([CoreServices]) with what the process reads from its
    environment and the trace of effects, oldest first: [clock] is the
    instant [Date.now()] and [DateTime.utc()] return, [entropy] the values
    [randomUUID()] returns, of which [drawn] have been used. *)
Record Heap : Type := mkHeap {
  scheduler : SchedulerObj;
  events : EventBusObj;
  notify : NotificationServiceObj;
  timer : TimerServiceObj;
  clock : Z;
  entropy : nat -> string;
  drawn : nat;
  trace : list Effect
}.

(** ** Methods as heap transformers *)

Definition M (A : Type) : Type := Heap -> result A * Heap.

Definition ret {A} (a : A) : M A := fun h => (Ok a, h).
Definition throw {A} (e : Error) : M A := fun h => (Throw e, h).
Definition bind {A B} (m : M A) (k : A -> M B) : M B :=
  fun h =>
    match m h with
    | (Ok a, h') => k a h'
    | (Throw e, h') => (Throw e, h')
    end.

Notation "'let*' x ':=' m 'in' k" := (bind m (fun x => k))
  (at level 10, x pattern, m at level 100, k at level 200).
Notation "m ';;' k" := (bind m (fun _ => k))
  (at level 100, k at level 200, right associativity).

Definition get_heap : M Heap := fun h => (Ok h, h).
Definition set_scheduler (s : SchedulerObj) : M unit :=
  fun h => (Ok tt, mkHeap s (events h) (notify h) (timer h) (clock h) (entropy h) (drawn h) (trace h)).
Definition set_events (b : EventBusObj) : M unit :=
  fun h => (Ok tt, mkHeap (scheduler h) b (notify h) (timer h) (clock h) (entropy h) (drawn h) (trace h)).
Definition set_notify (n : NotificationServiceObj) : M unit :=
  fun h => (Ok tt, mkHeap (scheduler h) (events h) n (timer h) (clock h) (entropy h) (drawn h) (trace h)).
Definition set_timer (t : TimerServiceObj) : M unit :=
  fun h => (Ok tt, mkHeap (scheduler h) (events h) (notify h) t (clock h) (entropy h) (drawn h) (trace h)).

(** Record an effect at the end of the trace. *)
Definition emit_effect (e : Effect) : M unit :=
  fun h => (Ok tt, mkHeap (scheduler h) (events h) (notify h) (timer h) (clock h)
                          (entropy h) (drawn h) (trace h ++ [e])).

(** [Date.now()] *)
Definition Date_now : M Z := fun h => (Ok (clock h), h).

(** [randomUUID()] *)
Definition randomUUID : M string :=
  fun h => (Ok (entropy h (drawn h)),
            mkHeap (scheduler h) (events h) (notify h) (timer h) (clock h)
                   (entropy h) (S (drawn h)) (trace h)).

(** Turn the outcome of an external call into a return or a throw. *)
Definition settle (o : option Error) : M unit :=
  match o with
  | None => ret tt
  | Some e => throw e
  end.

(** ** event-bus.ts *)

Module EventBus.

(** [new EventBus()]: a fresh emitter with [setMaxListeners(100)].  The limit
    only makes Node print a warning of its own, once, when an event gets more
    listeners; the trace does not record it. *)
Definition new : EventBusObj := mkEventBus (mkEventEmitter ∅ 0 100).

(** The listener array of an event; an event without an array has none. *)
Definition listeners_of (event : string) (b : EventBusObj) : list Listener :=
  default [] (listeners (emitter b) !! event).

Definition set_listeners (event : string) (ls : list Listener) (serial : nat)
    (b : EventBusObj) : EventBusObj :=
  mkEventBus (mkEventEmitter (<[event := ls]> (listeners (emitter b))) serial
                             (maxListeners (emitter b))).

(** Node's [removeListener] scans the array from its end and removes one
    listener: [remove_last] drops the last element that satisfies [p]. *)
Fixpoint remove_first {A} (p : A -> bool) (l : list A) : list A :=
  match l with
  | [] => []
  | x :: l' => if p x then l' else x :: remove_first p l'
  end.

Definition remove_last {A} (p : A -> bool) (l : list A) : list A :=
  rev (remove_first p (rev l)).

(** The call of the function of a listener, as the trace records it. *)
Definition call_effect (event : string) (l : Listener) (a : Args) : Effect :=
  match a with
  | args_payload payload => ListenerCall event (fn_id (l_fn l)) payload
  | args_listener about fn => ListenerTold event (fn_id (l_fn l)) about fn
  end.

(** The first argument of a call. *)
Definition first_arg (a : Args) : JsVal :=
  match a with
  | args_payload payload => payload
  | args_listener about _ => JsStr about
  end.

(** The emitter calls itself: removing a listener emits ['removeListener'],
    and the wrapper of a [once] listener removes itself when it is called.
    The three definitions that follow take that inner emission as the
    parameter [nested]; [emit_] below closes the loop.  [fired] holds the
    serial numbers of the [once] wrappers that have run: a wrapper has a flag
    [fired] and does nothing when it is called again, which happens when it
    sits in the copy of the array of an emission that is still going on. *)
Section Emitter.

Variable nested : list nat -> string -> Args -> M (list nat).

(** [emitter.removeListener(event, f)]: when the array of the event has a
    listener that [p] selects, the last such listener is removed and, if
    ['removeListener'] then has listeners, they are called with the name of
    the event and the function [fn]. *)
Definition removeListener (fired : list nat) (event : string)
    (p : Listener -> bool) (fn : nat) : M (list nat) :=
  let* h := get_heap in
  let b := events h in
  if existsb p (listeners_of event b) then
    set_events (set_listeners event (remove_last p (listeners_of event b))
                  (next_serial (emitter b)) b) ;;
    let* h' := get_heap in
    match listeners_of "removeListener" (events h') with
    | [] => ret fired
    | _ :: _ => nested fired "removeListener" (args_listener event fn)
    end
  else ret fired.

(** What comes before the call of the function of a listener.  Nothing for
    a listener added by [on].  The wrapper of a listener added by [once]
    first removes itself, [this.target.removeListener(this.type,
    this.wrapFn)], then sets its flag. *)
Definition before_call (fired : list nat) (event : string) (l : Listener)
    : M (list nat) :=
  if l_once l then
    let* fired' :=
      removeListener fired event (fun x => Nat.eqb (l_serial x) (l_serial l))
                     (fn_id (l_fn l)) in
    ret (l_serial l :: fired')
  else ret fired.

(** The loop of [emitter.emit] over a copy of the listener array: every
    listener is called in turn, a wrapper whose flag is set does nothing;
    nothing catches what a listener throws. *)
Fixpoint call_listeners (fired : list nat) (event : string) (a : Args)
    (ls : list Listener) : M (list nat) :=
  match ls with
  | [] => ret fired
  | l :: rest =>
      if l_once l && existsb (Nat.eqb (l_serial l)) fired then
        call_listeners fired event a rest
      else
        let* fired' := before_call fired event l in
        emit_effect (call_effect event l a) ;;
        settle (fn_call (l_fn l) a) ;;
        call_listeners fired' event a rest
  end.

End Emitter.

(** [emitter.emit(event, ...args)].  Node throws when ['error'] is emitted
    and nobody listens to it.  The inner emissions make the definition
    recursive; [fuel] bounds their depth, and with no fuel left nothing is
    called. *)
Fixpoint emit_ (fuel : nat) (fired : list nat) (event : string) (a : Args)
    : M (list nat) :=
  match fuel with
  | O => ret fired
  | S fuel' =>
      let* h := get_heap in
      match listeners_of event (events h) with
      | [] => if String.eqb event "error" then throw (UnhandledError (first_arg a))
              else ret fired
      | ls => call_listeners (emit_ fuel') fired event a ls
      end
  end.

(** An inner emission is one of ['removeListener'], set off by a [once]
    wrapper that removes itself; below the first, every one has taken a
    listener out of the array of ['removeListener'].  So the depth is at most
    the length of that array plus one, and this fuel is never used up. *)
Definition fuel_for (h : Heap) : nat :=
  S (S (length (listeners_of "removeListener" (events h)))).

(** [emit(event, payload) { this.emitter.emit(event, payload) }] *)
Definition emit (event : string) (payload : JsVal) : M unit :=
  let* h := get_heap in
  emit_ (fuel_for h) [] event (args_payload payload) ;;
  ret tt.

(** [emitter.on] and [emitter.once]: when ['newListener'] has listeners they
    are called first, with the name of the event and the function; then the
    listener is appended to the array of the event. *)
Definition addListener (event : string) (handler : EventHandler) (once_ : bool)
    : M unit :=
  let* h := get_heap in
  match listeners_of "newListener" (events h) with
  | [] => ret tt
  | _ :: _ =>
      emit_ (fuel_for h) [] "newListener" (args_listener event (fn_id handler)) ;;
      ret tt
  end ;;
  let* h' := get_heap in
  let b := events h' in
  let n := next_serial (emitter b) in
  set_events (set_listeners event
                (listeners_of event b ++ [mkListener n handler once_]) (S n) b).

Definition on (event : string) (handler : EventHandler) : M unit :=
  addListener event handler false.

Definition once (event : string) (handler : EventHandler) : M unit :=
  addListener event handler true.

(** [emitter.off(event, handler)]: [removeListener] of the last listener
    that is the function or the wrapper of the function. *)
Definition off (event : string) (handler : EventHandler) : M unit :=
  let* h := get_heap in
  removeListener (emit_ (fuel_for h)) [] event
    (fun l => Nat.eqb (fn_id (l_fn l)) (fn_id handler)) (fn_id handler) ;;
  ret tt.

End EventBus.

(** ** scheduler.ts *)

Module Scheduler.

(** [get isReady() { return this._ready && this.queue !== null }] *)
Definition isReady (s : SchedulerObj) : bool :=
  _ready s && bool_decide (queue s ≠ None).

(** [this.queue!] behind the guard [if (!this.isReady)]: the queue when the
    scheduler is ready. *)
Definition ready_queue (s : SchedulerObj) : option Queue :=
  if isReady s then queue s else None.

(** [_connect()]: build the queue, then the worker; whatever either
    constructor throws is caught and leaves the scheduler not ready. *)
Definition _connect (lib : BullMQ) (s : SchedulerObj)
    : SchedulerObj * list Effect :=
  match new_Queue lib (queueName s) (connection s) with
  | Throw e =>
      (mkScheduler (queue s) (worker s) (connection s) (queueName s)
                   (jobs s) (handlers s) false,
       [Console (warn_could_not_connect e)])
  | Ok q =>
      match new_Worker lib (queueName s) (connection s) with
      | Throw e =>
          (mkScheduler (Some q) (worker s) (connection s) (queueName s)
                       (jobs s) (handlers s) false,
           [Console (warn_could_not_connect e)])
      | Ok w =>
          (mkScheduler (Some q) (Some w) (connection s) (queueName s)
                       (jobs s) (handlers s) true,
           [Console (log_connected (default "localhost" (host (connection s)))
                                   (default 6379 (port (connection s))))])
      end
  end.

(** [constructor(connection, queueName)]; [queueName] defaults to
    [process.env.SCHEDULER_QUEUE ?? 'prism-scheduler'] at the call site. *)
Definition new (lib : BullMQ) (conn : ConnectionOptions) (qname : string)
    : SchedulerObj * list Effect :=
  _connect lib (mkScheduler None None conn qname ∅ ∅ false).

Definition with_queue (s : SchedulerObj) (q : Queue)
    (js : gmap string SchedulerJob.t) (hs : gmap string JobFn) : SchedulerObj :=
  mkScheduler (Some q) (worker s) (connection s) (queueName s) js hs (_ready s).

(** [add(name, cron, fn)]; the continuation of [queue.add] runs at once. *)
Definition add (name : string) (cron : string) (fn : JobFn) : M unit :=
  let* h := get_heap in
  let s := scheduler h in
  match ready_queue s with
  | None => emit_effect (Console warn_skip_add)
  | Some q =>
      let '(job, q') := Queue_.add name (opts_repeat_pattern cron) None q in
      let js :=
        match job_id job with
        | Some j =>
            if String.eqb j "" then jobs s
            else <[j := SchedulerJob.mk j name SchedulerJob.cron]> (jobs s)
        | None => jobs s
        end in
      set_scheduler (with_queue s q' js (<[name := fn]> (handlers s)))
  end.

(** [addDelayed(name, delay, fn)] *)
Definition addDelayed (name : string) (delay : Z) (fn : JobFn) : M string :=
  let* h := get_heap in
  let s := scheduler h in
  match ready_queue s with
  | None => throw RedisUnavailable
  | Some q =>
      let* now := Date_now in
      let '(job, q') :=
        Queue_.add name (opts_delay delay) (Some (name +:+ "-" +:+ pretty now)) q in
      let id := default name (job_id job) in
      set_scheduler
        (with_queue s q'
           (<[id := SchedulerJob.mk id name SchedulerJob.delayed]> (jobs s))
           (<[name := fn]> (handlers s))) ;;
      ret id
  end.

(** [addRepeating(name, every, fn)] *)
Definition addRepeating (name : string) (every : Z) (fn : JobFn) : M string :=
  let* h := get_heap in
  let s := scheduler h in
  match ready_queue s with
  | None => throw RedisUnavailable
  | Some q =>
      let '(job, q') := Queue_.add name (opts_repeat_every every) None q in
      let id := default name (job_id job) in
      set_scheduler
        (with_queue s q'
           (<[id := SchedulerJob.mk id name SchedulerJob.repeating]> (jobs s))
           (<[name := fn]> (handlers s))) ;;
      ret id
  end.

(** [remove(jobId)] *)
Definition remove (jobId : string) : M unit :=
  let* h := get_heap in
  let s := scheduler h in
  match ready_queue s with
  | None => ret tt
  | Some q =>
      let q' :=
        match Queue_.getJob jobId q with
        | Some job => Queue_.remove_job job q
        | None => q
        end in
      set_scheduler (with_queue s q' (delete jobId (jobs s)) (handlers s))
  end.

End Scheduler.

(** ** notifications.ts *)

Module NotificationService.

(** [new NotificationService(db, scheduler)] *)
Definition new (prisma : PrismaClient) : NotificationServiceObj :=
  mkNotificationService ∅ None prisma.

(** [attachSocket(io)] *)
Definition attachSocket (srv : SocketServer) : M unit :=
  let* h := get_heap in
  set_notify (mkNotificationService (channels (notify h)) (Some srv) (db (notify h))).

(** [registerChannel(name, handler)] *)
Definition registerChannel (name : string) (handler : ChannelHandler) : M unit :=
  let* h := get_heap in
  set_notify (mkNotificationService (<[name := handler]> (channels (notify h)))
                                    (io (notify h)) (db (notify h))).

(** The three steps of [send], one definition each. *)
Definition persist (payload : NotifyPayload.t) (channel : string) : M unit :=
  let* h := get_heap in
  let data :=
    mkNotificationData (NotifyPayload.userId payload) (NotifyPayload.title payload)
      (NotifyPayload.body payload) channel (default [] (NotifyPayload.meta payload)) in
  emit_effect (DbNotificationCreate data) ;;
  settle (notification_create (db (notify h)) data).

Definition push (payload : NotifyPayload.t) (channel : string) : M unit :=
  let* h := get_heap in
  match io (notify h) with
  | None => ret tt
  | Some srv =>
      let room := "user:" +:+ NotifyPayload.userId payload in
      let msg :=
        mkPushMessage (NotifyPayload.title payload) (NotifyPayload.body payload)
          channel (NotifyPayload.meta payload) in
      emit_effect (SocketEmit room "notification" msg) ;;
      settle (to_emit srv room "notification" msg)
  end.

Definition run_channel (payload : NotifyPayload.t) (channel : string) : M unit :=
  let* h := get_heap in
  match channels (notify h) !! channel with
  | None => ret tt
  | Some handler =>
      emit_effect (ChannelCall channel payload) ;;
      settle (handle handler payload)
  end.

(** [send(payload)] *)
Definition send (payload : NotifyPayload.t) : M unit :=
  let channel := default "default" (NotifyPayload.channel payload) in
  persist payload channel ;;
  push payload channel ;;
  run_channel payload channel.

(** [schedule(payload, at)]; [at_] is [at.toMillis()]. *)
Definition schedule (payload : NotifyPayload.t) (at_ : Z) : M string :=
  let* now := Date_now in
  let delay := at_ - now in
  if (delay <=? 0)%Z then
    send payload ;;
    ret "immediate"
  else
    let* now' := Date_now in
    Scheduler.addDelayed
      ("notify:" +:+ NotifyPayload.userId payload +:+ ":" +:+ pretty now')
      delay (schedule_closure payload).

(** [cancel(jobId)] *)
Definition cancel (jobId : string) : M unit :=
  Scheduler.remove jobId.

End NotificationService.

(** ** timer.ts *)

Module TimerService.

(** [new TimerService(scheduler, events, notify)] *)
Definition new : TimerServiceObj := mkTimerService ∅.

(** [dispatch(action)] *)
Definition dispatch (action : TimerAction) : M unit :=
  match action with
  | notify_action payload => NotificationService.send payload
  | event_action event payload => EventBus.emit event payload
  | message_action channel payload => EventBus.emit ("msg:" +:+ channel) payload
  end.

(** [markStatus(id, status)] *)
Definition markStatus (id : string) (status : TimerStatus) : M unit :=
  let* h := get_heap in
  match entries (timer h) !! id with
  | Some entry =>
      set_timer (mkTimerService
                   (<[id := TimerEntry.with_status entry status]> (entries (timer h))))
  | None => ret tt
  end.

Definition set_entry (id : string) (entry : TimerEntry.t) : M unit :=
  let* h := get_heap in
  set_timer (mkTimerService (<[id := entry]> (entries (timer h)))).

Section WithLuxon.

(** Luxon's [DateTime.toISO()] of an instant given in epoch milliseconds;
    it is [null] for an invalid date. *)
Variable toISO : Z -> option string.

(** [after(label, delayMs, action)] *)
Definition after (label : string) (delayMs : Z) (action : TimerAction) : M string :=
  let* id := randomUUID in
  let* now := Date_now in
  let fireAt := default "" (toISO (now + delayMs)) in
  let entry :=
    TimerEntry.mk id label action pending fireAt (default "" (toISO now)) in
  set_entry id entry ;;
  Scheduler.addDelayed ("timer:" +:+ id) delayMs (after_closure id action) ;;
  ret id.

(** [at(label, dt, action)]; [dt] is given by [dt.toMillis()]. *)
Definition at_ (label : string) (dt : Z) (action : TimerAction) : M string :=
  let* now := Date_now in
  let delay := dt - now in
  if (delay <? 0)%Z then throw (TargetInPast (toISO dt))
  else after label delay action.

(** [cron(label, cronExpr, action)] *)
Definition cron (label : string) (cronExpr : string) (action : TimerAction)
    : M string :=
  let* id := randomUUID in
  let* now := Date_now in
  let entry :=
    TimerEntry.mk id label action pending ("cron:" +:+ cronExpr)
                  (default "" (toISO now)) in
  set_entry id entry ;;
  Scheduler.add ("timer:" +:+ id) cronExpr (cron_closure id action) ;;
  ret id.

End WithLuxon.

(** [cancel(timerId)] *)
Definition cancel (timerId : string) : M unit :=
  let* h := get_heap in
  match entries (timer h) !! timerId with
  | None => throw (NoTimerFound timerId)
  | Some _ =>
      Scheduler.remove ("timer:" +:+ timerId) ;;
      markStatus timerId cancelled
  end.

End TimerService.

(** ** Running the scheduled functions *)

(** Calling a [JobFn]: the bodies of the three closures.  None of them
    takes a parameter, so the job id and the data the worker passes are
    dropped. *)
Definition JobFn_call (fn : JobFn) : M unit :=
  match fn with
  | after_closure id action =>
      TimerService.markStatus id fired ;;
      TimerService.dispatch action
  | cron_closure id action =>
      TimerService.markStatus id fired ;;
      TimerService.dispatch action ;;
      TimerService.markStatus id pending
  | schedule_closure payload =>
      NotificationService.send payload
  end.

Module Worker_.

(** The processor given to [new Worker] in [Scheduler._connect]: find the
    handler by the name of the job; without one, warn and return. *)
Definition process (job : BullJob) : M unit :=
  let* h := get_heap in
  match handlers (scheduler h) !! job_name job with
  | None => emit_effect (Console (warn_no_handler (job_name job)))
  | Some handler => JobFn_call handler
  end.

(** The broker hands the held job [jobId] to the worker.  A delayed job is
    consumed by that; a repeating one stays.  A failure of the processor goes
    to the ['failed'] listener of the worker, which logs it. *)
Definition deliver (jobId : string) : M unit :=
  let* h := get_heap in
  let s := scheduler h in
  match queue s, worker s with
  | Some q, Some _ =>
      match held q !! jobId with
      | None => ret tt
      | Some job =>
          (match job_opts job with
           | opts_delay _ =>
               set_scheduler
                 (Scheduler.with_queue s (Queue_.remove_job job q) (jobs s) (handlers s))
           | _ => ret tt
           end) ;;
          fun h' =>
            match process job h' with
            | (Ok _, h'') => (Ok tt, h'')
            | (Throw e, h'') =>
                emit_effect (Console (error_job_failed (job_name job) e)) h''
            end
      end
  | _, _ => ret tt
  end.

End Worker_.

(** ** services/index.ts *)

(** [buildCoreServices()]: one event bus, one scheduler, one notification
    service and one timer service, wired together. *)
Definition buildCoreServices (lib : BullMQ) (prisma : PrismaClient)
    (redisConnection : ConnectionOptions) (env_SCHEDULER_QUEUE : option string)
    (now : Z) (uuids : nat -> string) : Heap :=
  let '(s, logs) :=
    Scheduler.new lib redisConnection (default "prism-scheduler" env_SCHEDULER_QUEUE) in
  mkHeap s EventBus.new (NotificationService.new prisma) TimerService.new
         now uuids 0 logs.

(** Time passes. *)
Definition advance (ms : Z) (h : Heap) : Heap :=
  mkHeap (scheduler h) (events h) (notify h) (timer h) (clock h + ms)
         (entropy h) (drawn h) (trace h).

(** ** Vocabulary of the statements *)

(** The heap with further effects at the end of its trace. *)
Definition traced (es : list Effect) (h : Heap) : Heap :=
  mkHeap (scheduler h) (events h) (notify h) (timer h) (clock h)
         (entropy h) (drawn h) (trace h ++ es).

(** The heap whose scheduler has forgotten the bookkeeping of one job id and
    is otherwise the same. *)
Definition forget_job (jobId : string) (h : Heap) : Heap :=
  let s := scheduler h in
  mkHeap (mkScheduler (queue s) (worker s) (connection s) (queueName s)
                      (delete jobId (jobs s)) (handlers s) (_ready s))
         (events h) (notify h) (timer h) (clock h) (entropy h) (drawn h) (trace h).

(** The constructors of the queue library reached the broker. *)
Definition reachable (lib : BullMQ) (qname : string) (conn : ConnectionOptions) : bool :=
  is_ok (new_Queue lib qname conn) && is_ok (new_Worker lib qname conn).

(** The heap whose timer service holds [e] under [id]. *)
Definition put_entry (id : string) (e : TimerEntry.t) (h : Heap) : Heap :=
  mkHeap (scheduler h) (events h) (notify h)
         (mkTimerService (<[id := e]> (entries (timer h))))
         (clock h) (entropy h) (drawn h) (trace h).

(** The heap after one more [randomUUID()]. *)
Definition drew (h : Heap) : Heap :=
  mkHeap (scheduler h) (events h) (notify h) (timer h) (clock h)
         (entropy h) (S (drawn h)) (trace h).

(** The heap with another scheduler. *)
Definition put_scheduler (s : SchedulerObj) (h : Heap) : Heap :=
  mkHeap s (events h) (notify h) (timer h) (clock h) (entropy h) (drawn h) (trace h).

(** The name under which the timer service schedules a timer, and the id
    under which [addDelayed] puts a job of that name into the queue at a
    given instant. *)
Definition timer_job_name (id : string) : string := "timer:" +:+ id.

Definition delayed_job_id (name : string) (now : Z) : string :=
  name +:+ "-" +:+ pretty now.

(** What the worker does with the outcome of the processor. *)
Definition settle_job (name : string) (r : result unit * Heap) : result unit * Heap :=
  match r with
  | (Ok _, h) => (Ok tt, h)
  | (Throw e, h) => (Ok tt, traced [Console (error_job_failed name e)] h)
  end.

(** The status of a timer, if the timer service knows it. *)
Definition status_of (id : string) (h : Heap) : option TimerStatus :=
  TimerEntry.status <$> entries (timer h) !! id.

(** Two entries that differ at most in their status. *)
Definition same_but_status (e e' : TimerEntry.t) : Prop :=
  TimerEntry.id e' = TimerEntry.id e /\
  TimerEntry.label e' = TimerEntry.label e /\
  TimerEntry.action e' = TimerEntry.action e /\
  TimerEntry.fireAt e' = TimerEntry.fireAt e /\
  TimerEntry.createdAt e' = TimerEntry.createdAt e.

(** The listeners of an event on the bus of the heap, in the order of their
    registration. *)
Definition listeners_of_heap (event : string) (h : Heap) : list Listener :=
  EventBus.listeners_of event (events h).

(** Between two heaps, the timer entries are the same up to the status of
    the entry [id]. *)
Definition only_status_changed (id : string) (h h' : Heap) : Prop :=
  forall j : string,
    match entries (timer h) !! j, entries (timer h') !! j with
    | Some e, Some e' => same_but_status e e' /\ (j <> id -> e' = e)
    | None, None => True
    | _, _ => False
    end.

(** The parts of the heap the event bus never touches. *)
Definition bus_frame (h h' : Heap) : Prop :=
  scheduler h' = scheduler h /\ notify h' = notify h /\ timer h' = timer h /\
  clock h' = clock h.

(** The call of a listener, as it shows in the trace. *)
Definition call_of (event : string) (payload : JsVal) (l : Listener) : Effect :=
  ListenerCall event (fn_id (l_fn l)) payload.

(** Of listeners called in turn with [a], those that are reached: the ones
    before the first that throws, and that one. *)
Fixpoint reached (a : Args) (ls : list Listener) : list Listener :=
  match ls with
  | [] => []
  | l :: rest =>
      match fn_call (l_fn l) a with
      | None => l :: reached a rest
      | Some _ => [l]
      end
  end.

(** What the first throwing listener throws, if one throws. *)
Fixpoint first_throw (a : Args) (ls : list Listener) : option Error :=
  match ls with
  | [] => None
  | l :: rest =>
      match fn_call (l_fn l) a with
      | None => first_throw a rest
      | Some e => Some e
      end
  end.

(** A listener added by [on], not by [once]. *)
Definition plain (l : Listener) : Prop := l_once l = false.

(** The calls of listeners that a heap has recorded, oldest first. *)
Definition is_listener_call (e : Effect) : bool :=
  match e with
  | ListenerCall _ _ _ | ListenerTold _ _ _ _ => true
  | _ => false
  end.

Definition listener_calls (h : Heap) : list Effect :=
  List.filter is_listener_call (trace h).

(** The arguments [send] passes to its collaborators. *)
Definition channel_of (payload : NotifyPayload.t) : string :=
  default "default" (NotifyPayload.channel payload).

Definition row_of (payload : NotifyPayload.t) : NotificationData :=
  mkNotificationData (NotifyPayload.userId payload) (NotifyPayload.title payload)
    (NotifyPayload.body payload) (channel_of payload)
    (default [] (NotifyPayload.meta payload)).

Definition push_of (payload : NotifyPayload.t) : Effect :=
  SocketEmit ("user:" +:+ NotifyPayload.userId payload) "notification"
    (mkPushMessage (NotifyPayload.title payload) (NotifyPayload.body payload)
                   (channel_of payload) (NotifyPayload.meta payload)).

(** The outcome of the push of [send]: nothing to do without a socket
    server. *)
Definition push_outcome (payload : NotifyPayload.t) (h : Heap) : option Error :=
  match io (notify h) with
  | None => None
  | Some srv =>
      to_emit srv ("user:" +:+ NotifyPayload.userId payload) "notification"
        (mkPushMessage (NotifyPayload.title payload) (NotifyPayload.body payload)
                       (channel_of payload) (NotifyPayload.meta payload))
  end.

(** The outcome of the channel handler of [send]: nothing to do without a
    handler for the channel. *)
Definition channel_outcome (payload : NotifyPayload.t) (h : Heap) : option Error :=
  match channels (notify h) !! channel_of payload with
  | None => None
  | Some handler => handle handler payload
  end.

(** The effects of [send] after the row was written: the push, when a
    socket server is attached, and the call of the channel handler, when
    the push did not throw and the channel has a handler. *)
Definition push_step (payload : NotifyPayload.t) (h : Heap) : list Effect :=
  match io (notify h) with
  | None => []
  | Some _ => [push_of payload]
  end.

Definition channel_step (payload : NotifyPayload.t) (h : Heap) : list Effect :=
  match push_outcome payload h, channels (notify h) !! channel_of payload with
  | None, Some _ => [ChannelCall (channel_of payload) payload]
  | _, _ => []
  end.

(** The outcome of [send] after the row was written. *)
Definition delivery_outcome (payload : NotifyPayload.t) (h : Heap) : result unit :=
  match push_outcome payload h with
  | Some e => Throw e
  | None =>
      match channel_outcome payload h with
      | Some e => Throw e
      | None => Ok tt
      end
  end.

(** ** Concrete collaborators for the examples *)

Definition bullmq_up : BullMQ :=
  mkBullMQ (fun _ _ => Ok (mkQueue ∅ 0)) (fun _ _ => Ok mkWorker).

Definition bullmq_down : BullMQ :=
  mkBullMQ (fun _ _ => Throw (External "connect ECONNREFUSED"))
           (fun _ _ => Throw (External "connect ECONNREFUSED")).

Definition prisma_up : PrismaClient := mkPrismaClient (fun _ => None).

Definition prisma_down : PrismaClient :=
  mkPrismaClient (fun _ => Some (External "database unreachable")).

Definition localhost : ConnectionOptions := mkConnectionOptions None None.

Definition uuid_n (n : nat) : string := "uuid-" +:+ pretty n.

Definition iso_ms (ms : Z) : option string := Some (pretty ms).

(** A process started at instant 5000 with the broker up, and one started
    with the broker down. *)
Definition heap_up : Heap :=
  buildCoreServices bullmq_up prisma_up localhost None 5000 uuid_n.

Definition heap_down : Heap :=
  buildCoreServices bullmq_down prisma_up localhost None 5000 uuid_n.

Definition hi_u1 : NotifyPayload.t :=
  NotifyPayload.mk "u1" "Hi" "there" None None.

Definition ping_action : TimerAction :=
  event_action "ping" (JsObj [("n", JsNum 1)]).

Definition socket_up : SocketServer := mkSocketServer (fun _ _ _ => None).

Definition channel_ok : ChannelHandler := mkChannelHandler (fun _ => None).

Definition channel_failing : ChannelHandler :=
  mkChannelHandler (fun _ => Some (External "smtp down")).

(** The process with a socket server attached and a handler registered for
    the default channel; the same with a handler that rejects; and a process
    whose store rejects every write. *)
Definition heap_wired : Heap :=
  (NotificationService.registerChannel "default" channel_ok
     (NotificationService.attachSocket socket_up heap_up).2).2.

Definition heap_channel_failing : Heap :=
  (NotificationService.registerChannel "default" channel_failing
     (NotificationService.attachSocket socket_up heap_up).2).2.

Definition heap_store_down : Heap :=
  buildCoreServices bullmq_up prisma_down localhost None 5000 uuid_n.

(** Two listeners of one event, the first of which throws. *)
Definition loud : EventHandler :=
  mkEventHandler 1 (fun _ => Some (External "boom")).

Definition quiet : EventHandler := mkEventHandler 2 (fun _ => None).

Definition heap_loud_quiet : Heap :=
  (EventBus.on "tick" quiet (EventBus.on "tick" loud heap_up).2).2.

Definition heap_quiet_quiet : Heap :=
  (EventBus.once "tick" quiet (EventBus.on "tick" quiet heap_up).2).2.

(** The process after [cron("tick", "* * * * *", ping)], whose timer got the
    id [uuid-0]; and the process after [on("ping", quiet)] and
    [after("x", 1000, ping)]. *)
Definition heap_cron : Heap :=
  (TimerService.cron iso_ms "tick" "* * * * *" ping_action heap_up).2.

Definition heap_listening : Heap := (EventBus.on "ping" quiet heap_up).2.

Definition heap_after : Heap :=
  (TimerService.after iso_ms "x" 1000 ping_action heap_listening).2.

Definition heap_cancelled : Heap := (TimerService.cancel "uuid-0" heap_after).2.

(** The process whose store is down, after
    [cron("digest", "0 9 * * *", notify(hi_u1))]. *)
Definition heap_cron_store_down : Heap :=
  (TimerService.cron iso_ms "digest" "0 9 * * *" (notify_action hi_u1)
     heap_store_down).2.




(** ** The core as a machine *)

(** One call from outside: a public method of one of the four services, the
    broker delivering a job, or time passing. *)
Inductive Call : Type :=
| call_on (event : string) (handler : EventHandler)
| call_once (event : string) (handler : EventHandler)
| call_off (event : string) (handler : EventHandler)
| call_emit (event : string) (payload : JsVal)
| call_add (name cron : string) (fn : JobFn)
| call_addDelayed (name : string) (delay : Z) (fn : JobFn)
| call_addRepeating (name : string) (every : Z) (fn : JobFn)
| call_remove (jobId : string)
| call_attachSocket (srv : SocketServer)
| call_registerChannel (name : string) (handler : ChannelHandler)
| call_send (payload : NotifyPayload.t)
| call_schedule (payload : NotifyPayload.t) (at_ : Z)
| call_notify_cancel (jobId : string)
| call_after (label : string) (delayMs : Z) (action : TimerAction)
| call_at (label : string) (dt : Z) (action : TimerAction)
| call_cron (label cronExpr : string) (action : TimerAction)
| call_timer_cancel (timerId : string)
| call_deliver (jobId : string)
| call_advance (ms : Z).

(** The heap a call leaves, whether it returned or threw. *)
Definition run_call (toISO : Z -> option string) (c : Call) (h : Heap) : Heap :=
  match c with
  | call_on event handler => (EventBus.on event handler h).2
  | call_once event handler => (EventBus.once event handler h).2
  | call_off event handler => (EventBus.off event handler h).2
  | call_emit event payload => (EventBus.emit event payload h).2
  | call_add name cron fn => (Scheduler.add name cron fn h).2
  | call_addDelayed name delay fn => (Scheduler.addDelayed name delay fn h).2
  | call_addRepeating name every fn => (Scheduler.addRepeating name every fn h).2
  | call_remove jobId => (Scheduler.remove jobId h).2
  | call_attachSocket srv => (NotificationService.attachSocket srv h).2
  | call_registerChannel name handler =>
      (NotificationService.registerChannel name handler h).2
  | call_send payload => (NotificationService.send payload h).2
  | call_schedule payload at_ => (NotificationService.schedule payload at_ h).2
  | call_notify_cancel jobId => (NotificationService.cancel jobId h).2
  | call_after label delayMs action =>
      (TimerService.after toISO label delayMs action h).2
  | call_at label dt action => (TimerService.at_ toISO label dt action h).2
  | call_cron label cronExpr action =>
      (TimerService.cron toISO label cronExpr action h).2
  | call_timer_cancel timerId => (TimerService.cancel timerId h).2
  | call_deliver jobId => (Worker_.deliver jobId h).2
  | call_advance ms => advance ms h
  end.

(** A run: calls one after the other. *)
Definition run_calls (toISO : Z -> option string) (cs : list Call) (h : Heap) : Heap :=
  fold_left (fun h c => run_call toISO c h) cs h.

(** The parts of the heap a call may write. *)
Record Footprint : Type := mkFootprint {
  w_scheduler : bool;
  w_events : bool;
  w_notify : bool;
  w_timer : bool;
  w_clock : bool;
  w_drawn : bool
}.

(** [h'] differs from [h] at most in the parts of the footprint; the
    source of ids is the same, and the trace has only grown. *)
Definition within (fp : Footprint) (h h' : Heap) : Prop :=
  (w_scheduler fp = false -> scheduler h' = scheduler h) /\
  (w_events fp = false -> events h' = events h) /\
  (w_notify fp = false -> notify h' = notify h) /\
  (w_timer fp = false -> timer h' = timer h) /\
  (w_clock fp = false -> clock h' = clock h) /\
  (w_drawn fp = false -> drawn h' = drawn h) /\
  entropy h' = entropy h /\
  exists es, trace h' = (trace h ++ es)%list.

Definition stays {A} (fp : Footprint) (m : M A) : Prop :=
  forall h, within fp h (m h).2.

Definition fp_le (fp fp' : Footprint) : bool :=
  implb (w_scheduler fp) (w_scheduler fp') && implb (w_events fp) (w_events fp') &&
  implb (w_notify fp) (w_notify fp') && implb (w_timer fp) (w_timer fp') &&
  implb (w_clock fp) (w_clock fp') && implb (w_drawn fp) (w_drawn fp').

Definition fp_trace : Footprint := mkFootprint false false false false false false.
Definition fp_events : Footprint := mkFootprint false true false false false false.
Definition fp_scheduler : Footprint := mkFootprint true false false false false false.
Definition fp_notify : Footprint := mkFootprint false false true false false false.
Definition fp_timer : Footprint := mkFootprint false false false true false false.
Definition fp_new_timer : Footprint := mkFootprint true false false true false true.
Definition fp_cancel : Footprint := mkFootprint true false false true false false.
Definition fp_fire : Footprint := mkFootprint false true false true false false.
Definition fp_deliver : Footprint := mkFootprint true true false true false false.
Definition fp_clock : Footprint := mkFootprint false false false false true false.

(** What each call may write: the bus calls the bus, the scheduler calls
    the scheduler, and so on; only a delivery reaches three services. *)
Definition footprint (c : Call) : Footprint :=
  match c with
  | call_on _ _ | call_once _ _ | call_off _ _ | call_emit _ _ => fp_events
  | call_add _ _ _ | call_addDelayed _ _ _ | call_addRepeating _ _ _
  | call_remove _ | call_notify_cancel _ | call_schedule _ _ => fp_scheduler
  | call_attachSocket _ | call_registerChannel _ _ => fp_notify
  | call_send _ => fp_trace
  | call_after _ _ _ | call_at _ _ _ | call_cron _ _ _ => fp_new_timer
  | call_timer_cancel _ => fp_cancel
  | call_deliver _ => fp_deliver
  | call_advance _ => fp_clock
  end.

(** The scheduler of [h'] is the scheduler of [h] with possibly more jobs
    and handlers: whether it is ready, its worker, its connection and its
    queue name are the same, it has a queue if and only if it had one, and
    every name that had a handler has one. *)
Definition scheduler_grows (h h' : Heap) : Prop :=
  _ready (scheduler h') = _ready (scheduler h) /\
  worker (scheduler h') = worker (scheduler h) /\
  connection (scheduler h') = connection (scheduler h) /\
  queueName (scheduler h') = queueName (scheduler h) /\
  (queue (scheduler h') = None <-> queue (scheduler h) = None) /\
  forall name, is_Some (handlers (scheduler h) !! name) ->
               is_Some (handlers (scheduler h') !! name).

(** A step of the scheduler: it is left alone, or it grows, which takes a
    ready scheduler or a worker. *)
Definition scheduler_step (h h' : Heap) : Prop :=
  scheduler h' = scheduler h \/
  (scheduler_grows h h' /\
   (Scheduler.isReady (scheduler h) = true \/ worker (scheduler h) <> None)).

(** Every entry is stored under its own id, and every id was drawn. *)
Definition timers_wf (h : Heap) : Prop :=
  forall k e, entries (timer h) !! k = Some e ->
    TimerEntry.id e = k /\ exists i, (i < drawn h)%nat /\ k = entropy h i.

(** A step of the timer service: entries stay, up to their status, and a new
    entry is stored under its own id, which was drawn in this step. *)
Definition timers_step (h h' : Heap) : Prop :=
  entropy h' = entropy h /\ (drawn h <= drawn h')%nat /\
  forall k,
    match entries (timer h) !! k, entries (timer h') !! k with
    | Some e, Some e' => same_but_status e e'
    | None, Some e' =>
        TimerEntry.id e' = k /\
        exists i, (drawn h <= i < drawn h')%nat /\ k = entropy h i
    | Some _, None => False
    | None, None => True
    end.

(** The registrations of a bus are told apart by their serial numbers. *)
Definition bus_wf (b : EventBusObj) : Prop :=
  forall event,
    NoDup (map l_serial (EventBus.listeners_of event b)) /\
    Forall (fun l => (l_serial l < next_serial (emitter b))%nat)
           (EventBus.listeners_of event b).

(** A method keeps the registrations of the bus told apart. *)
Definition keeps_bus {A} (m : M A) : Prop :=
  forall h, bus_wf (events h) -> bus_wf (events (m h).2).

(** The bus [b'] has, for every event, listeners among those of [b], in
    their order, and the same counter of registrations. *)
Definition bus_shrinks (b b' : EventBusObj) : Prop :=
  next_serial (emitter b') = next_serial (emitter b) /\
  forall ev, sublist (EventBus.listeners_of ev b') (EventBus.listeners_of ev b).

Definition shrinks {A} (m : M A) : Prop :=
  forall h, bus_shrinks (events h) (events (m h).2).

(** Fuel that is enough for an emission of [event] from [h]. *)
Definition enough (fuel : nat) (event : string) (h : Heap) : Prop :=
  (length (EventBus.listeners_of "removeListener" (events h))
     + (if String.eqb event "removeListener" then 1 else 2) <= fuel)%nat.

(** The listeners an emission with [a] leaves of the array it runs over: a
    listener added by [once] is gone once it was reached, whether it threw
    or not; the others stay, and so does everything after the first listener
    that threw. *)
Fixpoint survivors (a : Args) (ls : list Listener) : list Listener :=
  match ls with
  | [] => []
  | l :: rest =>
      (if l_once l then [] else [l]) ++
      match fn_call (l_fn l) a with
      | None => survivors a rest
      | Some _ => rest
      end
  end.

(** The id the broker gives to the next job that comes without one. *)
Definition next_broker_id (q : Queue) : string := "repeat:" +:+ pretty (next_seq q).

(** No timer entry has the status [failed]. *)
Definition no_failed (h : Heap) : Prop :=
  forall k e, entries (timer h) !! k = Some e -> TimerEntry.status e <> failed.

Definition keeps_no_failed {A} (m : M A) : Prop :=
  forall h, no_failed h -> no_failed (m h).2.

(** ** modules/time/index.ts *)

Module TimeModule.

(** A request body that has the shape of [triggerBodySchema]: a string, a
    whole number, an action of one of the three kinds. *)
Record TriggerBody : Type := mkTriggerBody {
  body_label : string;
  body_delayMs : Z;
  body_action : TimerAction
}.

(** What the schema asks of the values: [label: z.string().min(1)],
    [delayMs: z.number().int().positive()]. *)
Definition triggerBodySchema (b : TriggerBody) : bool :=
  negb (String.eqb (body_label b) "") && (0 <? body_delayMs b)%Z.

(** The answers of [POST /<prefix>/trigger]: 400, or the timer with the
    instant at which it fires (the [message], a sentence made of label and
    delay, is left out). *)
Inductive TriggerReply : Type :=
| trigger_bad_request
| trigger_scheduled (timerId label : string) (delayMs : Z) (fireAt : option string).

(** The handler of [POST /<prefix>/trigger]. *)
Definition trigger (toISO : Z -> option string) (b : TriggerBody) : M TriggerReply :=
  if triggerBodySchema b then
    let* timerId :=
      TimerService.after toISO (body_label b) (body_delayMs b) (body_action b) in
    let* now := Date_now in
    ret (trigger_scheduled timerId (body_label b) (body_delayMs b)
           (toISO (now + body_delayMs b)))
  else ret trigger_bad_request.

End TimeModule.

(** ** modules/dashboard/public/app.js *)

Module Dashboard.

Import Stdlib.Strings.Ascii.

(** [s.replace(/c/g, by_)] for a pattern of one character. *)
Fixpoint replace_char (c : ascii) (by_ : string) (s : string) : string :=
  match s with
  | EmptyString => EmptyString
  | String a s' =>
      if Ascii.eqb a c then by_ +:+ replace_char c by_ s'
      else String a (replace_char c by_ s')
  end.

(** The four characters [esc] replaces. *)
Definition amp : ascii := "&"%char.
Definition lt : ascii := "<"%char.
Definition gt : ascii := ">"%char.
Definition dquote : ascii := "034"%char.

(** [esc(s)], for a string [s]: four replacements, one after the other. *)
Definition esc (s : string) : string :=
  replace_char dquote "&quot;"
    (replace_char gt "&gt;"
       (replace_char lt "&lt;"
          (replace_char amp "&amp;" s))).

(** What [esc] makes of one character. *)
Definition esc_char (a : ascii) : string :=
  if Ascii.eqb a amp then "&amp;"
  else if Ascii.eqb a lt then "&lt;"
  else if Ascii.eqb a gt then "&gt;"
  else if Ascii.eqb a dquote then "&quot;"
  else String a EmptyString.

Fixpoint esc_each (s : string) : string :=
  match s with
  | EmptyString => EmptyString
  | String a s' => esc_char a +:+ esc_each s'
  end.

(** The characters of a string. *)
Fixpoint chars (s : string) : list ascii :=
  match s with
  | EmptyString => []
  | String a s' => a :: chars s'
  end.

End Dashboard.

(** ** Basic facts *)

Ltac run_monad :=
  unfold bind, ret, throw, get_heap, set_scheduler, set_events, set_notify,
    set_timer, emit_effect, Date_now, randomUUID, settle; simpl.

Ltac destruct_queue_add :=
  match goal with
  | |- context [Queue_.add ?n ?o ?j ?q] =>
      let job := fresh "job" in
      let q' := fresh "q'" in
      destruct (Queue_.add n o j q) as [job q']
  end.

(** *** Footprints *)

Lemma within_refl (fp : Footprint) (h : Heap) : within fp h h.
Proof. unfold within. repeat split; try done. exists []. by rewrite app_nil_r. Qed.

Lemma within_trans (fp : Footprint) (h1 h2 h3 : Heap) :
  within fp h1 h2 -> within fp h2 h3 -> within fp h1 h3.
Proof.
  unfold within.
  intros (Hs & He & Hn & Ht & Hc & Hd & Hen & es & Htr)
         (Hs' & He' & Hn' & Ht' & Hc' & Hd' & Hen' & es' & Htr').
  split; [intros Hw; by rewrite Hs', Hs|].
  split; [intros Hw; by rewrite He', He|].
  split; [intros Hw; by rewrite Hn', Hn|].
  split; [intros Hw; by rewrite Ht', Ht|].
  split; [intros Hw; by rewrite Hc', Hc|].
  split; [intros Hw; by rewrite Hd', Hd|].
  split; [congruence|].
  exists (es ++ es')%list. by rewrite Htr', Htr, app_assoc.
Qed.

Lemma within_mono (fp fp' : Footprint) (h h' : Heap) :
  fp_le fp fp' = true -> within fp h h' -> within fp' h h'.
Proof.
  unfold fp_le, within. intros Hle (Hs & He & Hn & Ht & Hc & Hd & Hen & Htr).
  repeat (apply andb_true_iff in Hle as [Hle ?]).
  repeat split; try done; intros Hw;
    [apply Hs | apply He | apply Hn | apply Ht | apply Hc | apply Hd];
    match goal with
    | H : implb ?a ?b = true |- ?a = false => destruct a; [by rewrite Hw in H | done]
    end.
Qed.

Lemma within_traced (fp : Footprint) (es : list Effect) (h : Heap) :
  within fp h (traced es h).
Proof. unfold within. repeat split; try done. by exists es. Qed.

Lemma stays_mono {A} (fp fp' : Footprint) (m : M A) :
  fp_le fp fp' = true -> stays fp m -> stays fp' m.
Proof. intros Hle Hm h. by eapply within_mono. Qed.

Lemma stays_bind {A B} (fp : Footprint) (m : M A) (k : A -> M B) :
  stays fp m -> (forall a, stays fp (k a)) -> stays fp (bind m k).
Proof.
  intros Hm Hk h. unfold bind. specialize (Hm h).
  destruct (m h) as [[a|e] h1]; [|exact Hm].
  eapply within_trans; [exact Hm | apply Hk].
Qed.

Lemma stays_ret {A} (fp : Footprint) (a : A) : stays fp (ret a).
Proof. intros h. apply within_refl. Qed.

Lemma stays_throw {A} (fp : Footprint) (e : Error) : stays fp (@throw A e).
Proof. intros h. apply within_refl. Qed.

Lemma stays_get_heap (fp : Footprint) : stays fp get_heap.
Proof. intros h. apply within_refl. Qed.

Lemma stays_Date_now (fp : Footprint) : stays fp Date_now.
Proof. intros h. apply within_refl. Qed.

Lemma stays_settle (fp : Footprint) (o : option Error) : stays fp (settle o).
Proof. destruct o; [apply stays_throw | apply stays_ret]. Qed.

Lemma stays_emit_effect (fp : Footprint) (e : Effect) : stays fp (emit_effect e).
Proof. intros h. apply (within_traced fp [e] h). Qed.

Lemma stays_set_scheduler (fp : Footprint) (s : SchedulerObj) :
  w_scheduler fp = true -> stays fp (set_scheduler s).
Proof.
  intros Hw h. unfold within; simpl. rewrite Hw.
  repeat split; try done. exists []. by rewrite app_nil_r.
Qed.

Lemma stays_set_events (fp : Footprint) (b : EventBusObj) :
  w_events fp = true -> stays fp (set_events b).
Proof.
  intros Hw h. unfold within; simpl. rewrite Hw.
  repeat split; try done. exists []. by rewrite app_nil_r.
Qed.

Lemma stays_set_notify (fp : Footprint) (n : NotificationServiceObj) :
  w_notify fp = true -> stays fp (set_notify n).
Proof.
  intros Hw h. unfold within; simpl. rewrite Hw.
  repeat split; try done. exists []. by rewrite app_nil_r.
Qed.

Lemma stays_set_timer (fp : Footprint) (t : TimerServiceObj) :
  w_timer fp = true -> stays fp (set_timer t).
Proof.
  intros Hw h. unfold within; simpl. rewrite Hw.
  repeat split; try done. exists []. by rewrite app_nil_r.
Qed.

Lemma stays_randomUUID (fp : Footprint) :
  w_drawn fp = true -> stays fp randomUUID.
Proof.
  intros Hw h. unfold within; simpl. rewrite Hw.
  repeat split; try done. exists []. by rewrite app_nil_r.
Qed.

Ltac stays_step :=
  lazymatch goal with
  | |- stays _ (bind _ _) => apply stays_bind; [|intros ?; cbv beta zeta]
  | |- stays _ (ret _) => apply stays_ret
  | |- stays _ (throw _) => apply stays_throw
  | |- stays _ get_heap => apply stays_get_heap
  | |- stays _ Date_now => apply stays_Date_now
  | |- stays _ (settle _) => apply stays_settle
  | |- stays _ (emit_effect _) => apply stays_emit_effect
  | |- stays _ (set_scheduler _) => apply stays_set_scheduler; reflexivity
  | |- stays _ (set_events _) => apply stays_set_events; reflexivity
  | |- stays _ (set_notify _) => apply stays_set_notify; reflexivity
  | |- stays _ (set_timer _) => apply stays_set_timer; reflexivity
  | |- stays _ randomUUID => apply stays_randomUUID; reflexivity
  | |- stays _ (match ?x with _ => _ end) => destruct x
  end.

Ltac stays_auto := cbv beta zeta; repeat stays_step.

Lemma isReady_false_no_queue (s : SchedulerObj) :
  Scheduler.isReady s = false -> Scheduler.ready_queue s = None.
Proof. unfold Scheduler.ready_queue. by intros ->. Qed.

Lemma ready_queue_Some (s : SchedulerObj) (q : Queue) :
  Scheduler.ready_queue s = Some q ->
  queue s = Some q /\ _ready s = true /\ Scheduler.isReady s = true.
Proof.
  unfold Scheduler.ready_queue, Scheduler.isReady.
  destruct (_ready s); simpl; [|done].
  case_bool_decide; [|done]. by intros ->.
Qed.

Lemma isReady_true_queue (s : SchedulerObj) :
  Scheduler.isReady s = true -> exists q, Scheduler.ready_queue s = Some q.
Proof.
  unfold Scheduler.ready_queue. intros Hr. rewrite Hr.
  unfold Scheduler.isReady in Hr. apply andb_true_iff in Hr as [_ Hq].
  apply bool_decide_eq_true in Hq. destruct (queue s); [eauto | done].
Qed.

Lemma new_unreachable_not_ready (lib : BullMQ) (conn : ConnectionOptions) (qname : string) :
  reachable lib qname conn = false ->
  Scheduler.isReady (Scheduler.new lib conn qname).1 = false.
Proof.
  unfold reachable, Scheduler.new, Scheduler._connect; simpl.
  destruct (new_Queue lib qname conn); simpl; [|done].
  destruct (new_Worker lib qname conn); simpl; done.
Qed.

Lemma degraded_stays_put (h : Heap) (name cron : string) (delay : Z) (fn : JobFn) :
  Scheduler.isReady (scheduler h) = false ->
  Scheduler.add name cron fn h = (Ok tt, traced [Console warn_skip_add] h) /\
  Scheduler.addDelayed name delay fn h = (Throw SchedulerUnavailable, h).
Proof.
  intros Hr%isReady_false_no_queue.
  unfold Scheduler.add, Scheduler.addDelayed. run_monad. by rewrite Hr.
Qed.

(** C2.  A scheduler constructed while the broker cannot be reached is not
    ready; on it [add] logs the warning and returns, leaving every field of
    the scheduler, the handler map included, as it was, and [addDelayed]
    throws [SchedulerUnavailable] and returns no job id. *)
Theorem degraded_add_warns_addDelayed_rejects
    (lib : BullMQ) (conn : ConnectionOptions) (qname : string) (h : Heap)
    (name cron : string) (delay : Z) (fn : JobFn) :
  reachable lib qname conn = false ->
  scheduler h = (Scheduler.new lib conn qname).1 ->
  Scheduler.isReady (scheduler h) = false /\
  Scheduler.add name cron fn h = (Ok tt, traced [Console warn_skip_add] h) /\
  handlers (scheduler (Scheduler.add name cron fn h).2) !! name = None /\
  Scheduler.addDelayed name delay fn h = (Throw SchedulerUnavailable, h).
Proof.
  intros Hdown Hs.
  assert (Hr : Scheduler.isReady (scheduler h) = false).
  { rewrite Hs. by apply new_unreachable_not_ready. }
  destruct (degraded_stays_put h name cron delay fn Hr) as [Hadd Hdel].
  repeat split; try done.
  rewrite Hadd; simpl. rewrite Hs.
  unfold Scheduler.new, Scheduler._connect; simpl.
  destruct (new_Queue lib qname conn); simpl; [|done].
  destruct (new_Worker lib qname conn); simpl; done.
Qed.

Lemma degraded_add_warns_addDelayed_rejects_witness :
  reachable bullmq_down "prism-scheduler" localhost = false /\
  Scheduler.add "x" "* * * * *" (cron_closure "t" ping_action) heap_down
    = (Ok tt, traced [Console warn_skip_add] heap_down) /\
  Scheduler.addDelayed "y" 1000 (after_closure "t" ping_action) heap_down
    = (Throw SchedulerUnavailable, heap_down).
Proof.
  split; [reflexivity|].
  pose proof (degraded_add_warns_addDelayed_rejects bullmq_down localhost
                "prism-scheduler" heap_down "x" "* * * * *" 1000
                (cron_closure "t" ping_action) eq_refl eq_refl) as (_ & Ha & _ & _).
  pose proof (degraded_add_warns_addDelayed_rejects bullmq_down localhost
                "prism-scheduler" heap_down "y" "* * * * *" 1000
                (after_closure "t" ping_action) eq_refl eq_refl) as (_ & _ & _ & Hd).
  exact (conj Ha Hd).
Defined.

(** ** Scheduler.remove *)

Lemma remove_not_ready (jobId : string) (h : Heap) :
  Scheduler.isReady (scheduler h) = false ->
  Scheduler.remove jobId h = (Ok tt, h).
Proof.
  intros Hr%isReady_false_no_queue.
  unfold Scheduler.remove. run_monad. by rewrite Hr.
Qed.

Lemma remove_ready (jobId : string) (h : Heap) (q : Queue) :
  Scheduler.ready_queue (scheduler h) = Some q ->
  Scheduler.remove jobId h =
    (Ok tt,
     mkHeap (Scheduler.with_queue (scheduler h)
               (match Queue_.getJob jobId q with
                | Some job => Queue_.remove_job job q
                | None => q
                end)
               (delete jobId (jobs (scheduler h))) (handlers (scheduler h)))
            (events h) (notify h) (timer h) (clock h) (entropy h) (drawn h) (trace h)).
Proof. intros Hq. unfold Scheduler.remove. run_monad. by rewrite Hq. Qed.

Lemma ready_queue_with_queue (s : SchedulerObj) (q : Queue)
    (js : gmap string SchedulerJob.t) (hs : gmap string JobFn) :
  _ready s = true ->
  Scheduler.ready_queue (Scheduler.with_queue s q js hs) = Some q.
Proof.
  intros Hr. unfold Scheduler.ready_queue, Scheduler.isReady; simpl.
  rewrite Hr; simpl. reflexivity.
Qed.

Lemma remove_always_ok (jobId : string) (h : Heap) :
  (Scheduler.remove jobId h).1 = Ok tt.
Proof.
  destruct (Scheduler.ready_queue (scheduler h)) as [q|] eqn:Hq.
  - by rewrite (remove_ready _ _ _ Hq).
  - unfold Scheduler.remove. run_monad. by rewrite Hq.
Qed.

(** Looking a job up and removing it, done twice, is the same as done
    once. *)
Lemma take_out_twice (jobId : string) (q : Queue) :
  let q' := match Queue_.getJob jobId q with
            | Some job => Queue_.remove_job job q
            | None => q
            end in
  match Queue_.getJob jobId q' with
  | Some job => Queue_.remove_job job q'
  | None => q'
  end = q'.
Proof.
  unfold Queue_.getJob, Queue_.remove_job.
  destruct (held q !! jobId) as [job|] eqn:Hj; simpl; [|by rewrite Hj].
  destruct (job_id job) as [j|] eqn:Hid; simpl; [|by rewrite Hj, Hid].
  destruct (decide (j = jobId)) as [->|Hne].
  - by rewrite lookup_delete_eq.
  - rewrite lookup_delete_ne, Hj, Hid by done; simpl.
    by rewrite delete_delete_eq.
Qed.

Lemma remove_twice (jobId : string) (h : Heap) :
  Scheduler.remove jobId (Scheduler.remove jobId h).2 = Scheduler.remove jobId h.
Proof.
  destruct (Scheduler.ready_queue (scheduler h)) as [q|] eqn:Hq.
  - destruct (ready_queue_Some _ _ Hq) as (_ & Hr & _).
    rewrite (remove_ready _ _ _ Hq); simpl.
    match goal with
    | |- Scheduler.remove _ ?h1 = _ =>
        rewrite (remove_ready jobId h1 _
                   (ready_queue_with_queue (scheduler h) _ _ _ Hr))
    end.
    simpl. unfold Scheduler.with_queue; simpl.
    pose proof (take_out_twice jobId q) as Htw; simpl in Htw.
    by rewrite Htw, delete_delete_eq.
  - unfold Scheduler.remove. run_monad. rewrite Hq. simpl. by rewrite Hq.
Qed.

Lemma remove_not_held (jobId : string) (h : Heap) (q : Queue) :
  Scheduler.ready_queue (scheduler h) = Some q ->
  held q !! jobId = None ->
  Scheduler.remove jobId h = (Ok tt, forget_job jobId h).
Proof.
  intros Hq Hnone. rewrite (remove_ready _ _ _ Hq).
  unfold Queue_.getJob. rewrite Hnone.
  destruct (ready_queue_Some _ _ Hq) as (Hqs & _ & _).
  unfold forget_job, Scheduler.with_queue. by rewrite Hqs.
Qed.

(** C8.  [Scheduler.remove] never throws.  On a scheduler that is not ready
    it changes nothing.  For a job id the queue does not hold (never known,
    already consumed by its execution, already removed) it changes nothing
    but the local bookkeeping under that id, which it deletes.  Done twice it
    leaves the heap that doing it once leaves. *)
Theorem remove_idempotent (jobId : string) (h : Heap) :
  (Scheduler.remove jobId h).1 = Ok tt /\
  (Scheduler.isReady (scheduler h) = false ->
     Scheduler.remove jobId h = (Ok tt, h)) /\
  (forall q, Scheduler.ready_queue (scheduler h) = Some q ->
     held q !! jobId = None ->
     Scheduler.remove jobId h = (Ok tt, forget_job jobId h)) /\
  Scheduler.remove jobId (Scheduler.remove jobId h).2 = Scheduler.remove jobId h.
Proof.
  split; [apply remove_always_ok|].
  split; [apply remove_not_ready|].
  split; [apply remove_not_held|apply remove_twice].
Qed.

Lemma remove_idempotent_witness :
  Scheduler.remove "never-issued" heap_down = (Ok tt, heap_down) /\
  Scheduler.remove "never-issued" heap_up = (Ok tt, forget_job "never-issued" heap_up).
Proof.
  destruct (remove_idempotent "never-issued" heap_down) as (_ & Hdown & _).
  destruct (remove_idempotent "never-issued" heap_up) as (_ & _ & Hup & _).
  split.
  - apply Hdown. reflexivity.
  - apply (Hup (mkQueue ∅ 0)); reflexivity.
Defined.

(** C10.  [NotificationService.cancel] returns normally for every job id,
    issued or not, executed or not: it raises no error of its own and
    [Scheduler.remove], to which it delegates, raises none.  It touches
    nothing but the scheduler: the trace, and with it every notification
    already persisted, is as before. *)
Theorem notification_cancel_never_throws (jobId : string) (h : Heap) :
  (NotificationService.cancel jobId h).1 = Ok tt /\
  NotificationService.cancel jobId h = Scheduler.remove jobId h /\
  trace (NotificationService.cancel jobId h).2 = trace h /\
  notify (NotificationService.cancel jobId h).2 = notify h.
Proof.
  unfold NotificationService.cancel.
  split; [apply remove_always_ok|]. split; [done|].
  destruct (Scheduler.ready_queue (scheduler h)) as [q|] eqn:Hq.
  - by rewrite (remove_ready _ _ _ Hq).
  - unfold Scheduler.remove. run_monad. by rewrite Hq.
Qed.

(** ** NotificationService.send *)

Lemma traced_traced (es es' : list Effect) (h : Heap) :
  traced es' (traced es h) = traced (es ++ es') h.
Proof. unfold traced; simpl. by rewrite app_assoc. Qed.

Lemma traced_nil (h : Heap) : traced [] h = h.
Proof. destruct h. unfold traced; simpl. by rewrite app_nil_r. Qed.

Lemma persist_step (payload : NotifyPayload.t) (h : Heap) :
  NotificationService.persist payload (channel_of payload) h
    = (match notification_create (db (notify h)) (row_of payload) with
       | Some e => Throw e
       | None => Ok tt
       end,
       traced [DbNotificationCreate (row_of payload)] h).
Proof.
  unfold NotificationService.persist. run_monad. fold (row_of payload).
  by destruct (notification_create _ _).
Qed.

Lemma push_step_run (payload : NotifyPayload.t) (h : Heap) :
  NotificationService.push payload (channel_of payload) h
    = (match push_outcome payload h with Some e => Throw e | None => Ok tt end,
       traced (push_step payload h) h).
Proof.
  unfold NotificationService.push, push_outcome, push_step. run_monad.
  destruct (io (notify h)) as [srv|]; [|by rewrite traced_nil].
  fold (push_of payload). by destruct (to_emit srv _ _ _).
Qed.

Lemma run_channel_step (payload : NotifyPayload.t) (h : Heap) :
  NotificationService.run_channel payload (channel_of payload) h
    = (match channel_outcome payload h with Some e => Throw e | None => Ok tt end,
       traced (match channels (notify h) !! channel_of payload with
               | Some _ => [ChannelCall (channel_of payload) payload]
               | None => []
               end) h).
Proof.
  unfold NotificationService.run_channel, channel_outcome. run_monad.
  destruct (channels (notify h) !! channel_of payload) as [f|];
    [|by rewrite traced_nil].
  by destruct (handle f payload).
Qed.

Lemma send_persist_fails (payload : NotifyPayload.t) (h : Heap) (e : Error) :
  notification_create (db (notify h)) (row_of payload) = Some e ->
  NotificationService.send payload h
    = (Throw e, traced [DbNotificationCreate (row_of payload)] h).
Proof.
  intros He. unfold NotificationService.send, bind.
  fold (channel_of payload). by rewrite persist_step, He.
Qed.

Lemma send_persist_ok (payload : NotifyPayload.t) (h : Heap) :
  notification_create (db (notify h)) (row_of payload) = None ->
  NotificationService.send payload h
    = (delivery_outcome payload h,
       traced (DbNotificationCreate (row_of payload)
                 :: push_step payload h ++ channel_step payload h) h).
Proof.
  intros He. unfold NotificationService.send, bind.
  fold (channel_of payload). rewrite persist_step, He, push_step_run.
  unfold delivery_outcome, channel_step.
  change (push_outcome payload (traced _ h)) with (push_outcome payload h).
  change (push_step payload (traced _ h)) with (push_step payload h).
  destruct (push_outcome payload h) as [e|].
  - rewrite traced_traced. simpl. by rewrite app_nil_r.
  - rewrite run_channel_step, !traced_traced.
    change (channel_outcome payload (traced _ h)) with (channel_outcome payload h).
    change (notify (traced _ h)) with (notify h).
    by destruct (channel_outcome payload h).
Qed.

(** C4.  [send] writes the row, then pushes to the socket server, then calls
    the handler registered for the channel, in this order and nothing else:
    with a socket server attached, a push that does not throw and a handler
    registered, the trace grows by exactly these three effects.  Without a
    socket server the push is skipped, without a handler the call is.  When
    the write fails, [send] throws what the store threw and stops there:
    neither the push nor the handler is reached. *)
Theorem send_three_steps_in_order (payload : NotifyPayload.t) (h : Heap) :
  (forall e, notification_create (db (notify h)) (row_of payload) = Some e ->
     NotificationService.send payload h
       = (Throw e, traced [DbNotificationCreate (row_of payload)] h)) /\
  (notification_create (db (notify h)) (row_of payload) = None ->
     trace (NotificationService.send payload h).2
       = (trace h ++ DbNotificationCreate (row_of payload)
                     :: push_step payload h ++ channel_step payload h)%list) /\
  (forall srv handler,
     notification_create (db (notify h)) (row_of payload) = None ->
     io (notify h) = Some srv ->
     push_outcome payload h = None ->
     channels (notify h) !! channel_of payload = Some handler ->
     trace (NotificationService.send payload h).2
       = (trace h ++ [DbNotificationCreate (row_of payload); push_of payload;
                      ChannelCall (channel_of payload) payload])%list).
Proof.
  split; [intros e; apply send_persist_fails|].
  split.
  - intros Hok. by rewrite (send_persist_ok _ _ Hok).
  - intros srv handler Hok Hio Hpush Hch. rewrite (send_persist_ok _ _ Hok); simpl.
    unfold push_step, channel_step. by rewrite Hio, Hpush, Hch.
Qed.

Lemma send_three_steps_in_order_witness :
  NotificationService.send hi_u1 heap_store_down
    = (Throw (External "database unreachable"),
       traced [DbNotificationCreate (row_of hi_u1)] heap_store_down) /\
  trace (NotificationService.send hi_u1 heap_wired).2
    = (trace heap_wired ++ [DbNotificationCreate (row_of hi_u1); push_of hi_u1;
                            ChannelCall "default" hi_u1])%list.
Proof.
  destruct (send_three_steps_in_order hi_u1 heap_store_down) as (Hfail & _ & _).
  destruct (send_three_steps_in_order hi_u1 heap_wired) as (_ & _ & Hall).
  split.
  - apply Hfail. reflexivity.
  - apply (Hall socket_up channel_ok); reflexivity.
Defined.

(** The claim C3 fails where the handler of the channel rejects: the row was
    written, and [send] rejects with what the handler threw. *)
Lemma send_surfaces_channel_failure :
  notification_create (db (notify heap_channel_failing)) (row_of hi_u1) = None /\
  (NotificationService.send hi_u1 heap_channel_failing).1
    = Throw (External "smtp down").
Proof. split; reflexivity. Qed.

(** C3, amended.  Once the row is written, [send] returns normally exactly
    when the push does not throw and the handler of the channel, if there is
    one, resolves; what the push or the handler throws is thrown to the
    caller of [send], nothing catches or logs it, and the row stays written.
    A missing socket server and a missing handler are not errors. *)
Theorem send_outcome_after_persist (payload : NotifyPayload.t) (h : Heap) :
  notification_create (db (notify h)) (row_of payload) = None ->
  (NotificationService.send payload h).1 = delivery_outcome payload h /\
  ((NotificationService.send payload h).1 = Ok tt <->
     push_outcome payload h = None /\ channel_outcome payload h = None) /\
  (forall e, push_outcome payload h = Some e ->
     (NotificationService.send payload h).1 = Throw e) /\
  (forall e, push_outcome payload h = None -> channel_outcome payload h = Some e ->
     (NotificationService.send payload h).1 = Throw e) /\
  (io (notify h) = None -> channels (notify h) !! channel_of payload = None ->
     (NotificationService.send payload h).1 = Ok tt) /\
  DbNotificationCreate (row_of payload) ∈ trace (NotificationService.send payload h).2.
Proof.
  intros Hok. rewrite (send_persist_ok _ _ Hok); cbn [fst snd].
  unfold delivery_outcome.
  split; [done|]. split.
  { destruct (push_outcome payload h); [split; [done | by intros [? _]]|].
    destruct (channel_outcome payload h); [split; [done | by intros [_ ?]]|].
    done. }
  split; [by intros e ->|].
  split; [by intros e -> ->|].
  split.
  { intros Hio Hch. unfold push_outcome, channel_outcome. by rewrite Hio, Hch. }
  apply elem_of_app. right. apply elem_of_cons. by left.
Qed.

Lemma send_outcome_after_persist_witness :
  (NotificationService.send hi_u1 heap_channel_failing).1
    = Throw (External "smtp down") /\
  (NotificationService.send hi_u1 heap_up).1 = Ok tt.
Proof.
  destruct (send_outcome_after_persist hi_u1 heap_channel_failing eq_refl)
    as (_ & _ & _ & Hch & _).
  destruct (send_outcome_after_persist hi_u1 heap_up eq_refl)
    as (_ & _ & _ & _ & Hnone & _).
  split.
  - apply Hch; reflexivity.
  - apply Hnone; reflexivity.
Defined.

(** ** EventBus: the emitter *)

Lemma listeners_of_set (event ev : string) (ls : list Listener) (n : nat)
    (b : EventBusObj) :
  EventBus.listeners_of ev (EventBus.set_listeners event ls n b)
    = if decide (event = ev) then ls else EventBus.listeners_of ev b.
Proof.
  unfold EventBus.listeners_of, EventBus.set_listeners. simpl.
  rewrite lookup_insert. by destruct (decide (event = ev)).
Qed.

Lemma emit_S (fuel : nat) (fired : list nat) (event : string) (a : Args) (h : Heap) :
  EventBus.emit_ (S fuel) fired event a h
    = match listeners_of_heap event h with
      | [] => (if String.eqb event "error"
               then Throw (UnhandledError (EventBus.first_arg a)) else Ok fired, h)
      | l :: rest =>
          EventBus.call_listeners (EventBus.emit_ fuel) fired event a (l :: rest) h
      end.
Proof.
  cbn [EventBus.emit_]. unfold bind, get_heap, listeners_of_heap.
  destruct (EventBus.listeners_of event (events h)); [|done].
  by destruct (String.eqb event "error").
Qed.

Lemma emit_unfold (event : string) (payload : JsVal) (h : Heap) :
  EventBus.emit event payload h
    = let r := EventBus.emit_ (EventBus.fuel_for h) [] event (args_payload payload) h in
      (match r.1 with Ok _ => Ok tt | Throw e => Throw e end, r.2).
Proof.
  unfold EventBus.emit, bind, get_heap. cbv zeta.
  by destruct (EventBus.emit_ _ _ _ _ h) as [[?|?] ?].
Qed.

(** *** What the emitter may write *)

Section EmitterStays.

Variable nested : list nat -> string -> Args -> M (list nat).
Hypothesis nested_stays : forall fired event a, stays fp_events (nested fired event a).

Lemma removeListener_stays (fired : list nat) (event : string)
    (p : Listener -> bool) (fn : nat) :
  stays fp_events (EventBus.removeListener nested fired event p fn).
Proof. unfold EventBus.removeListener. stays_auto. apply nested_stays. Qed.

Lemma before_call_stays (fired : list nat) (event : string) (l : Listener) :
  stays fp_events (EventBus.before_call nested fired event l).
Proof.
  unfold EventBus.before_call. destruct (l_once l); [|apply stays_ret].
  apply stays_bind; [apply removeListener_stays | intros; apply stays_ret].
Qed.

Lemma call_listeners_stays (event : string) (a : Args) (ls : list Listener) :
  forall fired, stays fp_events (EventBus.call_listeners nested fired event a ls).
Proof.
  induction ls as [|l rest IH]; intros fired; cbn [EventBus.call_listeners];
    [apply stays_ret|].
  destruct (l_once l && existsb (Nat.eqb (l_serial l)) fired); [apply IH|].
  apply stays_bind; [apply before_call_stays|]. intros fired'.
  stays_auto. apply IH.
Qed.

End EmitterStays.

Lemma emit__stays (fuel : nat) :
  forall fired event a, stays fp_events (EventBus.emit_ fuel fired event a).
Proof.
  induction fuel as [|fuel IH]; intros fired event a; cbn [EventBus.emit_];
    [apply stays_ret|].
  apply stays_bind; [apply stays_get_heap|]. intros h.
  destruct (EventBus.listeners_of event (events h)) as [|l rest].
  - destruct (String.eqb event "error"); [apply stays_throw|apply stays_ret].
  - by apply call_listeners_stays.
Qed.

Lemma emit_stays (event : string) (payload : JsVal) :
  stays fp_events (EventBus.emit event payload).
Proof.
  unfold EventBus.emit. apply stays_bind; [apply stays_get_heap|]. intros h.
  apply stays_bind; [apply emit__stays | intros; apply stays_ret].
Qed.

Lemma addListener_stays (event : string) (handler : EventHandler) (once_ : bool) :
  stays fp_events (EventBus.addListener event handler once_).
Proof.
  unfold EventBus.addListener. apply stays_bind; [apply stays_get_heap|]. intros h.
  apply stays_bind.
  - destruct (EventBus.listeners_of "newListener" (events h)); [apply stays_ret|].
    apply stays_bind; [apply emit__stays | intros; apply stays_ret].
  - intros _. stays_auto.
Qed.

Lemma off_stays (event : string) (handler : EventHandler) :
  stays fp_events (EventBus.off event handler).
Proof.
  unfold EventBus.off. apply stays_bind; [apply stays_get_heap|]. intros h.
  apply stays_bind; [|intros; apply stays_ret].
  apply removeListener_stays, emit__stays.
Qed.

(** The parts of the heap the event bus never touches. *)
Lemma stays_bus_frame {A} (m : M A) (h : Heap) :
  stays fp_events m -> bus_frame h (m h).2.
Proof.
  intros Hm. destruct (Hm h) as (Hs & _ & Hn & Ht & Hc & _).
  unfold bus_frame. auto.
Qed.

(** *** The emitter only removes *)

Lemma sublist_map {A B} (f : A -> B) (l1 l2 : list A) :
  sublist l1 l2 -> sublist (map f l1) (map f l2).
Proof. induction 1; simpl; by constructor. Qed.

Lemma sublist_Forall {A} (P : A -> Prop) (l1 l2 : list A) :
  sublist l1 l2 -> Forall P l2 -> Forall P l1.
Proof.
  induction 1 as [|x l1 l2 _ IH|x l1 l2 _ IH]; [done|..];
    intros [Hx Hl]%Forall_cons; [constructor|]; auto.
Qed.

Lemma sublist_rev {A} (l1 l2 : list A) :
  sublist l1 l2 -> sublist (rev l1) (rev l2).
Proof.
  induction 1 as [|x l1 l2 _ IH|x l1 l2 _ IH]; simpl; [constructor|..].
  - by apply sublist_app.
  - by apply sublist_inserts_r.
Qed.

Lemma remove_first_sublist {A} (p : A -> bool) (l : list A) :
  sublist (EventBus.remove_first p l) l.
Proof.
  induction l as [|x l IH]; simpl; [constructor|].
  destruct (p x); [by apply sublist_cons | by apply sublist_skip].
Qed.

Lemma remove_last_sublist {A} (p : A -> bool) (l : list A) :
  sublist (EventBus.remove_last p l) l.
Proof.
  unfold EventBus.remove_last. rewrite <- (rev_involutive l) at 2.
  apply sublist_rev, remove_first_sublist.
Qed.

Lemma bus_shrinks_refl (b : EventBusObj) : bus_shrinks b b.
Proof. by split. Qed.

Lemma bus_shrinks_trans (b1 b2 b3 : EventBusObj) :
  bus_shrinks b1 b2 -> bus_shrinks b2 b3 -> bus_shrinks b1 b3.
Proof.
  intros [Hn Hs] [Hn' Hs']. split; [congruence|].
  intros ev. etrans; [apply Hs' | apply Hs].
Qed.

Lemma shrinks_bind {A B} (m : M A) (k : A -> M B) :
  shrinks m -> (forall a, shrinks (k a)) -> shrinks (bind m k).
Proof.
  intros Hm Hk h. unfold bind. specialize (Hm h).
  destruct (m h) as [[a|e] h1]; [|exact Hm].
  eapply bus_shrinks_trans; [exact Hm | apply Hk].
Qed.

Lemma shrinks_same {A} (m : M A) :
  (forall h, events (m h).2 = events h) -> shrinks m.
Proof. intros Hm h. rewrite Hm. apply bus_shrinks_refl. Qed.

Lemma removeListener_run (nested : list nat -> string -> Args -> M (list nat))
    (fired : list nat) (event : string) (p : Listener -> bool) (fn : nat) (h : Heap) :
  EventBus.removeListener nested fired event p fn h
    = if existsb p (listeners_of_heap event h) then
        let h1 := (set_events
                     (EventBus.set_listeners event
                        (EventBus.remove_last p (listeners_of_heap event h))
                        (next_serial (emitter (events h))) (events h)) h).2 in
        match listeners_of_heap "removeListener" h1 with
        | [] => (Ok fired, h1)
        | _ :: _ => nested fired "removeListener" (args_listener event fn) h1
        end
      else (Ok fired, h).
Proof.
  unfold EventBus.removeListener, bind, get_heap, listeners_of_heap.
  destruct (existsb p (EventBus.listeners_of event (events h))); [|done].
  cbn [set_events fst snd events].
  by destruct (EventBus.listeners_of "removeListener" _).
Qed.

Lemma set_listeners_shrinks (event : string) (p : Listener -> bool) (h : Heap) :
  bus_shrinks (events h)
    (EventBus.set_listeners event
       (EventBus.remove_last p (listeners_of_heap event h))
       (next_serial (emitter (events h))) (events h)).
Proof.
  split; [done|]. intros ev. rewrite listeners_of_set.
  destruct (decide (event = ev)) as [->|]; [apply remove_last_sublist | done].
Qed.

Section EmitterShrinks.

Variable nested : list nat -> string -> Args -> M (list nat).
Hypothesis nested_shrinks : forall fired event a, shrinks (nested fired event a).

Lemma removeListener_shrinks (fired : list nat) (event : string)
    (p : Listener -> bool) (fn : nat) :
  shrinks (EventBus.removeListener nested fired event p fn).
Proof.
  intros h. rewrite removeListener_run.
  destruct (existsb p (listeners_of_heap event h)); [|apply bus_shrinks_refl].
  cbv zeta. set (h1 := (set_events _ h).2).
  assert (H1 : bus_shrinks (events h) (events h1)) by apply set_listeners_shrinks.
  destruct (listeners_of_heap "removeListener" h1); [exact H1|].
  eapply bus_shrinks_trans; [exact H1 | apply nested_shrinks].
Qed.

Lemma before_call_shrinks (fired : list nat) (event : string) (l : Listener) :
  shrinks (EventBus.before_call nested fired event l).
Proof.
  unfold EventBus.before_call. destruct (l_once l); [|by apply shrinks_same].
  apply shrinks_bind; [apply removeListener_shrinks | intros; by apply shrinks_same].
Qed.

Lemma call_listeners_shrinks (event : string) (a : Args) (ls : list Listener) :
  forall fired, shrinks (EventBus.call_listeners nested fired event a ls).
Proof.
  induction ls as [|l rest IH]; intros fired; cbn [EventBus.call_listeners];
    [by apply shrinks_same|].
  destruct (l_once l && existsb (Nat.eqb (l_serial l)) fired); [apply IH|].
  apply shrinks_bind; [apply before_call_shrinks|]. intros fired'.
  apply shrinks_bind; [by apply shrinks_same|]. intros _.
  apply shrinks_bind; [|intros; apply IH].
  apply shrinks_same. intros h. by destruct (fn_call (l_fn l) a).
Qed.

End EmitterShrinks.

Lemma emit__shrinks (fuel : nat) :
  forall fired event a, shrinks (EventBus.emit_ fuel fired event a).
Proof.
  induction fuel as [|fuel IH]; intros fired event a h; [apply bus_shrinks_refl|].
  rewrite emit_S. destruct (listeners_of_heap event h) as [|l rest].
  - destruct (String.eqb event "error"); apply bus_shrinks_refl.
  - by apply call_listeners_shrinks.
Qed.

Lemma emit_shrinks (event : string) (payload : JsVal) :
  shrinks (EventBus.emit event payload).
Proof.
  intros h. rewrite emit_unfold. cbv zeta. cbn [snd]. apply emit__shrinks.
Qed.

(** *** Listeners added by [on] *)

Lemma call_listeners_plain (nested : list nat -> string -> Args -> M (list nat))
    (fired : list nat) (event : string) (a : Args) (ls : list Listener) :
  Forall plain ls ->
  forall h,
    EventBus.call_listeners nested fired event a ls h
      = (match first_throw a ls with Some e => Throw e | None => Ok fired end,
         traced (map (fun l => EventBus.call_effect event l a) (reached a ls)) h).
Proof.
  induction 1 as [|l rest Hl _ IH]; intros h.
  - simpl. by rewrite traced_nil.
  - cbn [EventBus.call_listeners first_throw reached]. unfold plain in Hl.
    unfold EventBus.before_call. rewrite Hl. cbn [andb].
    unfold bind at 1. cbn [ret]. unfold bind at 1. cbn [emit_effect].
    unfold bind at 1.
    destruct (fn_call (l_fn l) a) as [e|]; cbn [settle throw ret map].
    + done.
    + rewrite IH. f_equal. unfold traced. simpl. by rewrite <- app_assoc.
Qed.

Lemma emit__plain (fuel : nat) (fired : list nat) (event : string) (a : Args) (h : Heap) :
  Forall plain (listeners_of_heap event h) ->
  EventBus.emit_ (S fuel) fired event a h
    = (match listeners_of_heap event h with
       | [] => if String.eqb event "error"
               then Throw (UnhandledError (EventBus.first_arg a)) else Ok fired
       | _ :: _ =>
           match first_throw a (listeners_of_heap event h) with
           | Some e => Throw e
           | None => Ok fired
           end
       end,
       traced (map (fun l => EventBus.call_effect event l a)
                   (reached a (listeners_of_heap event h))) h).
Proof.
  intros Hp. rewrite emit_S.
  destruct (listeners_of_heap event h) as [|l rest] eqn:Hls.
  - simpl. rewrite traced_nil. by destruct (String.eqb event "error").
  - by rewrite call_listeners_plain.
Qed.

(** *** The fuel is enough *)

Lemma remove_first_length {A} (p : A -> bool) (l : list A) :
  existsb p l = true -> S (length (EventBus.remove_first p l)) = length l.
Proof.
  induction l as [|x l IH]; simpl; [done|].
  destruct (p x); simpl; [done|]. intros Hl. by rewrite IH.
Qed.

Lemma existsb_rev {A} (p : A -> bool) (l : list A) : existsb p (rev l) = existsb p l.
Proof.
  induction l as [|x l IH]; simpl; [done|].
  rewrite existsb_app, IH. simpl. rewrite orb_false_r. apply orb_comm.
Qed.

Lemma remove_last_length {A} (p : A -> bool) (l : list A) :
  existsb p l = true -> S (length (EventBus.remove_last p l)) = length l.
Proof.
  intros Hl. unfold EventBus.remove_last. rewrite length_rev.
  rewrite remove_first_length by (by rewrite existsb_rev).
  apply length_rev.
Qed.

Lemma bus_shrinks_length (b b' : EventBusObj) (ev : string) :
  bus_shrinks b b' ->
  (length (EventBus.listeners_of ev b') <= length (EventBus.listeners_of ev b))%nat.
Proof. intros [_ Hs]. apply sublist_length, Hs. Qed.

Lemma enough_shrinks (fuel : nat) (event : string) (h h' : Heap) :
  bus_shrinks (events h) (events h') -> enough fuel event h -> enough fuel event h'.
Proof.
  intros Hs He. unfold enough in *.
  pose proof (bus_shrinks_length _ _ "removeListener" Hs). lia.
Qed.

Lemma bind_ext {A B} (m m' : M A) (k k' : A -> M B) (h : Heap) :
  m h = m' h ->
  (forall a h1, m' h = (Ok a, h1) -> k a h1 = k' a h1) ->
  bind m k h = bind m' k' h.
Proof.
  intros Hm Hk. unfold bind. rewrite Hm.
  destruct (m' h) as [[a|e] h1]; [by apply Hk | done].
Qed.

Section EmitterFuel.

Variables nested nested' : list nat -> string -> Args -> M (list nat).
Variable bound : nat.
Hypothesis nested_shrinks : forall fired event a, shrinks (nested' fired event a).
Hypothesis nested_agree :
  forall fired a h,
    enough bound "removeListener" h ->
    nested fired "removeListener" a h = nested' fired "removeListener" a h.

Lemma before_call_fuel (fired : list nat) (event : string) (l : Listener) (h : Heap) :
  enough (S bound) event h ->
  EventBus.before_call nested fired event l h
    = EventBus.before_call nested' fired event l h.
Proof.
  intros He. unfold EventBus.before_call. destruct (l_once l); [|done].
  unfold bind. rewrite !removeListener_run.
  destruct (existsb _ (listeners_of_heap event h)) eqn:Hex; [|done].
  cbv zeta. set (h1 := (set_events _ h).2).
  destruct (listeners_of_heap "removeListener" h1) eqn:H1; [done|].
  rewrite nested_agree; [done|].
  unfold enough in *. simpl. subst h1. cbn [set_events snd events].
  rewrite listeners_of_set.
  destruct (String.eqb_spec event "removeListener") as [->|Hne].
  - rewrite decide_True by done.
    pose proof (remove_last_length _ _ Hex) as Hlen.
    unfold listeners_of_heap in *. lia.
  - rewrite decide_False by done. lia.
Qed.

Lemma call_listeners_fuel (event : string) (a : Args) (ls : list Listener) :
  forall fired h,
    enough (S bound) event h ->
    EventBus.call_listeners nested fired event a ls h
      = EventBus.call_listeners nested' fired event a ls h.
Proof.
  induction ls as [|l rest IH]; intros fired h He; [done|].
  cbn [EventBus.call_listeners].
  destruct (l_once l && existsb (Nat.eqb (l_serial l)) fired); [by apply IH|].
  apply bind_ext; [by apply before_call_fuel|]. intros fired' h2 Hb.
  pose proof (before_call_shrinks nested' nested_shrinks fired event l h) as Hs.
  rewrite Hb in Hs. cbn [snd] in Hs.
  apply bind_ext; [done|]. intros [] h3 [= <-].
  apply bind_ext; [done|]. intros [] h4 H4.
  apply IH. eapply enough_shrinks; [|exact He].
  destruct (fn_call (l_fn l) a); simpl in H4; [done|]. by injection H4 as <-.
Qed.

End EmitterFuel.

Lemma enough_less (n m : nat) (event : string) (h : Heap) :
  (n <= m)%nat -> enough n event h -> enough m event h.
Proof. unfold enough. lia. Qed.

(** With enough fuel the outcome of an emission does not depend on the
    fuel. *)
Lemma emit__fuel (n : nat) :
  forall m fired event a h,
    enough n event h -> enough m event h ->
    EventBus.emit_ n fired event a h = EventBus.emit_ m fired event a h.
Proof.
  induction n as [|n IH]; intros m fired event a h Hn Hm.
  { unfold enough in Hn. destruct (String.eqb event "removeListener"); lia. }
  destruct m as [|m].
  { unfold enough in Hm. destruct (String.eqb event "removeListener"); lia. }
  rewrite !emit_S. destruct (listeners_of_heap event h) as [|l rest]; [done|].
  apply (call_listeners_fuel _ _ (Nat.min n m)).
  - apply emit__shrinks.
  - intros fired' a' h' He. apply IH; eapply enough_less; try exact He; lia.
  - unfold enough in *. destruct (String.eqb event "removeListener"); lia.
Qed.

Lemma enough_fuel_for (event : string) (h : Heap) : enough (EventBus.fuel_for h) event h.
Proof.
  unfold enough, EventBus.fuel_for.
  destruct (String.eqb event "removeListener"); lia.
Qed.

(** The fuel that [emit] gives to the emitter is never used up: more fuel
    gives the same outcome and the same heap. *)
Lemma emit_fuel_enough (n : nat) (event : string) (payload : JsVal) (h : Heap) :
  (EventBus.fuel_for h <= n)%nat ->
  EventBus.emit_ n [] event (args_payload payload) h
    = EventBus.emit_ (EventBus.fuel_for h) [] event (args_payload payload) h.
Proof.
  intros Hn. apply emit__fuel; [|apply enough_fuel_for].
  eapply enough_less; [exact Hn | apply enough_fuel_for].
Qed.

(** ** EventBus.emit *)

Lemma reached_all (a : Args) (ls : list Listener) :
  (forall l, l ∈ ls -> fn_call (l_fn l) a = None) ->
  reached a ls = ls /\ first_throw a ls = None.
Proof.
  induction ls as [|l rest IH]; intros Hall; [done|]. simpl.
  rewrite (Hall l) by apply list_elem_of_here.
  destruct IH as [-> ->]; [|done].
  intros l' Hl'. apply Hall. by apply list_elem_of_further.
Qed.

Lemma reached_until (a : Args) (pre post : list Listener) (l : Listener) (e : Error) :
  Forall (fun x => fn_call (l_fn x) a = None) pre ->
  fn_call (l_fn l) a = Some e ->
  reached a (pre ++ l :: post) = (pre ++ [l])%list /\
  first_throw a (pre ++ l :: post) = Some e.
Proof.
  intros Hpre Hl. induction Hpre as [|x pre Hx _ [IH1 IH2]]; simpl.
  - by rewrite Hl.
  - by rewrite Hx, IH1, IH2.
Qed.

Lemma emit_plain (event : string) (payload : JsVal) (h : Heap) :
  Forall plain (listeners_of_heap event h) ->
  EventBus.emit event payload h
    = (match listeners_of_heap event h with
       | [] => if String.eqb event "error" then Throw (UnhandledError payload)
               else Ok tt
       | _ :: _ =>
           match first_throw (args_payload payload) (listeners_of_heap event h) with
           | Some e => Throw e
           | None => Ok tt
           end
       end,
       traced (map (call_of event payload)
                   (reached (args_payload payload) (listeners_of_heap event h))) h).
Proof.
  intros Hp. rewrite emit_unfold. unfold EventBus.fuel_for.
  rewrite (emit__plain _ _ _ _ _ Hp). cbv zeta. cbn [fst snd].
  f_equal. destruct (listeners_of_heap event h).
  - cbn [EventBus.first_arg]. by destruct (String.eqb event "error").
  - by destruct (first_throw _ _).
Qed.

Lemma listener_calls_traced (event : string) (payload : JsVal) (ls : list Listener)
    (h : Heap) :
  listener_calls (traced (map (call_of event payload) ls) h)
    = (listener_calls h ++ map (call_of event payload) ls)%list.
Proof.
  unfold listener_calls, traced. cbn [trace]. rewrite List.filter_app. f_equal.
  induction ls as [|l ls IH]; [done|]. simpl. by rewrite IH.
Qed.

(** C7: what the code does.  For an event whose listeners were all added by
    [on], [emit] calls them in the order of their registration, each once, up
    to and including the first one that throws, and throws what that one
    threw: the listeners registered after it are not called and do not
    receive the payload.  The bus is left as it was.  When none throws, every
    listener is called once and [emit] returns; for an event without
    listeners nothing is called and the heap is as it was. *)
Theorem emit_stops_at_first_throw (event : string) (payload : JsVal) (h : Heap) :
  Forall plain (listeners_of_heap event h) ->
  (forall pre l post e,
     listeners_of_heap event h = (pre ++ l :: post)%list ->
     Forall (fun x => fn_call (l_fn x) (args_payload payload) = None) pre ->
     fn_call (l_fn l) (args_payload payload) = Some e ->
     (EventBus.emit event payload h).1 = Throw e /\
     listener_calls (EventBus.emit event payload h).2
       = (listener_calls h ++ map (call_of event payload) (pre ++ [l]))%list /\
     events (EventBus.emit event payload h).2 = events h) /\
  ((forall l, l ∈ listeners_of_heap event h ->
      fn_call (l_fn l) (args_payload payload) = None) ->
   listeners_of_heap event h <> [] ->
   (EventBus.emit event payload h).1 = Ok tt /\
   listener_calls (EventBus.emit event payload h).2
     = (listener_calls h
          ++ map (call_of event payload) (listeners_of_heap event h))%list /\
   events (EventBus.emit event payload h).2 = events h) /\
  (listeners_of_heap event h = [] -> (EventBus.emit event payload h).2 = h).
Proof.
  intros Hp. pose proof (emit_plain event payload h Hp) as Hrun.
  split; [|split].
  - intros pre l post e Hls Hpre Hl. rewrite Hrun, Hls.
    destruct (reached_until (args_payload payload) pre post l e Hpre Hl) as [-> ->].
    cbn [fst snd]. rewrite listener_calls_traced. by destruct pre.
  - intros Hall Hne. rewrite Hrun.
    destruct (reached_all (args_payload payload) _ Hall) as [-> ->].
    cbn [fst snd]. rewrite listener_calls_traced.
    by destruct (listeners_of_heap event h).
  - intros Hnil. rewrite Hrun, Hnil. cbn [snd reached map]. apply traced_nil.
Qed.

Lemma emit_stops_at_first_throw_witness :
  map (fun l => fn_id (l_fn l)) (listeners_of_heap "tick" heap_loud_quiet)
    = [fn_id loud; fn_id quiet] /\
  (EventBus.emit "tick" JsNull heap_loud_quiet).1 = Throw (External "boom") /\
  listener_calls (EventBus.emit "tick" JsNull heap_loud_quiet).2
    = [ListenerCall "tick" (fn_id loud) JsNull].
Proof.
  split; [reflexivity|].
  assert (Hp : Forall plain (listeners_of_heap "tick" heap_loud_quiet))
    by (repeat constructor).
  destruct (emit_stops_at_first_throw "tick" JsNull heap_loud_quiet Hp)
    as (Hthrow & _ & _).
  destruct (Hthrow [] (mkListener 0 loud false) [mkListener 1 quiet false]
              (External "boom") eq_refl (List.Forall_nil _) eq_refl)
    as (Hres & Hcalls & _).
  exact (conj Hres Hcalls).
Defined.

(** ** TimerService *)

Lemma markStatus_found (id : string) (st : TimerStatus) (h : Heap) (e : TimerEntry.t) :
  entries (timer h) !! id = Some e ->
  TimerService.markStatus id st h = (Ok tt, put_entry id (TimerEntry.with_status e st) h).
Proof. intros He. unfold TimerService.markStatus. run_monad. by rewrite He. Qed.

Lemma markStatus_missing (id : string) (st : TimerStatus) (h : Heap) :
  entries (timer h) !! id = None ->
  TimerService.markStatus id st h = (Ok tt, h).
Proof. intros He. unfold TimerService.markStatus. run_monad. by rewrite He. Qed.

Lemma send_frame (payload : NotifyPayload.t) (h : Heap) :
  exists es, (NotificationService.send payload h).2 = traced es h.
Proof.
  destruct (notification_create (db (notify h)) (row_of payload)) as [e|] eqn:Hdb.
  - rewrite (send_persist_fails _ _ _ Hdb). eauto.
  - rewrite (send_persist_ok _ _ Hdb). eauto.
Qed.

(** [dispatch] leaves the timer entries and the scheduler alone. *)
Lemma dispatch_frame (action : TimerAction) (h : Heap) :
  timer (TimerService.dispatch action h).2 = timer h /\
  scheduler (TimerService.dispatch action h).2 = scheduler h.
Proof.
  destruct action as [payload|event payload|channel payload]; simpl.
  - destruct (send_frame payload h) as [es ->]. done.
  - destruct (stays_bus_frame _ h (emit_stays event payload)) as (Hs & _ & Ht & _).
    done.
  - destruct (stays_bus_frame _ h (emit_stays ("msg:" +:+ channel) payload))
      as (Hs & _ & Ht & _).
    done.
Qed.

Lemma status_reset (e : TimerEntry.t) (st st' : TimerStatus) :
  TimerEntry.with_status (TimerEntry.with_status e st) st'
    = TimerEntry.with_status e st'.
Proof. reflexivity. Qed.

Lemma cron_closure_unfold (id : string) (action : TimerAction) (h : Heap) (e : TimerEntry.t) :
  entries (timer h) !! id = Some e ->
  JobFn_call (cron_closure id action) h
    = let h1 := put_entry id (TimerEntry.with_status e fired) h in
      let r := TimerService.dispatch action h1 in
      match r.1 with
      | Ok _ => (Ok tt, put_entry id (TimerEntry.with_status e pending) r.2)
      | Throw err => (Throw err, r.2)
      end.
Proof.
  intros He. cbn [JobFn_call]. unfold bind.
  rewrite (markStatus_found _ _ _ _ He). cbv zeta.
  destruct (dispatch_frame action (put_entry id (TimerEntry.with_status e fired) h))
    as [Ht _].
  destruct (TimerService.dispatch action _) as [[[]|err] h2]; [|done].
  cbn [fst snd] in *.
  assert (He2 : entries (timer h2) !! id = Some (TimerEntry.with_status e fired)).
  { rewrite Ht. simpl. by rewrite lookup_insert_eq. }
  rewrite (markStatus_found _ _ _ _ He2). by rewrite status_reset.
Qed.

(** A fire of the cron closure that returns normally: the entry was
    [fired] while the action was dispatched and is [pending] afterwards. *)
Lemma cron_fire_ok_pending
    (id : string) (action : TimerAction) (h h' : Heap) (e : TimerEntry.t) :
  entries (timer h) !! id = Some e ->
  JobFn_call (cron_closure id action) h = (Ok tt, h') ->
  entries (timer h') !! id = Some (TimerEntry.with_status e pending) /\
  status_of id h' = Some pending /\
  status_of id h' <> Some fired /\
  exists h2,
    TimerService.dispatch action (put_entry id (TimerEntry.with_status e fired) h)
      = (Ok tt, h2) /\
    status_of id h2 = Some fired /\
    h' = put_entry id (TimerEntry.with_status e pending) h2.
Proof.
  intros He Hrun. rewrite (cron_closure_unfold _ _ _ _ He) in Hrun. cbv zeta in Hrun.
  destruct (dispatch_frame action (put_entry id (TimerEntry.with_status e fired) h))
    as [Ht _].
  destruct (TimerService.dispatch action _) as [[[]|err] h2]; [|discriminate].
  cbn [fst snd] in *. injection Hrun as <-.
  assert (Hl : entries (timer (put_entry id (TimerEntry.with_status e pending) h2)) !! id
               = Some (TimerEntry.with_status e pending)).
  { simpl. by rewrite lookup_insert_eq. }
  split; [done|]. unfold status_of. rewrite Hl. simpl.
  split; [done|]. split; [done|].
  exists h2. split; [done|]. split; [|done].
  rewrite Ht. simpl. by rewrite lookup_insert_eq.
Qed.

(** A fire whose dispatch throws does not reach the reset: the entry stays
    [fired]. *)
Lemma cron_fire_failed_stays_fired
    (id : string) (action : TimerAction) (h h' : Heap) (e : TimerEntry.t) (err : Error) :
  entries (timer h) !! id = Some e ->
  JobFn_call (cron_closure id action) h = (Throw err, h') ->
  status_of id h' = Some fired.
Proof.
  intros He Hrun. rewrite (cron_closure_unfold _ _ _ _ He) in Hrun. cbv zeta in Hrun.
  destruct (dispatch_frame action (put_entry id (TimerEntry.with_status e fired) h))
    as [Ht _].
  destruct (TimerService.dispatch action _) as [[[]|err'] h2]; [discriminate|].
  cbn [fst snd] in *. injection Hrun as _ <-.
  unfold status_of. rewrite Ht. simpl. by rewrite lookup_insert_eq.
Qed.

Lemma at_unfold (toISO : Z -> option string) (label : string) (dt : Z)
    (action : TimerAction) (h : Heap) :
  TimerService.at_ toISO label dt action h
    = if (dt - clock h <? 0)%Z then (Throw (TargetInPast (toISO dt)), h)
      else TimerService.after toISO label (dt - clock h) action h.
Proof.
  unfold TimerService.at_, bind, Date_now; simpl.
  by destruct (dt - clock h <? 0)%Z.
Qed.

(** C6.  [at] with a target before the clock throws [InvalidSchedule] and
    leaves the whole heap as it was: no entry, no job, no handler, no id
    drawn.  With a target at or after the clock it is [after] with the
    difference as delay. *)
Theorem at_rejects_past_else_after
    (toISO : Z -> option string) (label : string) (dt : Z) (action : TimerAction)
    (h : Heap) :
  (dt - clock h < 0 ->
     TimerService.at_ toISO label dt action h
       = (Throw (InvalidSchedule (toISO dt)), h)) /\
  (0 <= dt - clock h ->
     TimerService.at_ toISO label dt action h
       = TimerService.after toISO label (dt - clock h) action h).
Proof.
  rewrite at_unfold. split; intros Hd.
  - by apply Z.ltb_lt in Hd as ->.
  - by apply Z.ltb_ge in Hd as ->.
Qed.

Lemma at_rejects_past_else_after_witness :
  TimerService.at_ iso_ms "x" 4999 ping_action heap_up
    = (Throw (InvalidSchedule (Some "4999")), heap_up) /\
  TimerService.at_ iso_ms "x" 5000 ping_action heap_up
    = TimerService.after iso_ms "x" 0 ping_action heap_up.
Proof.
  split.
  - apply (proj1 (at_rejects_past_else_after iso_ms "x" 4999 ping_action heap_up)).
    reflexivity.
  - apply (proj2 (at_rejects_past_else_after iso_ms "x" 5000 ping_action heap_up)).
    discriminate.
Defined.

(** ** Scheduling and firing *)

Lemma addDelayed_ready (name : string) (delay : Z) (fn : JobFn) (h : Heap) (q : Queue) :
  Scheduler.ready_queue (scheduler h) = Some q ->
  Scheduler.addDelayed name delay fn h
    = let jq := Queue_.add name (opts_delay delay)
                  (Some (delayed_job_id name (clock h))) q in
      let id := default name (job_id jq.1) in
      (Ok id,
       put_scheduler
         (Scheduler.with_queue (scheduler h) jq.2
            (<[id := SchedulerJob.mk id name SchedulerJob.delayed]> (jobs (scheduler h)))
            (<[name := fn]> (handlers (scheduler h)))) h).
Proof.
  intros Hq. unfold Scheduler.addDelayed, delayed_job_id. run_monad. rewrite Hq.
  by destruct_queue_add.
Qed.

Lemma add_ready (name cron : string) (fn : JobFn) (h : Heap) (q : Queue) :
  Scheduler.ready_queue (scheduler h) = Some q ->
  exists js q',
    Scheduler.add name cron fn h
      = (Ok tt, put_scheduler
                  (Scheduler.with_queue (scheduler h) q' js
                     (<[name := fn]> (handlers (scheduler h)))) h).
Proof.
  intros Hq. unfold Scheduler.add. run_monad. rewrite Hq.
  try destruct_queue_add; eauto.
Qed.

Lemma after_unfold (toISO : Z -> option string) (label : string) (delayMs : Z)
    (action : TimerAction) (h : Heap) :
  TimerService.after toISO label delayMs action h
    = let id := entropy h (drawn h) in
      let entry := TimerEntry.mk id label action pending
                     (default "" (toISO (clock h + delayMs)))
                     (default "" (toISO (clock h))) in
      let r := Scheduler.addDelayed (timer_job_name id) delayMs
                 (after_closure id action) (put_entry id entry (drew h)) in
      match r.1 with
      | Ok _ => (Ok id, r.2)
      | Throw e => (Throw e, r.2)
      end.
Proof.
  unfold TimerService.after, TimerService.set_entry, bind. simpl.
  by destruct (Scheduler.addDelayed _ _ _ _) as [[?|?] ?].
Qed.

Lemma cron_unfold (toISO : Z -> option string) (label cronExpr : string)
    (action : TimerAction) (h : Heap) :
  TimerService.cron toISO label cronExpr action h
    = let id := entropy h (drawn h) in
      let entry := TimerEntry.mk id label action pending ("cron:" +:+ cronExpr)
                     (default "" (toISO (clock h))) in
      let r := Scheduler.add (timer_job_name id) cronExpr
                 (cron_closure id action) (put_entry id entry (drew h)) in
      match r.1 with
      | Ok _ => (Ok id, r.2)
      | Throw e => (Throw e, r.2)
      end.
Proof.
  unfold TimerService.cron, TimerService.set_entry, bind. simpl.
  by destruct (Scheduler.add _ _ _ _) as [[?|?] ?].
Qed.

Lemma after_registers (toISO : Z -> option string) (label : string) (delayMs : Z)
    (action : TimerAction) (h : Heap) :
  Scheduler.isReady (scheduler h) = true ->
  let id := entropy h (drawn h) in
  let r := TimerService.after toISO label delayMs action h in
  r.1 = Ok id /\
  handlers (scheduler r.2) !! timer_job_name id = Some (after_closure id action) /\
  entries (timer r.2) !! id
    = Some (TimerEntry.mk id label action pending
              (default "" (toISO (clock h + delayMs))) (default "" (toISO (clock h)))).
Proof.
  intros [q Hq]%isReady_true_queue. cbv zeta. rewrite after_unfold. cbv zeta.
  rewrite (addDelayed_ready _ _ _ _ q) by exact Hq. cbv zeta. cbn [fst snd].
  split; [done|]. split; simpl; by rewrite lookup_insert_eq.
Qed.

Lemma cron_registers (toISO : Z -> option string) (label cronExpr : string)
    (action : TimerAction) (h : Heap) :
  Scheduler.isReady (scheduler h) = true ->
  let id := entropy h (drawn h) in
  let r := TimerService.cron toISO label cronExpr action h in
  r.1 = Ok id /\
  handlers (scheduler r.2) !! timer_job_name id = Some (cron_closure id action) /\
  entries (timer r.2) !! id
    = Some (TimerEntry.mk id label action pending ("cron:" +:+ cronExpr)
              (default "" (toISO (clock h)))).
Proof.
  intros [q Hq]%isReady_true_queue. cbv zeta. rewrite cron_unfold. cbv zeta.
  destruct (add_ready (timer_job_name (entropy h (drawn h))) cronExpr
              (cron_closure (entropy h (drawn h)) action)
              (put_entry (entropy h (drawn h))
                 (TimerEntry.mk (entropy h (drawn h)) label action pending
                    ("cron:" +:+ cronExpr) (default "" (toISO (clock h))))
                 (drew h)) q Hq) as (js & q' & ->).
  cbn [fst snd]. split; [done|]. split; simpl; by rewrite lookup_insert_eq.
Qed.

(** The processor runs the closure registered under the name of the job. *)
Lemma process_registered (job : BullJob) (fn : JobFn) (h : Heap) :
  handlers (scheduler h) !! job_name job = Some fn ->
  Worker_.process job h = JobFn_call fn h.
Proof. intros Hh. unfold Worker_.process. run_monad. by rewrite Hh. Qed.

(** ** Status transitions *)

Lemma with_status_same (e : TimerEntry.t) (st : TimerStatus) :
  same_but_status e (TimerEntry.with_status e st).
Proof. by repeat split. Qed.

Lemma same_but_status_refl (e : TimerEntry.t) : same_but_status e e.
Proof. by repeat split. Qed.

Lemma same_but_status_trans (e1 e2 e3 : TimerEntry.t) :
  same_but_status e1 e2 -> same_but_status e2 e3 -> same_but_status e1 e3.
Proof. unfold same_but_status. intuition congruence. Qed.

Lemma only_status_changed_same (id : string) (h h' : Heap) :
  timer h' = timer h -> only_status_changed id h h'.
Proof.
  intros Ht j. rewrite Ht. destruct (entries (timer h) !! j); [|done].
  split; [apply same_but_status_refl|done].
Qed.

Lemma only_status_changed_trans (id : string) (h1 h2 h3 : Heap) :
  only_status_changed id h1 h2 -> only_status_changed id h2 h3 ->
  only_status_changed id h1 h3.
Proof.
  intros H12 H23 j. specialize (H12 j). specialize (H23 j).
  destruct (entries (timer h1) !! j) as [e1|], (entries (timer h2) !! j) as [e2|],
    (entries (timer h3) !! j) as [e3|]; try done.
  destruct H12 as [Hs12 He12], H23 as [Hs23 He23].
  split; [by eapply same_but_status_trans|].
  intros Hne. by rewrite (He23 Hne), (He12 Hne).
Qed.

Lemma markStatus_only_status (id : string) (st : TimerStatus) (h : Heap) :
  (TimerService.markStatus id st h).1 = Ok tt /\
  only_status_changed id h (TimerService.markStatus id st h).2.
Proof.
  destruct (entries (timer h) !! id) as [e|] eqn:He.
  - rewrite (markStatus_found _ _ _ _ He). split; [done|]. intros j. simpl.
    destruct (decide (j = id)) as [->|Hne].
    + rewrite He, lookup_insert_eq. split; [apply with_status_same|done].
    + rewrite lookup_insert_ne by done.
      destruct (entries (timer h) !! j); [|done].
      split; [apply same_but_status_refl|done].
  - rewrite (markStatus_missing _ _ _ He). split; [done|].
    by apply only_status_changed_same.
Qed.

Lemma after_closure_unfold (id : string) (action : TimerAction) (h : Heap) :
  JobFn_call (after_closure id action) h
    = TimerService.dispatch action (TimerService.markStatus id fired h).2.
Proof.
  cbn [JobFn_call]. unfold bind.
  destruct (markStatus_only_status id fired h) as [Hok _].
  destruct (TimerService.markStatus id fired h) as [[[]|e] h1]; [done|discriminate].
Qed.

Lemma cron_closure_steps (id : string) (action : TimerAction) (h : Heap) :
  JobFn_call (cron_closure id action) h
    = match TimerService.dispatch action (TimerService.markStatus id fired h).2 with
      | (Ok _, h2) => TimerService.markStatus id pending h2
      | (Throw e, h2) => (Throw e, h2)
      end.
Proof.
  cbn [JobFn_call]. unfold bind.
  destruct (markStatus_only_status id fired h) as [Hok _].
  destruct (TimerService.markStatus id fired h) as [[[]|e] h1]; [done|discriminate].
Qed.

Lemma dispatch_only_status (id : string) (action : TimerAction) (h : Heap) :
  only_status_changed id h (TimerService.dispatch action h).2.
Proof. apply only_status_changed_same, dispatch_frame. Qed.

Lemma after_closure_only_status (id : string) (action : TimerAction) (h : Heap) :
  only_status_changed id h (JobFn_call (after_closure id action) h).2.
Proof.
  rewrite after_closure_unfold.
  eapply only_status_changed_trans; [apply markStatus_only_status|].
  apply dispatch_only_status.
Qed.

Lemma cron_closure_only_status (id : string) (action : TimerAction) (h : Heap) :
  only_status_changed id h (JobFn_call (cron_closure id action) h).2.
Proof.
  rewrite cron_closure_steps.
  eapply only_status_changed_trans; [apply (markStatus_only_status id fired)|].
  pose proof (dispatch_only_status id action (TimerService.markStatus id fired h).2) as Hd.
  destruct (TimerService.dispatch action _) as [[[]|e] h2]; [|done].
  eapply only_status_changed_trans; [exact Hd|]. apply markStatus_only_status.
Qed.

Lemma remove_timer_frame (jobId : string) (h : Heap) :
  timer (Scheduler.remove jobId h).2 = timer h /\
  trace (Scheduler.remove jobId h).2 = trace h /\
  events (Scheduler.remove jobId h).2 = events h.
Proof.
  destruct (Scheduler.ready_queue (scheduler h)) as [q|] eqn:Hq.
  - by rewrite (remove_ready _ _ _ Hq).
  - unfold Scheduler.remove. run_monad. by rewrite Hq.
Qed.

Lemma cancel_unfold (timerId : string) (h : Heap) :
  TimerService.cancel timerId h
    = match entries (timer h) !! timerId with
      | None => (Throw (TimerNotFound timerId), h)
      | Some _ =>
          TimerService.markStatus timerId cancelled
            (Scheduler.remove (timer_job_name timerId) h).2
      end.
Proof.
  unfold TimerService.cancel, bind, get_heap, timer_job_name.
  destruct (entries (timer h) !! timerId); [|done].
  pose proof (remove_always_ok ("timer:" +:+ timerId) h) as Hok.
  destruct (Scheduler.remove _ h) as [[[]|e] h1]; [done|discriminate].
Qed.

Lemma cancel_only_status (timerId : string) (h : Heap) :
  only_status_changed timerId h (TimerService.cancel timerId h).2.
Proof.
  rewrite cancel_unfold.
  destruct (entries (timer h) !! timerId) eqn:He;
    [|by apply only_status_changed_same].
  eapply only_status_changed_trans; [|apply markStatus_only_status].
  apply only_status_changed_same, remove_timer_frame.
Qed.

(** C9.  The closure that [after], [at] and [cron] register under the name
    of the timer holds the action they were given; the worker, finding it,
    sets the status and dispatches exactly that action.  The entry created
    holds the same action.  Marking a status, firing a one-shot timer,
    firing a cron timer and cancelling change, in every entry of the timer
    service, nothing but the status of the entry concerned: id, label,
    action, fireAt and createdAt stay, the other entries stay, and no entry
    appears or disappears. *)
Theorem action_carried_status_only_changes
    (toISO : Z -> option string) (label cronExpr : string) (delayMs dt : Z)
    (action : TimerAction) (h : Heap) :
  let id := entropy h (drawn h) in
  (Scheduler.isReady (scheduler h) = true ->
     handlers (scheduler (TimerService.after toISO label delayMs action h).2)
       !! timer_job_name id = Some (after_closure id action) /\
     TimerEntry.action <$>
       entries (timer (TimerService.after toISO label delayMs action h).2) !! id
       = Some action /\
     handlers (scheduler (TimerService.cron toISO label cronExpr action h).2)
       !! timer_job_name id = Some (cron_closure id action) /\
     TimerEntry.action <$>
       entries (timer (TimerService.cron toISO label cronExpr action h).2) !! id
       = Some action /\
     (0 <= dt - clock h ->
        handlers (scheduler (TimerService.at_ toISO label dt action h).2)
          !! timer_job_name id = Some (after_closure id action))) /\
  (forall job h',
     handlers (scheduler h') !! job_name job = Some (after_closure id action) ->
     Worker_.process job h'
       = TimerService.dispatch action (TimerService.markStatus id fired h').2) /\
  (forall job h',
     handlers (scheduler h') !! job_name job = Some (cron_closure id action) ->
     Worker_.process job h'
       = match TimerService.dispatch action (TimerService.markStatus id fired h').2 with
         | (Ok _, h2) => TimerService.markStatus id pending h2
         | (Throw e, h2) => (Throw e, h2)
         end) /\
  (forall id' st h', only_status_changed id' h' (TimerService.markStatus id' st h').2) /\
  (forall id' a h', only_status_changed id' h' (JobFn_call (after_closure id' a) h').2) /\
  (forall id' a h', only_status_changed id' h' (JobFn_call (cron_closure id' a) h').2) /\
  (forall id' h', only_status_changed id' h' (TimerService.cancel id' h').2).
Proof.
  cbv zeta. split.
  { intros Hr.
    destruct (after_registers toISO label delayMs action h Hr) as (_ & Hh & He).
    destruct (cron_registers toISO label cronExpr action h Hr) as (_ & Hh' & He').
    split; [exact Hh|]. split; [by rewrite He|].
    split; [exact Hh'|]. split; [by rewrite He'|].
    intros Hd. rewrite at_unfold. apply Z.ltb_ge in Hd as ->.
    by destruct (after_registers toISO label (dt - clock h) action h Hr) as (_ & ? & _). }
  split.
  { intros job h' Hh. by rewrite (process_registered _ _ _ Hh), after_closure_unfold. }
  split.
  { intros job h' Hh. by rewrite (process_registered _ _ _ Hh), cron_closure_steps. }
  split; [intros; apply markStatus_only_status|].
  split; [intros; apply after_closure_only_status|].
  split; [intros; apply cron_closure_only_status|].
  intros; apply cancel_only_status.
Qed.

Lemma action_carried_status_only_changes_witness :
  handlers (scheduler heap_after) !! "timer:uuid-0"
    = Some (after_closure "uuid-0" ping_action) /\
  Worker_.process (mkBullJob (Some "timer:uuid-0-5000") "timer:uuid-0" (opts_delay 1000))
                  heap_after
    = TimerService.dispatch ping_action
        (TimerService.markStatus "uuid-0" fired heap_after).2 /\
  handlers (scheduler (TimerService.at_ iso_ms "x" 5001 ping_action heap_listening).2)
    !! "timer:uuid-0" = Some (after_closure "uuid-0" ping_action).
Proof.
  destruct (action_carried_status_only_changes iso_ms "x" "* * * * *" 1000 5001
              ping_action heap_listening) as (Hreg & Hrun & _).
  destruct (Hreg eq_refl) as (Hafter & _ & _ & _ & Hat).
  split; [exact Hafter|]. split.
  - apply Hrun. reflexivity.
  - apply Hat. discriminate.
Defined.

(** ** Cancelling a one-shot timer *)

Lemma name_is_not_job_id (name : string) (now : Z) :
  name <> delayed_job_id name now.
Proof.
  unfold delayed_job_id. induction name as [|c name IH]; simpl; [done|].
  intros Heq. injection Heq as Heq. by apply IH.
Qed.

Lemma deliver_delayed (jobId : string) (h : Heap) (q : Queue) (w : Worker)
    (job : BullJob) (d : Z) :
  queue (scheduler h) = Some q ->
  worker (scheduler h) = Some w ->
  held q !! jobId = Some job ->
  job_opts job = opts_delay d ->
  Worker_.deliver jobId h
    = settle_job (job_name job)
        (Worker_.process job
           (put_scheduler
              (Scheduler.with_queue (scheduler h) (Queue_.remove_job job q)
                 (jobs (scheduler h)) (handlers (scheduler h))) h)).
Proof.
  intros Hq Hw Hj Ho. unfold Worker_.deliver, bind, get_heap.
  rewrite Hq, Hw, Hj, Ho. unfold set_scheduler, settle_job, put_scheduler.
  by destruct (Worker_.process job _) as [[[]|e] h'].
Qed.

(** What [after] leaves on a ready scheduler whose queue does not yet hold
    the id of the new job. *)
Lemma after_ready (toISO : Z -> option string) (label : string) (delayMs : Z)
    (action : TimerAction) (h : Heap) (q : Queue) :
  Scheduler.ready_queue (scheduler h) = Some q ->
  let id := entropy h (drawn h) in
  let name := timer_job_name id in
  let jobId := delayed_job_id name (clock h) in
  let job := mkBullJob (Some jobId) name (opts_delay delayMs) in
  let entry := TimerEntry.mk id label action pending
                 (default "" (toISO (clock h + delayMs)))
                 (default "" (toISO (clock h))) in
  held q !! jobId = None ->
  TimerService.after toISO label delayMs action h
    = (Ok id,
       put_scheduler
         (Scheduler.with_queue (scheduler h)
            (mkQueue (<[jobId := job]> (held q)) (next_seq q))
            (<[jobId := SchedulerJob.mk jobId name SchedulerJob.delayed]>
               (jobs (scheduler h)))
            (<[name := after_closure id action]> (handlers (scheduler h))))
         (put_entry id entry (drew h))).
Proof.
  intros Hq id name jobId job entry Hfresh.
  rewrite after_unfold. cbv zeta.
  rewrite (addDelayed_ready _ _ _ _ q) by exact Hq. cbv zeta.
  unfold Queue_.add. cbn [clock put_entry drew].
  fold id. fold name. fold jobId. rewrite Hfresh. reflexivity.
Qed.

(** C1: what the code does.  On a ready scheduler, [after] followed at once
    by [cancel] of the id it returned: [cancel] returns normally and the
    entry is [cancelled], but the job, which the queue holds under the id
    [timer:<id>-<now>], is still held, and its handler is still registered,
    because [cancel] asked the queue for the id [timer:<id>].  When the
    broker then delivers the job, the action is dispatched and the entry
    becomes [fired]. *)
Theorem cancel_leaves_job_to_fire
    (toISO : Z -> option string) (label : string) (delayMs : Z)
    (action : TimerAction) (h : Heap) (q : Queue) (w : Worker) :
  Scheduler.ready_queue (scheduler h) = Some q ->
  worker (scheduler h) = Some w ->
  let id := entropy h (drawn h) in
  let name := timer_job_name id in
  let jobId := delayed_job_id name (clock h) in
  held q !! jobId = None ->
  held q !! name = None ->
  let h1 := (TimerService.after toISO label delayMs action h).2 in
  let h2 := (TimerService.cancel id h1).2 in
  (TimerService.after toISO label delayMs action h).1 = Ok id /\
  (TimerService.cancel id h1).1 = Ok tt /\
  status_of id h2 = Some cancelled /\
  (exists q2, queue (scheduler h2) = Some q2 /\
              held q2 !! jobId = Some (mkBullJob (Some jobId) name (opts_delay delayMs))) /\
  handlers (scheduler h2) !! name = Some (after_closure id action) /\
  exists h3,
    status_of id h3 = Some fired /\
    trace h3 = trace h /\
    Worker_.deliver jobId h2 = settle_job name (TimerService.dispatch action h3) /\
    status_of id (Worker_.deliver jobId h2).2 = Some fired.
Proof.
  intros Hq Hw id name jobId Hfresh Hname h1 h2.
  destruct (ready_queue_Some _ _ Hq) as (Hqs & Hr & _).
  pose proof (after_ready toISO label delayMs action h q Hq Hfresh) as Hafter.
  fold id name jobId in Hafter.
  set (job := mkBullJob (Some jobId) name (opts_delay delayMs)) in *.
  set (entry := TimerEntry.mk id label action pending _ _) in Hafter.
  assert (Hne : name <> jobId) by apply name_is_not_job_id.
  subst h2 h1. rewrite Hafter. cbn [fst snd].
  set (h1 := put_scheduler _ _).
  set (q1 := mkQueue (<[jobId := job]> (held q)) (next_seq q)).
  assert (Hq1 : Scheduler.ready_queue (scheduler h1) = Some q1).
  { subst h1. cbn [scheduler put_scheduler]. by apply ready_queue_with_queue. }
  assert (He1 : entries (timer h1) !! id = Some entry).
  { subst h1. simpl. by rewrite lookup_insert_eq. }
  assert (Hrm : Scheduler.remove name h1
                = (Ok tt, forget_job name h1)).
  { apply (remove_not_held _ _ q1 Hq1). subst q1. simpl.
    by rewrite lookup_insert_ne. }
  rewrite cancel_unfold. change (timer_job_name id) with name.
  rewrite He1, Hrm. cbn [fst snd].
  assert (He2 : entries (timer (forget_job name h1)) !! id = Some entry) by exact He1.
  rewrite (markStatus_found _ _ _ _ He2). cbn [fst snd].
  set (h2 := put_entry id (TimerEntry.with_status entry cancelled) (forget_job name h1)).
  assert (Hh2 : handlers (scheduler h2) !! name = Some (after_closure id action)).
  { subst h2 h1. simpl. by rewrite lookup_insert_eq. }
  assert (Hq2 : queue (scheduler h2) = Some q1) by reflexivity.
  assert (Hj2 : held q1 !! jobId = Some job).
  { subst q1. simpl. by rewrite lookup_insert_eq. }
  split; [done|]. split; [done|]. split.
  { unfold status_of. subst h2. simpl. by rewrite lookup_insert_eq. }
  split; [by exists q1|]. split; [exact Hh2|].
  rewrite (deliver_delayed jobId h2 q1 w job delayMs Hq2 Hw Hj2 eq_refl).
  set (h2' := put_scheduler _ h2).
  assert (Hh2' : handlers (scheduler h2') !! job_name job = Some (after_closure id action))
    by exact Hh2.
  rewrite (process_registered _ _ _ Hh2'), after_closure_unfold.
  assert (He2' : entries (timer h2') !! id
                 = Some (TimerEntry.with_status entry cancelled)).
  { subst h2' h2. simpl. by rewrite lookup_insert_eq. }
  rewrite (markStatus_found _ _ _ _ He2'). cbn [fst snd].
  set (h3 := put_entry id _ h2').
  assert (Hs3 : status_of id h3 = Some fired).
  { unfold status_of. subst h3. simpl. by rewrite lookup_insert_eq. }
  exists h3. split; [exact Hs3|]. split; [reflexivity|]. split; [reflexivity|].
  destruct (dispatch_frame action h3) as [Ht _].
  unfold status_of in *. unfold settle_job.
  destruct (TimerService.dispatch action h3) as [[[]|e] h4];
    cbn [fst snd traced timer] in *; by rewrite Ht.
Qed.

Lemma cancel_leaves_job_to_fire_witness :
  (TimerService.cancel "uuid-0" heap_after).1 = Ok tt /\
  status_of "uuid-0" heap_cancelled = Some cancelled /\
  status_of "uuid-0" (Worker_.deliver "timer:uuid-0-5000" heap_cancelled).2
    = Some fired.
Proof.
  destruct (cancel_leaves_job_to_fire iso_ms "x" 1000 ping_action heap_listening
              (mkQueue ∅ 0) mkWorker eq_refl eq_refl eq_refl eq_refl)
    as (_ & Hok & Hcancelled & _ & _ & h3 & _ & _ & _ & Hfired).
  exact (conj Hok (conj Hcancelled Hfired)).
Defined.

(** The same run, observed from outside: 1000 ms after [after] and [cancel]
    the broker delivers the job, and the listener of [ping] is called with
    the payload of the cancelled timer. *)
Example cancelled_timer_still_dispatches :
  trace heap_cancelled = [Console (log_connected "localhost" 6379)] /\
  Worker_.deliver "timer:uuid-0-5000" (advance 1000 heap_cancelled)
    = (Ok tt,
       traced [ListenerCall "ping" (fn_id quiet) (JsObj [("n", JsNum 1)])]
              (put_entry "uuid-0"
                 (TimerEntry.mk "uuid-0" "x" ping_action fired "6000" "5000")
                 (put_scheduler
                    (Scheduler.with_queue (scheduler heap_cancelled) (mkQueue ∅ 0)
                       (jobs (scheduler heap_cancelled))
                       (handlers (scheduler heap_cancelled)))
                    (advance 1000 heap_cancelled)))).
Proof. split; vm_compute; reflexivity. Qed.

(** ** Cron timers *)

Lemma add_frame (name cron : string) (fn : JobFn) (h : Heap) :
  (Scheduler.add name cron fn h).1 = Ok tt /\
  timer (Scheduler.add name cron fn h).2 = timer h.
Proof.
  destruct (Scheduler.ready_queue (scheduler h)) as [q|] eqn:Hq.
  - by destruct (add_ready name cron fn h q Hq) as (js & q' & ->).
  - unfold Scheduler.add. run_monad. by rewrite Hq.
Qed.

Lemma cron_creates_pending (toISO : Z -> option string) (label cronExpr : string)
    (action : TimerAction) (h : Heap) :
  (TimerService.cron toISO label cronExpr action h).1 = Ok (entropy h (drawn h)) /\
  status_of (entropy h (drawn h)) (TimerService.cron toISO label cronExpr action h).2
    = Some pending.
Proof.
  rewrite cron_unfold. cbv zeta.
  match goal with |- context [Scheduler.add ?n ?c ?f ?h1] =>
    destruct (add_frame n c f h1) as [Hok Ht];
    destruct (Scheduler.add n c f h1) as [[[]|e] h2]; [|discriminate]
  end.
  cbn [fst snd] in *. split; [done|].
  unfold status_of. rewrite Ht. simpl. by rewrite lookup_insert_eq.
Qed.

(** The claim C5 fails where the dispatch throws.  The store is down; the
    cron timer [uuid-0] is pending; the broker delivers its job; [send]
    fails to write the row, the closure ends there, and the entry is left
    [fired]. *)
Lemma cron_fire_with_failing_dispatch_stays_fired :
  status_of "uuid-0" heap_cron_store_down = Some pending /\
  handlers (scheduler heap_cron_store_down) !! "timer:uuid-0"
    = Some (cron_closure "uuid-0" (notify_action hi_u1)) /\
  (JobFn_call (cron_closure "uuid-0" (notify_action hi_u1)) heap_cron_store_down).1
    = Throw (External "database unreachable") /\
  status_of "uuid-0"
    (JobFn_call (cron_closure "uuid-0" (notify_action hi_u1)) heap_cron_store_down).2
    = Some fired /\
  status_of "uuid-0" (Worker_.deliver "repeat:0" heap_cron_store_down).2 = Some fired.
Proof. repeat split; vm_compute; reflexivity. Qed.

(** C5, amended.  [cron] creates the entry [pending] and, on a ready
    scheduler, registers its closure under the name of the timer.  A fire of
    that closure sets the entry to [fired] and dispatches the action; when
    the dispatch returns normally the entry is set back to [pending] and is
    otherwise the entry of before; when the dispatch throws, the fire ends
    with that exception and the entry stays [fired]. *)
Theorem cron_fire_returns_to_pending
    (toISO : Z -> option string) (label cronExpr : string) (action : TimerAction)
    (h0 : Heap) :
  let id := entropy h0 (drawn h0) in
  (TimerService.cron toISO label cronExpr action h0).1 = Ok id /\
  status_of id (TimerService.cron toISO label cronExpr action h0).2 = Some pending /\
  (Scheduler.isReady (scheduler h0) = true ->
     handlers (scheduler (TimerService.cron toISO label cronExpr action h0).2)
       !! timer_job_name id = Some (cron_closure id action)) /\
  (forall h h' e,
     entries (timer h) !! id = Some e ->
     JobFn_call (cron_closure id action) h = (Ok tt, h') ->
     entries (timer h') !! id = Some (TimerEntry.with_status e pending) /\
     status_of id h' = Some pending /\
     status_of id h' <> Some fired) /\
  (forall h h' e err,
     entries (timer h) !! id = Some e ->
     JobFn_call (cron_closure id action) h = (Throw err, h') ->
     (TimerService.dispatch action (put_entry id (TimerEntry.with_status e fired) h)).1
       = Throw err /\
     status_of id h' = Some fired).
Proof.
  cbv zeta.
  destruct (cron_creates_pending toISO label cronExpr action h0) as [Hok Hp].
  split; [exact Hok|]. split; [exact Hp|]. split.
  { intros Hr. by destruct (cron_registers toISO label cronExpr action h0 Hr) as (_ & ? & _). }
  split.
  { intros h h' e He Hrun.
    destruct (cron_fire_ok_pending _ _ _ _ _ He Hrun) as (? & ? & ? & _). done. }
  intros h h' e err He Hrun.
  split; [|by eapply cron_fire_failed_stays_fired].
  rewrite (cron_closure_unfold _ _ _ _ He) in Hrun. cbv zeta in Hrun.
  destruct (TimerService.dispatch action _) as [[[]|err'] h2]; [discriminate|].
  cbn [fst snd] in *. by injection Hrun as -> _.
Qed.

Lemma cron_fire_returns_to_pending_witness :
  status_of "uuid-0" heap_cron = Some pending /\
  status_of "uuid-0" (JobFn_call (cron_closure "uuid-0" ping_action) heap_cron).2
    = Some pending /\
  status_of "uuid-0"
    (JobFn_call (cron_closure "uuid-0" (notify_action hi_u1)) heap_cron_store_down).2
    = Some fired.
Proof.
  destruct (cron_fire_returns_to_pending iso_ms "tick" "* * * * *" ping_action heap_up)
    as (_ & Hp & _ & Hfire & _).
  destruct (cron_fire_returns_to_pending iso_ms "digest" "0 9 * * *"
              (notify_action hi_u1) heap_store_down) as (_ & _ & _ & _ & Hfail).
  split; [exact Hp|]. split.
  - refine (proj1 (proj2 (Hfire heap_cron _
              (TimerEntry.mk "uuid-0" "tick" ping_action pending "cron:* * * * *" "5000")
              _ _))); reflexivity.
  - refine (proj2 (Hfail heap_cron_store_down _
              (TimerEntry.mk "uuid-0" "digest" (notify_action hi_u1) pending
                 "cron:0 9 * * *" "5000")
              (External "database unreachable") _ _)); reflexivity.
Defined.

(** ** The scenarios of the specification, run *)

(** A listener registered with [once] is called by the first emission and
    not by the second. *)
Example once_listener_is_called_once :
  trace (EventBus.emit "ping" JsNull
           (EventBus.emit "ping" JsNull (EventBus.once "ping" quiet heap_up).2).2).2
    = [Console (log_connected "localhost" 6379);
       ListenerCall "ping" (fn_id quiet) JsNull].
Proof. reflexivity. Qed.

(** The emitter's own events.  With a listener of ['newListener'] that
    throws, [on] throws and adds nothing. *)
Example on_throws_when_newListener_listener_throws :
  let h := (EventBus.on "newListener" loud heap_up).2 in
  (EventBus.on "tick" quiet h).1 = Throw (External "boom") /\
  listeners_of_heap "tick" (EventBus.on "tick" quiet h).2 = [] /\
  listener_calls (EventBus.on "tick" quiet h).2
    = [ListenerTold "newListener" (fn_id loud) "tick" (fn_id quiet)].
Proof. repeat split; reflexivity. Qed.

(** A [once] listener of ['newListener'] is called, and gone, when the next
    listener is added; [off] of that listener does not bring it back. *)
Example once_newListener_is_used_up :
  let h := (EventBus.once "newListener" quiet heap_up).2 in
  let h' := (EventBus.off "tick" loud (EventBus.on "tick" loud h).2).2 in
  map (fun l => fn_id (l_fn l)) (listeners_of_heap "newListener" h) = [fn_id quiet] /\
  listeners_of_heap "newListener" h' = [] /\
  listeners_of_heap "tick" h' = [] /\
  listener_calls h' = [ListenerTold "newListener" (fn_id quiet) "tick" (fn_id loud)].
Proof. repeat split; reflexivity. Qed.

(** A [once] listener removes itself before its function is called, and the
    listeners of ['removeListener'] are called at that point: when one of
    them throws, the emission ends there and the function is never called,
    though it is no longer registered. *)
Example once_listener_lost_to_removeListener :
  let h := (EventBus.on "removeListener" loud (EventBus.once "tick" quiet heap_up).2).2 in
  (EventBus.emit "tick" JsNull h).1 = Throw (External "boom") /\
  listeners_of_heap "tick" (EventBus.emit "tick" JsNull h).2 = [] /\
  listener_calls (EventBus.emit "tick" JsNull h).2
    = [ListenerTold "removeListener" (fn_id loud) "tick" (fn_id quiet)].
Proof. repeat split; reflexivity. Qed.

(** Two [once] listeners of ['removeListener'] itself: the first, when it
    removes itself, sets off an emission in which the second runs; back in
    the outer emission the second has run already and is not called again. *)
Example once_wrapper_runs_once :
  let h := (EventBus.once "removeListener" quiet
              (EventBus.once "removeListener" quiet heap_up).2).2 in
  (EventBus.emit "removeListener" JsNull h).1 = Ok tt /\
  listeners_of_heap "removeListener" (EventBus.emit "removeListener" JsNull h).2 = [] /\
  listener_calls (EventBus.emit "removeListener" JsNull h).2
    = [ListenerTold "removeListener" (fn_id quiet) "removeListener" (fn_id quiet);
       ListenerCall "removeListener" (fn_id quiet) JsNull].
Proof. repeat split; reflexivity. Qed.

(** [after("welcome", 0, notify)]: the delivery of the job writes one row
    for [u1]; a delayed job is delivered once. *)
Example after_zero_persists_one_row :
  let h := (TimerService.after iso_ms "welcome" 0 (notify_action hi_u1) heap_up).2 in
  trace (Worker_.deliver "timer:uuid-0-5000"
           (Worker_.deliver "timer:uuid-0-5000" h).2).2
    = [Console (log_connected "localhost" 6379);
       DbNotificationCreate (row_of hi_u1)].
Proof. reflexivity. Qed.

(** [cancel] of an unknown id throws [TimerNotFound]; [after] on a scheduler
    that is not ready throws [SchedulerUnavailable]. *)
Example cancel_unknown_after_degraded :
  (TimerService.cancel "nope" heap_up).1 = Throw (TimerNotFound "nope") /\
  (TimerService.after iso_ms "x" 10 ping_action heap_down).1
    = Throw SchedulerUnavailable.
Proof. split; reflexivity. Qed.

(** * Further properties of the code *)

(** ** EventBus.on, once, off *)

Lemma remove_last_snoc {A} (p : A -> bool) (l : list A) (x : A) :
  p x = true -> EventBus.remove_last p (l ++ [x]) = l.
Proof.
  intros Hp. unfold EventBus.remove_last.
  rewrite rev_app_distr. simpl. rewrite Hp. apply rev_involutive.
Qed.

(** [on] and [once], when the listeners of ['newListener'] were added by
    [on]: they are called in turn; when one throws nothing is added. *)
Lemma addListener_run (event : string) (handler : EventHandler) (once_ : bool)
    (h : Heap) :
  Forall plain (listeners_of_heap "newListener" h) ->
  let a := args_listener event (fn_id handler) in
  let nl := listeners_of_heap "newListener" h in
  let h1 := traced (map (fun l => EventBus.call_effect "newListener" l a)
                        (reached a nl)) h in
  EventBus.addListener event handler once_ h
    = match first_throw a nl with
      | Some e => (Throw e, h1)
      | None =>
          (Ok tt,
           (set_events
              (EventBus.set_listeners event
                 (listeners_of_heap event h
                    ++ [mkListener (next_serial (emitter (events h))) handler once_])
                 (S (next_serial (emitter (events h)))) (events h)) h1).2)
      end.
Proof.
  intros Hp a nl h1. unfold EventBus.addListener.
  unfold bind at 1. cbn [get_heap]. unfold bind at 1.
  fold (listeners_of_heap "newListener" h). fold nl.
  destruct nl as [|l0 nl0] eqn:Hnl.
  - subst h1. cbn [reached map first_throw]. by rewrite traced_nil.
  - unfold bind at 1. unfold EventBus.fuel_for.
    rewrite (emit__plain _ _ _ _ _ Hp). fold nl. rewrite Hnl. fold a. fold h1.
    cbn [fst snd]. by destruct (first_throw a (l0 :: nl0)).
Qed.

(** [off], when the listeners of ['removeListener'] were added by [on]: the
    last registration of the function is removed, then they are called. *)
Lemma off_run (event : string) (handler : EventHandler) (h : Heap) :
  let p := fun l : Listener => Nat.eqb (fn_id (l_fn l)) (fn_id handler) in
  let a := args_listener event (fn_id handler) in
  let h1 := (set_events
               (EventBus.set_listeners event
                  (EventBus.remove_last p (listeners_of_heap event h))
                  (next_serial (emitter (events h))) (events h)) h).2 in
  let rl := listeners_of_heap "removeListener" h1 in
  Forall plain rl ->
  EventBus.off event handler h
    = if existsb p (listeners_of_heap event h) then
        (match first_throw a rl with Some e => Throw e | None => Ok tt end,
         traced (map (fun l => EventBus.call_effect "removeListener" l a)
                     (reached a rl)) h1)
      else (Ok tt, h).
Proof.
  intros p a h1 rl Hp. unfold EventBus.off, bind at 1. cbn [get_heap].
  unfold bind. rewrite removeListener_run. fold p.
  destruct (existsb p (listeners_of_heap event h)); [|done].
  cbv zeta. fold h1. fold rl. destruct rl as [|l0 rl0] eqn:Hrl.
  - cbn [reached map first_throw]. by rewrite traced_nil.
  - unfold EventBus.fuel_for. rewrite emit__plain by (fold rl; by rewrite Hrl).
    fold rl. rewrite Hrl. fold a. by destruct (first_throw a (l0 :: rl0)).
Qed.

(** X1.  [off] undoes the last [on] or [once] of the same function.  On a
    bus where no listener of ['newListener'] or ['removeListener'] was added
    by [once]: when [on] or [once] returns, the listener is the last of its
    event, and after [off] of the same function every event has the listeners
    it had before, in the same order, whether the listeners of
    ['removeListener'] that [off] calls return or throw.  [on] or [once]
    throws exactly when a listener of ['newListener'] throws, and then
    nothing was added. *)
Theorem off_undoes_registration
    (event : string) (handler : EventHandler) (once_ : bool) (h : Heap) :
  Forall plain (listeners_of_heap "newListener" h) ->
  Forall plain (listeners_of_heap "removeListener" h) ->
  let r := EventBus.addListener event handler once_ h in
  (forall e, r.1 = Throw e <->
     first_throw (args_listener event (fn_id handler))
       (listeners_of_heap "newListener" h) = Some e) /\
  (forall e, r.1 = Throw e ->
     forall ev, listeners_of_heap ev r.2 = listeners_of_heap ev h) /\
  (r.1 = Ok tt ->
     listeners_of_heap event r.2
       = (listeners_of_heap event h
            ++ [mkListener (next_serial (emitter (events h))) handler once_])%list /\
     forall ev,
       listeners_of_heap ev (EventBus.off event handler r.2).2
         = listeners_of_heap ev h).
Proof.
  intros Hnl Hrl. cbv zeta. rewrite (addListener_run event handler once_ h Hnl).
  cbv zeta.
  destruct (first_throw _ (listeners_of_heap "newListener" h)) as [e|] eqn:Hft.
  - cbn [fst snd]. split; [|split; done].
    intros e'. split; [by intros [= <-] | by intros [= <-]].
  - cbn [fst snd]. split; [by intros e'; split|]. split; [done|]. intros _.
    set (h0 := traced _ h).
    set (new := mkListener (next_serial (emitter (events h))) handler once_).
    set (h1 := (set_events _ h0).2).
    assert (Hev : forall ev, listeners_of_heap ev h1
                    = if decide (event = ev)
                      then (listeners_of_heap event h ++ [new])%list
                      else listeners_of_heap ev h).
    { intros ev. unfold listeners_of_heap. subst h1. cbn [set_events snd events].
      by rewrite listeners_of_set. }
    split; [by rewrite Hev, decide_True|].
    set (p := fun l : Listener => Nat.eqb (fn_id (l_fn l)) (fn_id handler)).
    assert (Hback : forall ev,
              listeners_of_heap ev
                (set_events
                   (EventBus.set_listeners event
                      (EventBus.remove_last p (listeners_of_heap event h1))
                      (next_serial (emitter (events h1))) (events h1)) h1).2
                = listeners_of_heap ev h).
    { intros ev. unfold listeners_of_heap at 1. cbn [set_events snd events].
      rewrite listeners_of_set. destruct (decide (event = ev)) as [->|Hne].
      - rewrite Hev, decide_True by done.
        apply remove_last_snoc. subst p new. simpl. apply Nat.eqb_refl.
      - fold (listeners_of_heap ev h1). by rewrite Hev, decide_False. }
    assert (Hex : existsb p (listeners_of_heap event h1) = true).
    { rewrite Hev, decide_True by done. rewrite existsb_app.
      apply orb_true_iff. right. subst p new. cbn [existsb l_fn].
      by rewrite Nat.eqb_refl. }
    intros ev. rewrite off_run.
    + fold p. rewrite Hex. cbn [snd]. rewrite <- (Hback ev). done.
    + fold p. by rewrite Hback.
Qed.

Lemma off_undoes_registration_witness :
  (EventBus.once "tick" quiet heap_listening).1 = Ok tt /\
  listeners_of_heap "tick"
    (EventBus.off "tick" quiet (EventBus.once "tick" quiet heap_listening).2).2 = [] /\
  listeners_of_heap "ping"
    (EventBus.off "tick" quiet (EventBus.once "tick" quiet heap_listening).2).2
    = listeners_of_heap "ping" heap_listening.
Proof.
  destruct (off_undoes_registration "tick" quiet true heap_listening
              (List.Forall_nil _) (List.Forall_nil _)) as (_ & _ & Hok).
  destruct (Hok eq_refl) as [_ Hback].
  exact (conj eq_refl (conj (Hback "tick") (Hback "ping"))).
Defined.

(** ** TimerService.cancel, after and cron at the edges *)

Lemma remove_notify_frame (jobId : string) (h : Heap) :
  notify (Scheduler.remove jobId h).2 = notify h.
Proof.
  unfold Scheduler.remove. run_monad.
  by destruct (Scheduler.ready_queue (scheduler h)).
Qed.

(** X2.  [cancel] of an id the timer service does not know throws
    [TimerNotFound] and changes nothing.  [cancel] of a known id returns
    normally whatever the status of the timer was, fired or cancelled
    included, and leaves it [cancelled]; it writes nothing to the trace and
    leaves the bus and the notification service alone. *)
Theorem timer_cancel_known_or_not (timerId : string) (h : Heap) :
  (entries (timer h) !! timerId = None ->
     TimerService.cancel timerId h = (Throw (TimerNotFound timerId), h)) /\
  (forall e, entries (timer h) !! timerId = Some e ->
     (TimerService.cancel timerId h).1 = Ok tt /\
     entries (timer (TimerService.cancel timerId h).2) !! timerId
       = Some (TimerEntry.with_status e cancelled) /\
     trace (TimerService.cancel timerId h).2 = trace h /\
     events (TimerService.cancel timerId h).2 = events h /\
     notify (TimerService.cancel timerId h).2 = notify h).
Proof.
  rewrite cancel_unfold. split.
  - by intros ->.
  - intros e He. rewrite He.
    destruct (remove_timer_frame (timer_job_name timerId) h) as (Ht & Htr & Hev).
    pose proof (remove_notify_frame (timer_job_name timerId) h) as Hno.
    assert (He' : entries (timer (Scheduler.remove (timer_job_name timerId) h).2)
                    !! timerId = Some e) by by rewrite Ht.
    rewrite (markStatus_found _ _ _ _ He').
    cbn [fst snd put_entry timer trace events notify entries].
    rewrite lookup_insert_eq. by rewrite Htr, Hev, Hno.
Qed.

Lemma timer_cancel_known_or_not_witness :
  TimerService.cancel "nope" heap_after = (Throw (TimerNotFound "nope"), heap_after) /\
  (TimerService.cancel "uuid-0" heap_cancelled).1 = Ok tt.
Proof.
  split.
  - apply (proj1 (timer_cancel_known_or_not "nope" heap_after)). reflexivity.
  - refine (proj1 (proj2 (timer_cancel_known_or_not "uuid-0" heap_cancelled)
              (TimerEntry.mk "uuid-0" "x" ping_action cancelled "6000" "5000") _)).
    reflexivity.
Defined.

Lemma addDelayed_not_ready (name : string) (delay : Z) (fn : JobFn) (h : Heap) :
  Scheduler.isReady (scheduler h) = false ->
  Scheduler.addDelayed name delay fn h = (Throw RedisUnavailable, h).
Proof. intros Hr. by destruct (degraded_stays_put h name "" delay fn Hr). Qed.

Lemma add_not_ready (name cron : string) (fn : JobFn) (h : Heap) :
  Scheduler.isReady (scheduler h) = false ->
  Scheduler.add name cron fn h = (Ok tt, traced [Console warn_skip_add] h).
Proof. intros Hr. by destruct (degraded_stays_put h name cron 0 fn Hr). Qed.

Lemma after_not_ready_run (toISO : Z -> option string) (label : string)
    (delayMs : Z) (action : TimerAction) (h : Heap) :
  Scheduler.isReady (scheduler h) = false ->
  TimerService.after toISO label delayMs action h
    = (Throw SchedulerUnavailable,
       put_entry (entropy h (drawn h))
         (TimerEntry.mk (entropy h (drawn h)) label action pending
            (default "" (toISO (clock h + delayMs))) (default "" (toISO (clock h))))
         (drew h)).
Proof.
  intros Hr. rewrite after_unfold. cbv zeta.
  by rewrite addDelayed_not_ready by exact Hr.
Qed.

(** X3.  On a scheduler that is not ready [after] throws
    [SchedulerUnavailable], but only after it has drawn an id and stored the
    entry: the caller gets no id, and the timer service keeps a [pending]
    entry for a timer that was never scheduled.  No handler and no job are
    registered. *)
Theorem after_not_ready_leaves_entry
    (toISO : Z -> option string) (label : string) (delayMs : Z)
    (action : TimerAction) (h : Heap) :
  Scheduler.isReady (scheduler h) = false ->
  let id := entropy h (drawn h) in
  TimerService.after toISO label delayMs action h
    = (Throw SchedulerUnavailable,
       put_entry id
         (TimerEntry.mk id label action pending
            (default "" (toISO (clock h + delayMs))) (default "" (toISO (clock h))))
         (drew h)) /\
  status_of id (TimerService.after toISO label delayMs action h).2 = Some pending /\
  scheduler (TimerService.after toISO label delayMs action h).2 = scheduler h.
Proof.
  intros Hr id. rewrite after_unfold. cbv zeta.
  rewrite addDelayed_not_ready by exact Hr. cbn [fst snd]. fold id.
  split; [done|]. split; [|done].
  unfold status_of. simpl. by rewrite lookup_insert_eq.
Qed.

Lemma after_not_ready_leaves_entry_witness :
  (TimerService.after iso_ms "x" 1000 ping_action heap_down).1
    = Throw SchedulerUnavailable /\
  status_of "uuid-0" (TimerService.after iso_ms "x" 1000 ping_action heap_down).2
    = Some pending.
Proof.
  destruct (after_not_ready_leaves_entry iso_ms "x" 1000 ping_action heap_down eq_refl)
    as (Hrun & Hst & _).
  split; [by rewrite Hrun | exact Hst].
Defined.

(** X4.  On a scheduler that is not ready [cron] returns a timer id as if
    all were well: it stores a [pending] entry and the scheduler logs that
    it skipped the job, but no handler and no job are registered, so the
    timer can never fire. *)
Theorem cron_not_ready_returns_id
    (toISO : Z -> option string) (label cronExpr : string)
    (action : TimerAction) (h : Heap) :
  Scheduler.isReady (scheduler h) = false ->
  let id := entropy h (drawn h) in
  TimerService.cron toISO label cronExpr action h
    = (Ok id,
       traced [Console warn_skip_add]
         (put_entry id
            (TimerEntry.mk id label action pending ("cron:" +:+ cronExpr)
               (default "" (toISO (clock h))))
            (drew h))) /\
  scheduler (TimerService.cron toISO label cronExpr action h).2 = scheduler h.
Proof.
  intros Hr id. rewrite cron_unfold. cbv zeta.
  rewrite add_not_ready by exact Hr. cbn [fst snd]. fold id. done.
Qed.

Lemma cron_not_ready_returns_id_witness :
  (TimerService.cron iso_ms "tick" "* * * * *" ping_action heap_down).1 = Ok "uuid-0" /\
  handlers (scheduler (TimerService.cron iso_ms "tick" "* * * * *" ping_action
                         heap_down).2) = ∅.
Proof.
  destruct (cron_not_ready_returns_id iso_ms "tick" "* * * * *" ping_action heap_down
              eq_refl) as (Hrun & Hs).
  split; [by rewrite Hrun | by rewrite Hs].
Defined.

(** ** Adding a job and removing it by the id returned *)

Lemma add_ready_run (name cron : string) (fn : JobFn) (h : Heap) (q : Queue) :
  Scheduler.ready_queue (scheduler h) = Some q ->
  let j := next_broker_id q in
  Scheduler.add name cron fn h
    = (Ok tt,
       put_scheduler
         (Scheduler.with_queue (scheduler h)
            (mkQueue (<[j := mkBullJob (Some j) name (opts_repeat_pattern cron)]> (held q))
                     (next_seq q + 1)%N)
            (<[j := SchedulerJob.mk j name SchedulerJob.cron]> (jobs (scheduler h)))
            (<[name := fn]> (handlers (scheduler h)))) h).
Proof. intros Hq. unfold Scheduler.add. run_monad. by rewrite Hq. Qed.

Lemma addRepeating_ready_run (name : string) (every : Z) (fn : JobFn) (h : Heap)
    (q : Queue) :
  Scheduler.ready_queue (scheduler h) = Some q ->
  let j := next_broker_id q in
  Scheduler.addRepeating name every fn h
    = (Ok j,
       put_scheduler
         (Scheduler.with_queue (scheduler h)
            (mkQueue (<[j := mkBullJob (Some j) name (opts_repeat_every every)]> (held q))
                     (next_seq q + 1)%N)
            (<[j := SchedulerJob.mk j name SchedulerJob.repeating]> (jobs (scheduler h)))
            (<[name := fn]> (handlers (scheduler h)))) h).
Proof. intros Hq. unfold Scheduler.addRepeating. run_monad. by rewrite Hq. Qed.

Lemma addRepeating_not_ready (name : string) (every : Z) (fn : JobFn) (h : Heap) :
  Scheduler.isReady (scheduler h) = false ->
  Scheduler.addRepeating name every fn h = (Throw RedisUnavailable, h).
Proof.
  intros Hr%isReady_false_no_queue. unfold Scheduler.addRepeating. run_monad.
  by rewrite Hr.
Qed.

Lemma addDelayed_fresh_run (name : string) (delay : Z) (fn : JobFn) (h : Heap)
    (q : Queue) :
  Scheduler.ready_queue (scheduler h) = Some q ->
  let j := delayed_job_id name (clock h) in
  held q !! j = None ->
  Scheduler.addDelayed name delay fn h
    = (Ok j,
       put_scheduler
         (Scheduler.with_queue (scheduler h)
            (mkQueue (<[j := mkBullJob (Some j) name (opts_delay delay)]> (held q))
                     (next_seq q))
            (<[j := SchedulerJob.mk j name SchedulerJob.delayed]> (jobs (scheduler h)))
            (<[name := fn]> (handlers (scheduler h)))) h).
Proof.
  intros Hq j Hfresh. rewrite (addDelayed_ready _ _ _ _ q) by exact Hq. cbv zeta.
  unfold Queue_.add. fold j. by rewrite Hfresh.
Qed.

(** What [remove] leaves of a job that the queue holds under its own id. *)
Lemma remove_held_run (jobId : string) (h : Heap) (q : Queue) (job : BullJob) :
  Scheduler.ready_queue (scheduler h) = Some q ->
  held q !! jobId = Some job ->
  job_id job = Some jobId ->
  Scheduler.remove jobId h
    = (Ok tt,
       put_scheduler
         (Scheduler.with_queue (scheduler h)
            (mkQueue (delete jobId (held q)) (next_seq q))
            (delete jobId (jobs (scheduler h))) (handlers (scheduler h))) h).
Proof.
  intros Hq Hj Hid. rewrite (remove_ready _ _ _ Hq).
  unfold Queue_.getJob, Queue_.remove_job. by rewrite Hj, Hid.
Qed.

(** X6.  On a ready scheduler [addDelayed] returns the id [<name>-<now>]
    under which the queue then holds the job (when it held no job of that id
    before) and under which the scheduler keeps its bookkeeping; [remove] of
    that id takes the job out of the queue and the bookkeeping and touches no
    other job.  The handler stays registered under the name. *)
Theorem addDelayed_then_remove
    (name : string) (delay : Z) (fn : JobFn) (h : Heap) (q : Queue) :
  Scheduler.ready_queue (scheduler h) = Some q ->
  let jobId := delayed_job_id name (clock h) in
  held q !! jobId = None ->
  let h1 := (Scheduler.addDelayed name delay fn h).2 in
  let h2 := (Scheduler.remove jobId h1).2 in
  (Scheduler.addDelayed name delay fn h).1 = Ok jobId /\
  (exists q1, queue (scheduler h1) = Some q1 /\
     held q1 !! jobId = Some (mkBullJob (Some jobId) name (opts_delay delay))) /\
  jobs (scheduler h1) !! jobId
    = Some (SchedulerJob.mk jobId name SchedulerJob.delayed) /\
  queue (scheduler h2) = Some q /\
  jobs (scheduler h2) = delete jobId (jobs (scheduler h)) /\
  handlers (scheduler h2) !! name = Some fn.
Proof.
  intros Hq jobId Hfresh h1 h2.
  destruct (ready_queue_Some _ _ Hq) as (_ & Hr & _).
  pose proof (addDelayed_fresh_run name delay fn h q Hq Hfresh) as Hadd.
  fold jobId in Hadd. subst h2 h1. rewrite Hadd. cbn [fst snd].
  set (job := mkBullJob (Some jobId) name (opts_delay delay)).
  set (q1 := mkQueue (<[jobId := job]> (held q)) (next_seq q)).
  set (h1 := put_scheduler _ h).
  assert (Hq1 : Scheduler.ready_queue (scheduler h1) = Some q1)
    by (by apply ready_queue_with_queue).
  assert (Hj1 : held q1 !! jobId = Some job) by (simpl; by rewrite lookup_insert_eq).
  rewrite (remove_held_run jobId h1 q1 job Hq1 Hj1 eq_refl). cbn [snd].
  split; [done|]. split; [by exists q1|].
  split; [simpl; by rewrite lookup_insert_eq|].
  split.
  { simpl. rewrite delete_insert_id by done. by destruct q. }
  split; simpl; [by rewrite delete_insert_eq | by rewrite lookup_insert_eq].
Qed.

Lemma addDelayed_then_remove_witness :
  (Scheduler.addDelayed "job" 1000 (schedule_closure hi_u1) heap_up).1
    = Ok "job-5000" /\
  queue (scheduler (Scheduler.remove "job-5000"
                      (Scheduler.addDelayed "job" 1000 (schedule_closure hi_u1)
                         heap_up).2).2)
    = Some (mkQueue ∅ 0).
Proof.
  destruct (addDelayed_then_remove "job" 1000 (schedule_closure hi_u1) heap_up
              (mkQueue ∅ 0) eq_refl eq_refl) as (Hid & _ & _ & Hq & _).
  exact (conj Hid Hq).
Defined.

(** X7.  On a ready scheduler [addRepeating] returns the id the broker gave
    to the job; the queue holds the job under it and the scheduler keeps its
    bookkeeping under it.  [remove] of that id takes the job out of both, and
    leaves the other jobs of the queue and the handler as they are. *)
Theorem addRepeating_then_remove
    (name : string) (every : Z) (fn : JobFn) (h : Heap) (q : Queue) :
  Scheduler.ready_queue (scheduler h) = Some q ->
  let jobId := next_broker_id q in
  let h1 := (Scheduler.addRepeating name every fn h).2 in
  let h2 := (Scheduler.remove jobId h1).2 in
  (Scheduler.addRepeating name every fn h).1 = Ok jobId /\
  (exists q1, queue (scheduler h1) = Some q1 /\
     held q1 !! jobId = Some (mkBullJob (Some jobId) name (opts_repeat_every every))) /\
  jobs (scheduler h1) !! jobId
    = Some (SchedulerJob.mk jobId name SchedulerJob.repeating) /\
  (exists q2, queue (scheduler h2) = Some q2 /\
     held q2 = delete jobId (held q)) /\
  jobs (scheduler h2) = delete jobId (jobs (scheduler h)) /\
  handlers (scheduler h2) !! name = Some fn.
Proof.
  intros Hq jobId h1 h2.
  destruct (ready_queue_Some _ _ Hq) as (_ & Hr & _).
  pose proof (addRepeating_ready_run name every fn h q Hq) as Hadd.
  fold jobId in Hadd. subst h2 h1. rewrite Hadd. cbn [fst snd].
  set (job := mkBullJob (Some jobId) name (opts_repeat_every every)).
  set (q1 := mkQueue (<[jobId := job]> (held q)) (next_seq q + 1)%N).
  set (h1 := put_scheduler _ h).
  assert (Hq1 : Scheduler.ready_queue (scheduler h1) = Some q1)
    by (by apply ready_queue_with_queue).
  assert (Hj1 : held q1 !! jobId = Some job) by (simpl; by rewrite lookup_insert_eq).
  rewrite (remove_held_run jobId h1 q1 job Hq1 Hj1 eq_refl). cbn [snd].
  split; [done|]. split; [by exists q1|].
  split; [simpl; by rewrite lookup_insert_eq|].
  split.
  { eexists. split; [reflexivity|]. simpl. by rewrite delete_insert_eq. }
  split; simpl; [by rewrite delete_insert_eq | by rewrite lookup_insert_eq].
Qed.

Lemma addRepeating_then_remove_witness :
  (Scheduler.addRepeating "beat" 60000 (schedule_closure hi_u1) heap_up).1
    = Ok "repeat:0" /\
  jobs (scheduler (Scheduler.remove "repeat:0"
                     (Scheduler.addRepeating "beat" 60000 (schedule_closure hi_u1)
                        heap_up).2).2)
    = delete "repeat:0" (jobs (scheduler heap_up)).
Proof.
  destruct (addRepeating_then_remove "beat" 60000 (schedule_closure hi_u1) heap_up
              (mkQueue ∅ 0) eq_refl) as (Hid & _ & _ & _ & Hj & _).
  exact (conj Hid Hj).
Defined.

(** ** NotificationService.schedule *)

Lemma schedule_unfold (payload : NotifyPayload.t) (at_ : Z) (h : Heap) :
  NotificationService.schedule payload at_ h
    = if (at_ - clock h <=? 0)%Z then
        (match (NotificationService.send payload h).1 with
         | Ok _ => Ok "immediate"
         | Throw e => Throw e
         end, (NotificationService.send payload h).2)
      else
        Scheduler.addDelayed
          ("notify:" +:+ NotifyPayload.userId payload +:+ ":" +:+ pretty (clock h))
          (at_ - clock h) (schedule_closure payload) h.
Proof.
  unfold NotificationService.schedule, bind, Date_now. cbn [fst snd].
  destruct (at_ - clock h <=? 0)%Z; [|done].
  by destruct (NotificationService.send payload h) as [[[]|e] h'].
Qed.

(** X8.  [schedule] with a target at or before the clock is [send] at once
    and returns the id [immediate], whether the scheduler is ready or not;
    it throws what [send] throws.  [schedule] with a later target on a
    scheduler that is not ready throws [SchedulerUnavailable] and sends
    nothing. *)
Theorem schedule_now_or_unavailable (payload : NotifyPayload.t) (at_ : Z) (h : Heap) :
  (at_ - clock h <= 0 ->
     NotificationService.schedule payload at_ h
       = (match (NotificationService.send payload h).1 with
          | Ok _ => Ok "immediate"
          | Throw e => Throw e
          end, (NotificationService.send payload h).2)) /\
  (0 < at_ - clock h -> Scheduler.isReady (scheduler h) = false ->
     NotificationService.schedule payload at_ h = (Throw SchedulerUnavailable, h)).
Proof.
  rewrite schedule_unfold. split.
  - intros Hd. by apply Z.leb_le in Hd as ->.
  - intros Hd Hr. apply Z.leb_gt in Hd as ->. by apply addDelayed_not_ready.
Qed.

Lemma schedule_now_or_unavailable_witness :
  (NotificationService.schedule hi_u1 5000 heap_down).1 = Ok "immediate" /\
  NotificationService.schedule hi_u1 5001 heap_down
    = (Throw SchedulerUnavailable, heap_down).
Proof.
  destruct (schedule_now_or_unavailable hi_u1 5000 heap_down) as [Hnow _].
  destruct (schedule_now_or_unavailable hi_u1 5001 heap_down) as [_ Hlater].
  split.
  - rewrite Hnow; [reflexivity | discriminate].
  - apply Hlater; reflexivity.
Defined.

Lemma deliver_not_held (jobId : string) (h : Heap) (q : Queue) :
  queue (scheduler h) = Some q ->
  held q !! jobId = None ->
  Worker_.deliver jobId h = (Ok tt, h).
Proof.
  intros Hq Hj. unfold Worker_.deliver, bind, get_heap. rewrite Hq.
  destruct (worker (scheduler h)); [|done]. by rewrite Hj.
Qed.

(** X9.  A notification scheduled for a later instant on a ready scheduler
    gets a job id; delivered, the job sends the notification; but once
    [cancel] was called with that id, the queue no longer holds the job and
    a delivery does nothing: the notification is never sent. *)
Theorem scheduled_then_cancelled_never_sent
    (payload : NotifyPayload.t) (at_ : Z) (h : Heap) (q : Queue) (w : Worker) :
  Scheduler.ready_queue (scheduler h) = Some q ->
  worker (scheduler h) = Some w ->
  0 < at_ - clock h ->
  let name := "notify:" +:+ NotifyPayload.userId payload +:+ ":" +:+ pretty (clock h) in
  let jobId := delayed_job_id name (clock h) in
  held q !! jobId = None ->
  let h1 := (NotificationService.schedule payload at_ h).2 in
  let h2 := (NotificationService.cancel jobId h1).2 in
  (NotificationService.schedule payload at_ h).1 = Ok jobId /\
  trace h1 = trace h /\
  DbNotificationCreate (row_of payload) ∈ trace (Worker_.deliver jobId h1).2 /\
  Worker_.deliver jobId h2 = (Ok tt, h2) /\
  trace h2 = trace h.
Proof.
  intros Hq Hw Hd name jobId Hfresh h1 h2.
  destruct (ready_queue_Some _ _ Hq) as (_ & Hr & _).
  assert (Hsch : NotificationService.schedule payload at_ h
                 = Scheduler.addDelayed name (at_ - clock h) (schedule_closure payload) h).
  { rewrite schedule_unfold. by apply Z.leb_gt in Hd as ->. }
  pose proof (addDelayed_fresh_run name (at_ - clock h) (schedule_closure payload)
                h q Hq Hfresh) as Hadd.
  fold jobId in Hadd. subst h2 h1. rewrite Hsch, Hadd. cbn [fst snd].
  set (job := mkBullJob (Some jobId) name (opts_delay (at_ - clock h))).
  set (q1 := mkQueue (<[jobId := job]> (held q)) (next_seq q)).
  set (h1 := put_scheduler _ h).
  assert (Hq1 : Scheduler.ready_queue (scheduler h1) = Some q1)
    by (by apply ready_queue_with_queue).
  assert (Hj1 : held q1 !! jobId = Some job) by (simpl; by rewrite lookup_insert_eq).
  split; [done|]. split; [done|]. split.
  { rewrite (deliver_delayed jobId h1 q1 w job (at_ - clock h) eq_refl Hw Hj1 eq_refl).
    set (h1' := put_scheduler _ h1).
    assert (Hh : handlers (scheduler h1') !! job_name job = Some (schedule_closure payload)).
    { simpl. by rewrite lookup_insert_eq. }
    rewrite (process_registered _ _ _ Hh). cbn [JobFn_call].
    assert (Hin : DbNotificationCreate (row_of payload)
                    ∈ trace (NotificationService.send payload h1').2).
    { destruct (notification_create (db (notify h1')) (row_of payload)) as [e|] eqn:Hdb.
      - rewrite (send_persist_fails _ _ _ Hdb). simpl.
        apply elem_of_app. right. by apply list_elem_of_singleton.
      - rewrite (send_persist_ok _ _ Hdb). simpl.
        apply elem_of_app. right. apply elem_of_cons. by left. }
    unfold settle_job.
    destruct (NotificationService.send payload h1') as [[[]|e] h3]; cbn [snd] in *;
      [done|].
    simpl. apply elem_of_app. by left. }
  unfold NotificationService.cancel.
  rewrite (remove_held_run jobId h1 q1 job Hq1 Hj1 eq_refl). cbn [snd].
  split; [|done].
  eapply deliver_not_held; [reflexivity|]. simpl. apply lookup_delete_eq.
Qed.

Lemma scheduled_then_cancelled_never_sent_witness :
  (NotificationService.schedule hi_u1 6000 heap_up).1 = Ok "notify:u1:5000-5000" /\
  Worker_.deliver "notify:u1:5000-5000"
    (NotificationService.cancel "notify:u1:5000-5000"
       (NotificationService.schedule hi_u1 6000 heap_up).2).2
    = (Ok tt,
       (NotificationService.cancel "notify:u1:5000-5000"
          (NotificationService.schedule hi_u1 6000 heap_up).2).2).
Proof.
  destruct (scheduled_then_cancelled_never_sent hi_u1 6000 heap_up (mkQueue ∅ 0)
              mkWorker eq_refl eq_refl eq_refl eq_refl) as (Hid & _ & _ & Hnone & _).
  exact (conj Hid Hnone).
Defined.

(** ** Cancelling a cron timer *)

Lemma repeat_is_not_timer (q : Queue) (id : string) :
  next_broker_id q <> timer_job_name id.
Proof. unfold next_broker_id, timer_job_name. simpl. discriminate. Qed.

Lemma deliver_repeating (jobId : string) (h : Heap) (q : Queue) (w : Worker)
    (job : BullJob) (pattern : string) :
  queue (scheduler h) = Some q ->
  worker (scheduler h) = Some w ->
  held q !! jobId = Some job ->
  job_opts job = opts_repeat_pattern pattern ->
  Worker_.deliver jobId h = settle_job (job_name job) (Worker_.process job h).
Proof.
  intros Hq Hw Hj Ho. unfold Worker_.deliver, bind, get_heap.
  rewrite Hq, Hw, Hj, Ho. unfold ret, settle_job.
  by destruct (Worker_.process job h) as [[[]|e] h'].
Qed.

Lemma markStatus_scheduler (id : string) (st : TimerStatus) (h : Heap) :
  scheduler (TimerService.markStatus id st h).2 = scheduler h.
Proof.
  destruct (entries (timer h) !! id) as [e|] eqn:He.
  - by rewrite (markStatus_found _ _ _ _ He).
  - by rewrite (markStatus_missing _ _ _ He).
Qed.

(** The functions the core hands to the scheduler leave the scheduler as it
    is. *)
Lemma JobFn_call_scheduler (fn : JobFn) (h : Heap) :
  scheduler (JobFn_call fn h).2 = scheduler h.
Proof.
  destruct fn as [id action|id action|payload].
  - rewrite after_closure_unfold.
    destruct (dispatch_frame action (TimerService.markStatus id fired h).2) as [_ ->].
    apply markStatus_scheduler.
  - rewrite cron_closure_steps.
    destruct (dispatch_frame action (TimerService.markStatus id fired h).2) as [_ Hs].
    destruct (TimerService.dispatch action _) as [[[]|e] h2]; cbn [snd] in *.
    + by rewrite markStatus_scheduler, Hs, markStatus_scheduler.
    + by rewrite Hs, markStatus_scheduler.
  - cbn [JobFn_call]. by destruct (send_frame payload h) as [es ->].
Qed.

(** X10.  [cancel] does not stop a cron timer either.  On a ready scheduler,
    after [cron] and [cancel] of the id it returned the entry is
    [cancelled], but the queue still holds the repeating job under the id the
    broker gave it and the handler is still registered under [timer:<id>]:
    [cancel] asked the queue for the id [timer:<id>].  Every later delivery
    runs the cron closure, and one whose dispatch returns normally leaves the
    cancelled entry [pending]: a delivery leaves the scheduler as it is, so
    what holds for the first holds for the next. *)
Theorem cancel_leaves_cron_job_firing
    (toISO : Z -> option string) (label cronExpr : string) (action : TimerAction)
    (h : Heap) (q : Queue) (w : Worker) :
  Scheduler.ready_queue (scheduler h) = Some q ->
  worker (scheduler h) = Some w ->
  let id := entropy h (drawn h) in
  let name := timer_job_name id in
  let jobId := next_broker_id q in
  held q !! name = None ->
  let h1 := (TimerService.cron toISO label cronExpr action h).2 in
  let h2 := (TimerService.cancel id h1).2 in
  (TimerService.cancel id h1).1 = Ok tt /\
  status_of id h2 = Some cancelled /\
  (exists q2, queue (scheduler h2) = Some q2 /\
     held q2 !! jobId = Some (mkBullJob (Some jobId) name (opts_repeat_pattern cronExpr))) /\
  handlers (scheduler h2) !! name = Some (cron_closure id action) /\
  Worker_.deliver jobId h2
    = settle_job name (JobFn_call (cron_closure id action) h2) /\
  (forall h3, JobFn_call (cron_closure id action) h2 = (Ok tt, h3) ->
     status_of id h3 = Some pending) /\
  (forall h', scheduler h' = scheduler h2 ->
     Worker_.deliver jobId h'
       = settle_job name (JobFn_call (cron_closure id action) h') /\
     scheduler (Worker_.deliver jobId h').2 = scheduler h' /\
     (forall h3, is_Some (entries (timer h') !! id) ->
        JobFn_call (cron_closure id action) h' = (Ok tt, h3) ->
        status_of id h3 = Some pending)).
Proof.
  intros Hq Hw id name jobId Hname h1 h2.
  destruct (ready_queue_Some _ _ Hq) as (_ & Hr & _).
  set (entry := TimerEntry.mk id label action pending ("cron:" +:+ cronExpr)
                  (default "" (toISO (clock h)))).
  assert (Hcron : TimerService.cron toISO label cronExpr action h
            = (Ok id,
               put_scheduler
                 (Scheduler.with_queue (scheduler h)
                    (mkQueue (<[jobId := mkBullJob (Some jobId) name
                                           (opts_repeat_pattern cronExpr)]> (held q))
                             (next_seq q + 1)%N)
                    (<[jobId := SchedulerJob.mk jobId name SchedulerJob.cron]>
                       (jobs (scheduler h)))
                    (<[name := cron_closure id action]> (handlers (scheduler h))))
                 (put_entry id entry (drew h)))).
  { rewrite cron_unfold. cbv zeta. fold id name entry.
    by rewrite (add_ready_run name cronExpr (cron_closure id action)
                  (put_entry id entry (drew h)) q Hq). }
  subst h2 h1. rewrite Hcron. cbn [fst snd].
  set (job := mkBullJob (Some jobId) name (opts_repeat_pattern cronExpr)).
  set (q1 := mkQueue (<[jobId := job]> (held q)) (next_seq q + 1)%N).
  set (h1 := put_scheduler _ _).
  assert (Hne : jobId <> name) by apply repeat_is_not_timer.
  assert (Hq1 : Scheduler.ready_queue (scheduler h1) = Some q1)
    by (by apply ready_queue_with_queue).
  assert (He1 : entries (timer h1) !! id = Some entry)
    by (simpl; by rewrite lookup_insert_eq).
  assert (Hrm : Scheduler.remove name h1 = (Ok tt, forget_job name h1)).
  { apply (remove_not_held _ _ q1 Hq1). simpl. by rewrite lookup_insert_ne. }
  rewrite cancel_unfold. change (timer_job_name id) with name.
  rewrite He1, Hrm. cbn [fst snd].
  assert (He2 : entries (timer (forget_job name h1)) !! id = Some entry) by exact He1.
  rewrite (markStatus_found _ _ _ _ He2). cbn [fst snd].
  set (h2 := put_entry id (TimerEntry.with_status entry cancelled) (forget_job name h1)).
  assert (Hh2 : handlers (scheduler h2) !! name = Some (cron_closure id action))
    by (simpl; by rewrite lookup_insert_eq).
  assert (Hj2 : held q1 !! jobId = Some job) by (simpl; by rewrite lookup_insert_eq).
  assert (He3 : entries (timer h2) !! id = Some (TimerEntry.with_status entry cancelled))
    by (simpl; by rewrite lookup_insert_eq).
  split; [done|]. split; [unfold status_of; by rewrite He3|].
  split; [by exists q1|]. split; [exact Hh2|]. split; [|split].
  - rewrite (deliver_repeating jobId h2 q1 w job cronExpr eq_refl Hw Hj2 eq_refl).
    by rewrite (process_registered job _ h2 Hh2).
  - intros h3 Hrun.
    by destruct (cron_fire_ok_pending _ _ _ _ _ He3 Hrun) as (_ & ? & _).
  - intros h' Hs'.
    assert (Hq' : queue (scheduler h') = Some q1) by (by rewrite Hs').
    assert (Hw' : worker (scheduler h') = Some w) by (rewrite Hs'; exact Hw).
    assert (Hh' : handlers (scheduler h') !! job_name job
                  = Some (cron_closure id action)) by (rewrite Hs'; exact Hh2).
    rewrite (deliver_repeating jobId h' q1 w job cronExpr Hq' Hw' Hj2 eq_refl).
    rewrite (process_registered job _ h' Hh').
    split; [done|]. split.
    + pose proof (JobFn_call_scheduler (cron_closure id action) h') as Hsame.
      unfold settle_job.
      by destruct (JobFn_call (cron_closure id action) h') as [[[]|e] h3].
    + intros h3 [e He] Hrun.
      by destruct (cron_fire_ok_pending _ _ _ _ _ He Hrun) as (_ & ? & _).
Qed.

Lemma cancel_leaves_cron_job_firing_witness :
  status_of "uuid-0" (TimerService.cancel "uuid-0" heap_cron).2 = Some cancelled /\
  Worker_.deliver "repeat:0" (TimerService.cancel "uuid-0" heap_cron).2
    = settle_job "timer:uuid-0"
        (JobFn_call (cron_closure "uuid-0" ping_action)
           (TimerService.cancel "uuid-0" heap_cron).2).
Proof.
  destruct (cancel_leaves_cron_job_firing iso_ms "tick" "* * * * *" ping_action heap_up
              (mkQueue ∅ 0) mkWorker eq_refl eq_refl eq_refl)
    as (_ & Hc & _ & _ & Hdel & _).
  exact (conj Hc Hdel).
Defined.

(** ** NotificationService.registerChannel *)

Lemma registerChannel_run (name : string) (handler : ChannelHandler) (h : Heap) :
  NotificationService.registerChannel name handler h
    = (Ok tt,
       mkHeap (scheduler h) (events h)
         (mkNotificationService (<[name := handler]> (channels (notify h)))
            (io (notify h)) (db (notify h)))
         (timer h) (clock h) (entropy h) (drawn h) (trace h)).
Proof. reflexivity. Qed.

(** X12.  The last handler registered for a channel is the one [send]
    calls, once, after the write and the push, and the outcome of [send] is
    its outcome; whatever was registered for the channel before is not
    called.  A [send] on another channel is not affected by the
    registration.  A payload without a channel goes to the channel
    [default]. *)
Theorem registerChannel_last_wins
    (name : string) (handler : ChannelHandler) (payload : NotifyPayload.t) (h : Heap) :
  let h' := (NotificationService.registerChannel name handler h).2 in
  (channel_of payload = name ->
   notification_create (db (notify h)) (row_of payload) = None ->
   push_outcome payload h = None ->
     (NotificationService.send payload h').1
       = match handle handler payload with Some e => Throw e | None => Ok tt end /\
     trace (NotificationService.send payload h').2
       = (trace h ++ DbNotificationCreate (row_of payload)
                     :: push_step payload h ++ [ChannelCall name payload])%list) /\
  (channel_of payload <> name ->
     (NotificationService.send payload h').1 = (NotificationService.send payload h).1 /\
     trace (NotificationService.send payload h').2
       = trace (NotificationService.send payload h).2) /\
  (NotifyPayload.channel payload = None -> channel_of payload = "default").
Proof.
  cbv zeta. rewrite registerChannel_run. cbn [snd].
  set (h' := mkHeap _ _ _ _ _ _ _ _).
  assert (Hpo : push_outcome payload h' = push_outcome payload h) by reflexivity.
  assert (Hps : push_step payload h' = push_step payload h) by reflexivity.
  split; [|split].
  - intros Hch Hdb Hpush.
    assert (Hdb' : notification_create (db (notify h')) (row_of payload) = None)
      by exact Hdb.
    rewrite (send_persist_ok _ _ Hdb'). cbn [fst snd].
    unfold delivery_outcome, channel_step, channel_outcome.
    rewrite Hpo, Hps, Hpush. subst h'. cbn [notify channels trace traced].
    rewrite Hch, lookup_insert_eq. done.
  - intros Hne.
    destruct (notification_create (db (notify h)) (row_of payload)) as [e|] eqn:Hdb.
    + assert (Hdb' : notification_create (db (notify h')) (row_of payload) = Some e)
        by exact Hdb.
      by rewrite (send_persist_fails _ _ _ Hdb'), (send_persist_fails _ _ _ Hdb).
    + assert (Hdb' : notification_create (db (notify h')) (row_of payload) = None)
        by exact Hdb.
      rewrite (send_persist_ok _ _ Hdb'), (send_persist_ok _ _ Hdb). cbn [fst snd].
      unfold delivery_outcome, channel_step, channel_outcome.
      rewrite Hpo, Hps. subst h'. cbn [notify channels trace traced].
      rewrite lookup_insert_ne by done. done.
  - unfold channel_of. by intros ->.
Qed.

Lemma registerChannel_last_wins_witness :
  (NotificationService.send hi_u1
     (NotificationService.registerChannel "default" channel_ok heap_channel_failing).2).1
    = Ok tt /\
  (NotificationService.send (NotifyPayload.mk "u1" "Hi" "there" (Some "email") None)
     (NotificationService.registerChannel "default" channel_ok heap_channel_failing).2).1
    = (NotificationService.send (NotifyPayload.mk "u1" "Hi" "there" (Some "email") None)
         heap_channel_failing).1.
Proof.
  destruct (registerChannel_last_wins "default" channel_ok hi_u1 heap_channel_failing)
    as (Hsame & _ & _).
  destruct (registerChannel_last_wins "default" channel_ok
              (NotifyPayload.mk "u1" "Hi" "there" (Some "email") None)
              heap_channel_failing) as (_ & Hother & _).
  split.
  - apply (Hsame eq_refl eq_refl eq_refl).
  - apply Hother. discriminate.
Defined.

(** ** What a call may write *)

Lemma add_stays (name cron : string) (fn : JobFn) :
  stays fp_scheduler (Scheduler.add name cron fn).
Proof.
  unfold Scheduler.add. apply stays_bind; [apply stays_get_heap|]. intros h. cbv zeta.
  destruct (Scheduler.ready_queue (scheduler h)); [|apply stays_emit_effect].
  destruct (Queue_.add name (opts_repeat_pattern cron) None q).
  apply stays_set_scheduler. reflexivity.
Qed.

Lemma addDelayed_stays (name : string) (delay : Z) (fn : JobFn) :
  stays fp_scheduler (Scheduler.addDelayed name delay fn).
Proof.
  unfold Scheduler.addDelayed. apply stays_bind; [apply stays_get_heap|].
  intros h. cbv zeta.
  destruct (Scheduler.ready_queue (scheduler h)); [|apply stays_throw].
  apply stays_bind; [apply stays_Date_now|]. intros now.
  destruct (Queue_.add _ _ _ _). stays_auto.
Qed.

Lemma addRepeating_stays (name : string) (every : Z) (fn : JobFn) :
  stays fp_scheduler (Scheduler.addRepeating name every fn).
Proof.
  unfold Scheduler.addRepeating. apply stays_bind; [apply stays_get_heap|].
  intros h. cbv zeta.
  destruct (Scheduler.ready_queue (scheduler h)); [|apply stays_throw].
  destruct (Queue_.add _ _ _ _). stays_auto.
Qed.

Lemma remove_stays (jobId : string) : stays fp_scheduler (Scheduler.remove jobId).
Proof.
  unfold Scheduler.remove. apply stays_bind; [apply stays_get_heap|].
  intros h. cbv zeta.
  destruct (Scheduler.ready_queue (scheduler h)); [|apply stays_ret].
  apply stays_set_scheduler. reflexivity.
Qed.

Lemma attachSocket_stays (srv : SocketServer) :
  stays fp_notify (NotificationService.attachSocket srv).
Proof. unfold NotificationService.attachSocket. stays_auto. Qed.

Lemma registerChannel_stays (name : string) (handler : ChannelHandler) :
  stays fp_notify (NotificationService.registerChannel name handler).
Proof. unfold NotificationService.registerChannel. stays_auto. Qed.

Lemma send_stays (payload : NotifyPayload.t) :
  stays fp_trace (NotificationService.send payload).
Proof.
  intros h. destruct (send_frame payload h) as [es ->]. apply within_traced.
Qed.

Lemma schedule_stays (payload : NotifyPayload.t) (at_ : Z) :
  stays fp_scheduler (NotificationService.schedule payload at_).
Proof.
  unfold NotificationService.schedule.
  apply stays_bind; [apply stays_Date_now|]. intros now. cbv zeta.
  destruct (at_ - now <=? 0)%Z.
  - apply stays_bind; [|intros; apply stays_ret].
    apply (stays_mono fp_trace); [reflexivity | apply send_stays].
  - apply stays_bind; [apply stays_Date_now|]. intros now'. apply addDelayed_stays.
Qed.

Lemma dispatch_stays (action : TimerAction) :
  stays fp_events (TimerService.dispatch action).
Proof.
  destruct action; cbn [TimerService.dispatch]; [|apply emit_stays..].
  apply (stays_mono fp_trace); [reflexivity | apply send_stays].
Qed.

Lemma markStatus_stays (id : string) (st : TimerStatus) :
  stays fp_timer (TimerService.markStatus id st).
Proof. unfold TimerService.markStatus. stays_auto. Qed.

Lemma set_entry_stays (id : string) (e : TimerEntry.t) :
  stays fp_timer (TimerService.set_entry id e).
Proof. unfold TimerService.set_entry. stays_auto. Qed.

Lemma after_stays (toISO : Z -> option string) (label : string) (delayMs : Z)
    (action : TimerAction) :
  stays fp_new_timer (TimerService.after toISO label delayMs action).
Proof.
  unfold TimerService.after.
  apply stays_bind; [apply stays_randomUUID; reflexivity|]. intros id.
  apply stays_bind; [apply stays_Date_now|]. intros now. cbv zeta.
  apply stays_bind;
    [apply (stays_mono fp_timer); [reflexivity | apply set_entry_stays]|]. intros _.
  apply stays_bind; [|intros; apply stays_ret].
  apply (stays_mono fp_scheduler); [reflexivity | apply addDelayed_stays].
Qed.

Lemma at_stays (toISO : Z -> option string) (label : string) (dt : Z)
    (action : TimerAction) :
  stays fp_new_timer (TimerService.at_ toISO label dt action).
Proof.
  unfold TimerService.at_. apply stays_bind; [apply stays_Date_now|]. intros now.
  cbv zeta. destruct (dt - now <? 0)%Z; [apply stays_throw | apply after_stays].
Qed.

Lemma cron_stays (toISO : Z -> option string) (label cronExpr : string)
    (action : TimerAction) :
  stays fp_new_timer (TimerService.cron toISO label cronExpr action).
Proof.
  unfold TimerService.cron.
  apply stays_bind; [apply stays_randomUUID; reflexivity|]. intros id.
  apply stays_bind; [apply stays_Date_now|]. intros now. cbv zeta.
  apply stays_bind;
    [apply (stays_mono fp_timer); [reflexivity | apply set_entry_stays]|]. intros _.
  apply stays_bind; [|intros; apply stays_ret].
  apply (stays_mono fp_scheduler); [reflexivity | apply add_stays].
Qed.

Lemma timer_cancel_stays (timerId : string) :
  stays fp_cancel (TimerService.cancel timerId).
Proof.
  unfold TimerService.cancel. apply stays_bind; [apply stays_get_heap|]. intros h.
  destruct (entries (timer h) !! timerId); [|apply stays_throw].
  apply stays_bind.
  - apply (stays_mono fp_scheduler); [reflexivity | apply remove_stays].
  - intros _. apply (stays_mono fp_timer); [reflexivity | apply markStatus_stays].
Qed.

Lemma JobFn_call_stays (fn : JobFn) : stays fp_fire (JobFn_call fn).
Proof.
  assert (Hm : forall id st, stays fp_fire (TimerService.markStatus id st)).
  { intros. apply (stays_mono fp_timer); [reflexivity | apply markStatus_stays]. }
  assert (Hd : forall a, stays fp_fire (TimerService.dispatch a)).
  { intros. apply (stays_mono fp_events); [reflexivity | apply dispatch_stays]. }
  destruct fn; cbn [JobFn_call].
  - apply stays_bind; [apply Hm | intros; apply Hd].
  - apply stays_bind; [apply Hm|]. intros _.
    apply stays_bind; [apply Hd | intros; apply Hm].
  - apply (stays_mono fp_trace); [reflexivity | apply send_stays].
Qed.

Lemma process_stays (job : BullJob) : stays fp_fire (Worker_.process job).
Proof.
  unfold Worker_.process. apply stays_bind; [apply stays_get_heap|]. intros h.
  destruct (handlers (scheduler h) !! job_name job);
    [apply JobFn_call_stays | apply stays_emit_effect].
Qed.

Lemma deliver_stays (jobId : string) : stays fp_deliver (Worker_.deliver jobId).
Proof.
  unfold Worker_.deliver. apply stays_bind; [apply stays_get_heap|]. intros h.
  cbv zeta.
  destruct (queue (scheduler h)) as [q|]; [|apply stays_ret].
  destruct (worker (scheduler h)); [|apply stays_ret].
  destruct (held q !! jobId) as [job|]; [|apply stays_ret].
  apply stays_bind.
  - destruct (job_opts job); [apply stays_set_scheduler; reflexivity|apply stays_ret..].
  - intros _ h'.
    pose proof (process_stays job h') as Hp.
    apply (within_mono fp_fire fp_deliver) in Hp; [|reflexivity].
    destruct (Worker_.process job h') as [[[]|e] h'']; [exact Hp|].
    eapply within_trans; [exact Hp | apply (stays_emit_effect fp_deliver)].
Qed.

Lemma call_stays_within_footprint_aux
    (toISO : Z -> option string) (c : Call) (h : Heap) :
  within (footprint c) h (run_call toISO c h).
Proof.
  destruct c; cbn [run_call footprint].
  - apply addListener_stays.
  - apply addListener_stays.
  - apply off_stays.
  - apply emit_stays.
  - apply add_stays.
  - apply addDelayed_stays.
  - apply addRepeating_stays.
  - apply remove_stays.
  - apply attachSocket_stays.
  - apply registerChannel_stays.
  - apply send_stays.
  - apply schedule_stays.
  - apply remove_stays.
  - apply after_stays.
  - apply at_stays.
  - apply cron_stays.
  - apply timer_cancel_stays.
  - apply deliver_stays.
  - unfold within, advance; simpl. repeat split; try done.
    exists []. by rewrite app_nil_r.
Qed.

(** X13.  No call writes outside its footprint.  The calls of the bus
    change the bus and nothing else; those of the scheduler, and [schedule]
    and [cancel] of the notification service, change only the scheduler;
    [attachSocket] and [registerChannel] only the notification service;
    [send] changes no object at all; [after], [at] and [cron] leave the bus
    and the notification service alone, [cancel] of a timer also the source
    of ids; a delivery leaves the notification service, the clock and the
    source of ids alone.  No call rewrites what is already in the trace. *)
Theorem call_stays_within_footprint
    (toISO : Z -> option string) (c : Call) (h : Heap) :
  within (footprint c) h (run_call toISO c h).
Proof. apply call_stays_within_footprint_aux. Qed.

(** ** The scheduler over a run *)

Lemma scheduler_grows_refl (h h' : Heap) :
  scheduler h' = scheduler h -> scheduler_grows h h'.
Proof. intros Hs. unfold scheduler_grows. rewrite Hs. by repeat split. Qed.

Lemma scheduler_grows_trans (h1 h2 h3 : Heap) :
  scheduler_grows h1 h2 -> scheduler_grows h2 h3 -> scheduler_grows h1 h3.
Proof.
  unfold scheduler_grows.
  intros (Hr & Hw & Hc & Hn & Hq & Hh) (Hr' & Hw' & Hc' & Hn' & Hq' & Hh').
  split; [congruence|]. split; [congruence|]. split; [congruence|].
  split; [congruence|]. split; [by rewrite Hq'|]. intros name Hs. by apply Hh', Hh.
Qed.

Lemma grows_isReady (h h' : Heap) :
  scheduler_grows h h' ->
  Scheduler.isReady (scheduler h') = Scheduler.isReady (scheduler h).
Proof.
  intros (Hr & _ & _ & _ & Hq & _). unfold Scheduler.isReady. rewrite Hr. f_equal.
  apply bool_decide_ext. by rewrite Hq.
Qed.

Lemma with_queue_grows (h h' : Heap) (q0 q' : Queue)
    (js : gmap string SchedulerJob.t) (hs : gmap string JobFn) :
  queue (scheduler h) = Some q0 ->
  scheduler h' = Scheduler.with_queue (scheduler h) q' js hs ->
  (forall name, is_Some (handlers (scheduler h) !! name) -> is_Some (hs !! name)) ->
  scheduler_grows h h'.
Proof.
  intros Hq Hs Hh. unfold scheduler_grows. rewrite Hs, Hq. simpl.
  by repeat split.
Qed.

Lemma insert_keeps_handlers (hs : gmap string JobFn) (name : string) (fn : JobFn) :
  forall n, is_Some (hs !! n) -> is_Some (<[name := fn]> hs !! n).
Proof. intros n Hn. rewrite lookup_insert_is_Some. destruct (decide (name = n)); auto. Qed.

Lemma scheduler_step_same (h h' : Heap) :
  scheduler h' = scheduler h -> scheduler_step h h'.
Proof. by left. Qed.

Lemma scheduler_step_grows (h h' : Heap) :
  scheduler_step h h' -> scheduler_grows h h'.
Proof. intros [Hs|[Hg _]]; [by apply scheduler_grows_refl | done]. Qed.

Lemma scheduler_step_trans (h1 h2 h3 : Heap) :
  scheduler_step h1 h2 -> scheduler_step h2 h3 -> scheduler_step h1 h3.
Proof.
  intros [Hs|[Hg Hc]] H23.
  - destruct H23 as [Hs'|[Hg' Hc']]; [left; congruence|].
    right. split.
    + eapply scheduler_grows_trans; [by apply scheduler_grows_refl | done].
    + by rewrite <- Hs.
  - right. split; [|done].
    eapply scheduler_grows_trans; [done | by apply scheduler_step_grows].
Qed.

Lemma scheduler_step_from (h1 h1' h2 : Heap) :
  scheduler h1' = scheduler h1 -> scheduler_step h1' h2 -> scheduler_step h1 h2.
Proof.
  intros Hs. apply scheduler_step_trans. by apply scheduler_step_same.
Qed.

Lemma scheduler_step_to (h1 h2 h2' : Heap) :
  scheduler h2' = scheduler h2 -> scheduler_step h1 h2 -> scheduler_step h1 h2'.
Proof.
  intros Hs H12. eapply scheduler_step_trans; [exact H12|]. by apply scheduler_step_same.
Qed.

(** A ready scheduler whose queue and maps were replaced, the handlers of
    before kept. *)
Lemma ready_step (h h' : Heap) (q q' : Queue)
    (js : gmap string SchedulerJob.t) (hs : gmap string JobFn) :
  Scheduler.ready_queue (scheduler h) = Some q ->
  scheduler h' = Scheduler.with_queue (scheduler h) q' js hs ->
  (forall name, is_Some (handlers (scheduler h) !! name) -> is_Some (hs !! name)) ->
  scheduler_step h h'.
Proof.
  intros Hq Hs Hh. destruct (ready_queue_Some _ _ Hq) as (Hqs & _ & Hr).
  right. split; [by eapply with_queue_grows | by left].
Qed.

Lemma add_step (name cron : string) (fn : JobFn) (h : Heap) :
  scheduler_step h (Scheduler.add name cron fn h).2.
Proof.
  destruct (Scheduler.ready_queue (scheduler h)) as [q|] eqn:Hq.
  - rewrite (add_ready_run _ _ _ _ q Hq). cbv zeta.
    eapply ready_step; [exact Hq | reflexivity | apply insert_keeps_handlers].
  - unfold Scheduler.add. run_monad. rewrite Hq. by left.
Qed.

Lemma addDelayed_step (name : string) (delay : Z) (fn : JobFn) (h : Heap) :
  scheduler_step h (Scheduler.addDelayed name delay fn h).2.
Proof.
  destruct (Scheduler.ready_queue (scheduler h)) as [q|] eqn:Hq.
  - rewrite (addDelayed_ready _ _ _ _ q Hq). cbv zeta.
    eapply ready_step; [exact Hq | reflexivity | apply insert_keeps_handlers].
  - unfold Scheduler.addDelayed. run_monad. rewrite Hq. by left.
Qed.

Lemma addRepeating_step (name : string) (every : Z) (fn : JobFn) (h : Heap) :
  scheduler_step h (Scheduler.addRepeating name every fn h).2.
Proof.
  destruct (Scheduler.ready_queue (scheduler h)) as [q|] eqn:Hq.
  - rewrite (addRepeating_ready_run _ _ _ _ q Hq). cbv zeta.
    eapply ready_step; [exact Hq | reflexivity | apply insert_keeps_handlers].
  - unfold Scheduler.addRepeating. run_monad. rewrite Hq. by left.
Qed.

Lemma remove_step (jobId : string) (h : Heap) :
  scheduler_step h (Scheduler.remove jobId h).2.
Proof.
  destruct (Scheduler.ready_queue (scheduler h)) as [q|] eqn:Hq.
  - rewrite (remove_ready _ _ _ Hq).
    eapply ready_step; [exact Hq | reflexivity | done].
  - unfold Scheduler.remove. run_monad. rewrite Hq. by left.
Qed.

Lemma stays_scheduler {A} (fp : Footprint) (m : M A) (h : Heap) :
  w_scheduler fp = false -> stays fp m -> scheduler (m h).2 = scheduler h.
Proof. intros Hw Hm. by destruct (Hm h) as (Hs & _); apply Hs. Qed.

Lemma deliver_step (jobId : string) (h : Heap) :
  scheduler_step h (Worker_.deliver jobId h).2.
Proof.
  unfold Worker_.deliver, bind, get_heap.
  destruct (queue (scheduler h)) as [q|] eqn:Hq; [|by left].
  destruct (worker (scheduler h)) as [w|] eqn:Hw; [|by left].
  destruct (held q !! jobId) as [job|]; [|by left].
  assert (Hfin : forall h1, scheduler_step h h1 ->
            scheduler_step h
              (match Worker_.process job h1 with
               | (Ok _, h'') => (Ok tt, h'')
               | (Throw e, h'') =>
                   emit_effect (Console (error_job_failed (job_name job) e)) h''
               end).2).
  { intros h1 H1. eapply scheduler_step_to; [|exact H1].
    pose proof (stays_scheduler fp_fire (Worker_.process job) h1 eq_refl
                  (process_stays job)) as Hp.
    by destruct (Worker_.process job h1) as [[[]|e] h2]. }
  destruct (job_opts job); cbn [set_scheduler ret fst snd]; apply Hfin; try by left.
  right. split; [|right; by rewrite Hw].
  eapply with_queue_grows; [exact Hq | reflexivity | done].
Qed.

Lemma call_scheduler_step (toISO : Z -> option string) (c : Call) (h : Heap) :
  scheduler_step h (run_call toISO c h).
Proof.
  destruct c; cbn [run_call];
    try (left; apply (stays_scheduler fp_events); [reflexivity|];
         first [apply addListener_stays | apply off_stays | apply emit_stays]);
    try (left; apply (stays_scheduler fp_notify); [reflexivity|];
         first [apply attachSocket_stays | apply registerChannel_stays]).
  - apply add_step.
  - apply addDelayed_step.
  - apply addRepeating_step.
  - apply remove_step.
  - left. apply (stays_scheduler fp_trace); [reflexivity | apply send_stays].
  - rewrite schedule_unfold. destruct (at_ - clock h <=? 0)%Z; cbn [snd].
    + left. apply (stays_scheduler fp_trace); [reflexivity | apply send_stays].
    + apply addDelayed_step.
  - apply remove_step.
  - rewrite after_unfold. cbv zeta.
    match goal with |- context [Scheduler.addDelayed ?n ?d ?f ?h1] =>
      pose proof (addDelayed_step n d f h1) as Hstep;
      destruct (Scheduler.addDelayed n d f h1) as [[?|?] ?]
    end; cbn [fst snd] in *; by eapply scheduler_step_from; [|exact Hstep].
  - rewrite at_unfold. destruct (dt - clock h <? 0)%Z; [by left|].
    rewrite after_unfold. cbv zeta.
    match goal with |- context [Scheduler.addDelayed ?n ?d ?f ?h1] =>
      pose proof (addDelayed_step n d f h1) as Hstep;
      destruct (Scheduler.addDelayed n d f h1) as [[?|?] ?]
    end; cbn [fst snd] in *; by eapply scheduler_step_from; [|exact Hstep].
  - rewrite cron_unfold. cbv zeta.
    match goal with |- context [Scheduler.add ?n ?d ?f ?h1] =>
      pose proof (add_step n d f h1) as Hstep;
      destruct (Scheduler.add n d f h1) as [[?|?] ?]
    end; cbn [fst snd] in *; by eapply scheduler_step_from; [|exact Hstep].
  - rewrite cancel_unfold. destruct (entries (timer h) !! timerId); [|by left].
    eapply scheduler_step_to; [|apply (remove_step (timer_job_name timerId) h)].
    apply (stays_scheduler fp_timer); [reflexivity | apply markStatus_stays].
  - apply deliver_step.
  - by left.
Qed.

Lemma run_calls_snoc (toISO : Z -> option string) (cs : list Call) (c : Call) (h : Heap) :
  run_calls toISO (cs ++ [c]) h = run_call toISO c (run_calls toISO cs h).
Proof. unfold run_calls. by rewrite fold_left_app. Qed.

Lemma run_scheduler_step (toISO : Z -> option string) (cs : list Call) (h : Heap) :
  scheduler_step h (run_calls toISO cs h).
Proof.
  induction cs as [|c cs IH] using rev_ind; [by left|].
  rewrite run_calls_snoc.
  eapply scheduler_step_trans; [exact IH | apply call_scheduler_step].
Qed.

(** X14.  Whether the scheduler is ready is settled when it is constructed:
    no call and no delivery, in any order and number, makes a scheduler that
    is not ready ready, or a ready one not ready; the worker, the connection
    and the queue name never change either. *)
Theorem readiness_never_changes (toISO : Z -> option string) (cs : list Call) (h : Heap) :
  Scheduler.isReady (scheduler (run_calls toISO cs h)) = Scheduler.isReady (scheduler h) /\
  _ready (scheduler (run_calls toISO cs h)) = _ready (scheduler h) /\
  worker (scheduler (run_calls toISO cs h)) = worker (scheduler h) /\
  connection (scheduler (run_calls toISO cs h)) = connection (scheduler h) /\
  queueName (scheduler (run_calls toISO cs h)) = queueName (scheduler h).
Proof.
  pose proof (scheduler_step_grows _ _ (run_scheduler_step toISO cs h)) as Hg.
  split; [by apply grows_isReady|].
  by destruct Hg as (? & ? & ? & ? & _).
Qed.

(** X15.  A handler registered with the scheduler is never unregistered: in
    every run, a job name that has a handler keeps having one.  [remove], in
    particular, takes the job but leaves the handler. *)
Theorem handlers_are_never_unregistered
    (toISO : Z -> option string) (cs : list Call) (h : Heap) (name : string) :
  is_Some (handlers (scheduler h) !! name) ->
  is_Some (handlers (scheduler (run_calls toISO cs h)) !! name).
Proof.
  pose proof (scheduler_step_grows _ _ (run_scheduler_step toISO cs h)) as Hg.
  destruct Hg as (_ & _ & _ & _ & _ & Hh). apply Hh.
Qed.

Lemma handlers_are_never_unregistered_witness :
  is_Some (handlers (scheduler
             (run_calls iso_ms
                [call_timer_cancel "uuid-0"; call_remove "timer:uuid-0-5000";
                 call_deliver "timer:uuid-0-5000"] heap_after))
           !! "timer:uuid-0").
Proof.
  apply (handlers_are_never_unregistered iso_ms
           [call_timer_cancel "uuid-0"; call_remove "timer:uuid-0-5000";
            call_deliver "timer:uuid-0-5000"] heap_after "timer:uuid-0").
  by eexists.
Defined.

Lemma deliver_without_worker (jobId : string) (h : Heap) :
  worker (scheduler h) = None -> Worker_.deliver jobId h = (Ok tt, h).
Proof.
  intros Hw. unfold Worker_.deliver, bind, get_heap. rewrite Hw.
  by destruct (queue (scheduler h)).
Qed.

Lemma built_scheduler (lib : BullMQ) (prisma : PrismaClient) (conn : ConnectionOptions)
    (env : option string) (now : Z) (uuids : nat -> string) :
  scheduler (buildCoreServices lib prisma conn env now uuids)
    = (Scheduler.new lib conn (default "prism-scheduler" env)).1.
Proof.
  unfold buildCoreServices. by destruct (Scheduler.new lib conn _).
Qed.

(** X16.  A process whose scheduler could not reach the broker when it was
    constructed never schedules anything: in every run its scheduler stays
    exactly as constructed, without a handler and without a job, and a
    delivery does nothing. *)
Theorem unreachable_broker_never_schedules
    (toISO : Z -> option string) (lib : BullMQ) (prisma : PrismaClient)
    (conn : ConnectionOptions) (env : option string) (now : Z) (uuids : nat -> string)
    (cs : list Call) :
  reachable lib (default "prism-scheduler" env) conn = false ->
  let h0 := buildCoreServices lib prisma conn env now uuids in
  let h := run_calls toISO cs h0 in
  scheduler h = scheduler h0 /\
  handlers (scheduler h) = ∅ /\
  jobs (scheduler h) = ∅ /\
  forall jobId, Worker_.deliver jobId h = (Ok tt, h).
Proof.
  intros Hdown h0 h.
  assert (Hr : Scheduler.isReady (scheduler h0) = false).
  { subst h0. rewrite built_scheduler. by apply new_unreachable_not_ready. }
  assert (Hw : worker (scheduler h0) = None /\ handlers (scheduler h0) = ∅ /\
               jobs (scheduler h0) = ∅).
  { subst h0. rewrite built_scheduler.
    unfold reachable in Hdown. unfold Scheduler.new, Scheduler._connect. simpl.
    destruct (new_Queue lib _ conn); simpl in *; [|done].
    destruct (new_Worker lib _ conn); simpl in *; done. }
  destruct Hw as (Hw & Hh & Hj).
  assert (Hs : scheduler h = scheduler h0).
  { destruct (run_scheduler_step toISO cs h0) as [Hs|[_ [Hr'|Hw']]]; [done|..].
    - by rewrite Hr in Hr'.
    - by rewrite Hw in Hw'. }
  split; [done|]. rewrite Hs. split; [done|]. split; [done|].
  intros jobId. apply deliver_without_worker. by rewrite Hs.
Qed.

Lemma unreachable_broker_never_schedules_witness :
  handlers (scheduler
              (run_calls iso_ms
                 [call_cron "tick" "* * * * *" ping_action;
                  call_after "x" 1000 ping_action; call_deliver "repeat:0"]
                 heap_down)) = ∅.
Proof.
  by destruct (unreachable_broker_never_schedules iso_ms bullmq_down prisma_up
                 localhost None 5000 uuid_n
                 [call_cron "tick" "* * * * *" ping_action;
                  call_after "x" 1000 ping_action; call_deliver "repeat:0"] eq_refl)
    as (_ & Hh & _).
Defined.

(** ** The timer entries over a run *)

Lemma timers_step_quiet (h h' : Heap) :
  timer h' = timer h -> drawn h' = drawn h -> entropy h' = entropy h ->
  timers_step h h'.
Proof.
  intros Ht Hd He. unfold timers_step. rewrite Ht, Hd, He.
  split; [done|]. split; [done|]. intros k.
  destruct (entries (timer h) !! k); [apply same_but_status_refl | done].
Qed.

Lemma timers_step_within (fp : Footprint) (h h' : Heap) :
  w_timer fp = false -> w_drawn fp = false -> within fp h h' -> timers_step h h'.
Proof.
  intros Hwt Hwd (_ & _ & _ & Ht & _ & Hd & He & _).
  apply timers_step_quiet; auto.
Qed.

Lemma timers_step_status (id : string) (h h' : Heap) :
  only_status_changed id h h' -> drawn h' = drawn h -> entropy h' = entropy h ->
  timers_step h h'.
Proof.
  intros Ho Hd He. unfold timers_step. rewrite Hd, He.
  split; [done|]. split; [done|]. intros k. specialize (Ho k).
  destruct (entries (timer h) !! k), (entries (timer h') !! k); try done.
  by destruct Ho.
Qed.

Lemma timers_step_trans (h1 h2 h3 : Heap) :
  timers_step h1 h2 -> timers_step h2 h3 -> timers_step h1 h3.
Proof.
  intros (He & Hd & H12) (He' & Hd' & H23).
  split; [congruence|]. split; [lia|]. intros k.
  specialize (H12 k). specialize (H23 k).
  destruct (entries (timer h1) !! k) as [e1|], (entries (timer h2) !! k) as [e2|],
    (entries (timer h3) !! k) as [e3|]; try done.
  - by eapply same_but_status_trans.
  - destruct H12 as (Hid & i & Hi & Hk). destruct H23 as (Hid' & _).
    split; [congruence|]. exists i. split; [lia|done].
  - destruct H23 as (Hid & i & Hi & Hk). split; [done|].
    exists i. split; [lia|]. by rewrite <- He.
Qed.

Lemma timers_wf_step (h h' : Heap) :
  timers_wf h -> timers_step h h' -> timers_wf h'.
Proof.
  intros Hwf (He & Hd & Hst) k e' Hk. specialize (Hst k). rewrite Hk in Hst.
  destruct (entries (timer h) !! k) as [e|] eqn:Hke.
  - destruct (Hwf k e Hke) as (Hid & i & Hi & Hki).
    destruct Hst as (Hid' & _). split; [congruence|].
    exists i. split; [lia|]. by rewrite He.
  - destruct Hst as (Hid & i & Hi & Hki). split; [done|].
    exists i. split; [lia|]. by rewrite He.
Qed.

(** The id about to be drawn is the id of no entry, when ids never
    repeat. *)
Lemma next_id_is_fresh (h : Heap) :
  Inj (=) (=) (entropy h) -> timers_wf h ->
  entries (timer h) !! entropy h (drawn h) = None.
Proof.
  intros Hinj Hwf. destruct (entries (timer h) !! entropy h (drawn h)) as [e|] eqn:He;
    [|done].
  destruct (Hwf _ _ He) as (_ & i & Hi & Hk). apply Hinj in Hk. lia.
Qed.

Lemma new_entry_step (h : Heap) (e : TimerEntry.t) :
  entries (timer h) !! entropy h (drawn h) = None ->
  TimerEntry.id e = entropy h (drawn h) ->
  timers_step h (put_entry (entropy h (drawn h)) e (drew h)).
Proof.
  intros Hfresh Hid. split; [done|]. split; [simpl; lia|]. intros k. simpl.
  destruct (decide (entropy h (drawn h) = k)) as [<-|Hne].
  - rewrite Hfresh, lookup_insert_eq. split; [done|].
    exists (drawn h). split; [lia|done].
  - rewrite lookup_insert_ne by done.
    destruct (entries (timer h) !! k); [apply same_but_status_refl | done].
Qed.

Lemma after_timers_step (toISO : Z -> option string) (label : string) (delayMs : Z)
    (action : TimerAction) (h : Heap) :
  Inj (=) (=) (entropy h) -> timers_wf h ->
  timers_step h (TimerService.after toISO label delayMs action h).2.
Proof.
  intros Hinj Hwf. rewrite after_unfold. cbv zeta.
  match goal with |- context [Scheduler.addDelayed ?n ?d ?f ?h1] =>
    pose proof (addDelayed_stays n d f h1) as Hst;
    apply (timers_step_within fp_scheduler) in Hst; [|done..];
    assert (Hnew : timers_step h h1)
      by (apply new_entry_step; [by apply next_id_is_fresh | done]);
    destruct (Scheduler.addDelayed n d f h1) as [[?|?] ?]
  end; cbn [fst snd] in *; by eapply timers_step_trans.
Qed.

Lemma cron_timers_step (toISO : Z -> option string) (label cronExpr : string)
    (action : TimerAction) (h : Heap) :
  Inj (=) (=) (entropy h) -> timers_wf h ->
  timers_step h (TimerService.cron toISO label cronExpr action h).2.
Proof.
  intros Hinj Hwf. rewrite cron_unfold. cbv zeta.
  match goal with |- context [Scheduler.add ?n ?d ?f ?h1] =>
    pose proof (add_stays n d f h1) as Hst;
    apply (timers_step_within fp_scheduler) in Hst; [|done..];
    assert (Hnew : timers_step h h1)
      by (apply new_entry_step; [by apply next_id_is_fresh | done]);
    destruct (Scheduler.add n d f h1) as [[?|?] ?]
  end; cbn [fst snd] in *; by eapply timers_step_trans.
Qed.

Lemma JobFn_call_only_status (fn : JobFn) (h : Heap) :
  exists id, only_status_changed id h (JobFn_call fn h).2.
Proof.
  destruct fn as [id action|id action|payload].
  - exists id. apply after_closure_only_status.
  - exists id. apply cron_closure_only_status.
  - exists "". apply only_status_changed_same. cbn [JobFn_call].
    by destruct (send_frame payload h) as [es ->].
Qed.

Lemma only_status_changed_timers (id : string) (h1 h1' h2 h2' : Heap) :
  timer h1' = timer h1 -> timer h2' = timer h2 ->
  only_status_changed id h1 h2 -> only_status_changed id h1' h2'.
Proof. intros H1 H2 Ho k. rewrite H1, H2. apply Ho. Qed.

Lemma deliver_only_status (jobId : string) (h : Heap) :
  exists id, only_status_changed id h (Worker_.deliver jobId h).2.
Proof.
  unfold Worker_.deliver, bind, get_heap.
  destruct (queue (scheduler h)) as [q|];
    [|exists ""; by apply only_status_changed_same].
  destruct (worker (scheduler h)) as [w|];
    [|exists ""; by apply only_status_changed_same].
  destruct (held q !! jobId) as [job|];
    [|exists ""; by apply only_status_changed_same].
  assert (Hfin : forall h1, timer h1 = timer h ->
            exists id, only_status_changed id h
              (match Worker_.process job h1 with
               | (Ok _, h'') => (Ok tt, h'')
               | (Throw e, h'') =>
                   emit_effect (Console (error_job_failed (job_name job) e)) h''
               end).2).
  { intros h1 H1.
    assert (Hp : exists id, only_status_changed id h1 (Worker_.process job h1).2).
    { unfold Worker_.process, bind, get_heap.
      destruct (handlers (scheduler h1) !! job_name job) as [fn|];
        [apply JobFn_call_only_status|].
      exists "". by apply only_status_changed_same. }
    destruct Hp as [id Hp]. exists id.
    destruct (Worker_.process job h1) as [[[]|e] h2]; cbn [fst snd] in *.
    - by eapply only_status_changed_timers.
    - by eapply (only_status_changed_timers id h1 h h2). }
  destruct (job_opts job); cbn [set_scheduler ret fst snd]; by apply Hfin.
Qed.

Lemma call_timers_step (toISO : Z -> option string) (c : Call) (h : Heap) :
  Inj (=) (=) (entropy h) -> timers_wf h ->
  timers_step h (run_call toISO c h).
Proof.
  intros Hinj Hwf.
  pose proof (call_stays_within_footprint_aux toISO c h) as Hfp.
  destruct c; cbn [run_call footprint] in *;
    try (by eapply timers_step_within; [| |exact Hfp]).
  - by apply after_timers_step.
  - rewrite at_unfold. destruct (dt - clock h <? 0)%Z.
    + by apply timers_step_quiet.
    + by apply after_timers_step.
  - by apply cron_timers_step.
  - destruct Hfp as (_ & _ & _ & _ & _ & Hd & He & _).
    eapply timers_step_status; [apply cancel_only_status | by apply Hd | done].
  - destruct Hfp as (_ & _ & _ & _ & _ & Hd & He & _).
    destruct (deliver_only_status jobId h) as [id Ho].
    eapply timers_step_status; [exact Ho | by apply Hd | done].
Qed.

Lemma run_timers_step (toISO : Z -> option string) (cs : list Call) (h : Heap) :
  Inj (=) (=) (entropy h) -> timers_wf h ->
  timers_step h (run_calls toISO cs h) /\ timers_wf (run_calls toISO cs h).
Proof.
  intros Hinj Hwf. induction cs as [|c cs [IH IHwf]] using rev_ind.
  - split; [by apply timers_step_quiet | done].
  - rewrite run_calls_snoc.
    assert (Hinj' : Inj (=) (=) (entropy (run_calls toISO cs h))).
    { destruct IH as (-> & _). done. }
    pose proof (call_timers_step toISO c _ Hinj' IHwf) as Hc.
    split; [by eapply timers_step_trans | by eapply timers_wf_step].
Qed.

Lemma built_timers_wf (lib : BullMQ) (prisma : PrismaClient) (conn : ConnectionOptions)
    (env : option string) (now : Z) (uuids : nat -> string) :
  timers_wf (buildCoreServices lib prisma conn env now uuids) /\
  entropy (buildCoreServices lib prisma conn env now uuids) = uuids.
Proof.
  unfold buildCoreServices. destruct (Scheduler.new lib conn _). split; [|done].
  intros k e. simpl. by rewrite lookup_empty.
Qed.

(** X17.  In a process whose ids never repeat, at every point of every run,
    each timer entry is stored under its own id, and an entry that exists
    exists from then on with the same id, label, action, fireAt and
    createdAt: nothing deletes or replaces an entry, only its status
    changes. *)
Theorem timer_entries_are_kept
    (toISO : Z -> option string) (lib : BullMQ) (prisma : PrismaClient)
    (conn : ConnectionOptions) (env : option string) (now : Z) (uuids : nat -> string)
    (cs cs' : list Call) :
  Inj (=) (=) uuids ->
  let h := run_calls toISO cs (buildCoreServices lib prisma conn env now uuids) in
  let h' := run_calls toISO cs' h in
  forall k e, entries (timer h) !! k = Some e ->
    TimerEntry.id e = k /\
    exists e', entries (timer h') !! k = Some e' /\ same_but_status e e'.
Proof.
  intros Hinj h h' k e Hk.
  destruct (built_timers_wf lib prisma conn env now uuids) as [Hwf0 He0].
  assert (Hinj0 : Inj (=) (=)
            (entropy (buildCoreServices lib prisma conn env now uuids)))
    by by rewrite He0.
  destruct (run_timers_step toISO cs _ Hinj0 Hwf0) as [(He & _) Hwf].
  assert (Hinj1 : Inj (=) (=) (entropy h)) by (subst h; by rewrite He).
  destruct (run_timers_step toISO cs' h Hinj1 Hwf) as [(_ & _ & Hst) _].
  split; [by destruct (Hwf k e Hk)|].
  specialize (Hst k). fold h' in Hst. rewrite Hk in Hst.
  destruct (entries (timer h') !! k) as [e'|]; [eauto | done].
Qed.

Lemma uuid_n_inj : Inj (=) (=) uuid_n.
Proof.
  intros n m Heq. unfold uuid_n in Heq.
  apply (inj (String.app "uuid-")) in Heq. by apply (inj pretty) in Heq.
Qed.

Lemma timer_entries_are_kept_witness :
  exists e',
    entries (timer (run_calls iso_ms
                      [call_timer_cancel "uuid-0"; call_deliver "timer:uuid-0-5000";
                       call_after "y" 10 ping_action]
                      (run_calls iso_ms [call_after "x" 1000 ping_action] heap_up)))
      !! "uuid-0" = Some e' /\
    same_but_status (TimerEntry.mk "uuid-0" "x" ping_action pending "6000" "5000") e'.
Proof.
  exact (proj2 (timer_entries_are_kept iso_ms bullmq_up prisma_up localhost None 5000
                  uuid_n [call_after "x" 1000 ping_action]
                  [call_timer_cancel "uuid-0"; call_deliver "timer:uuid-0-5000";
                   call_after "y" 10 ping_action]
                  uuid_n_inj "uuid-0"
                  (TimerEntry.mk "uuid-0" "x" ping_action pending "6000" "5000")
                  eq_refl)).
Defined.

(** ** The listeners an emission leaves *)

Lemma remove_first_unique {A} (p : A -> bool) (l1 l2 : list A) (x : A) :
  Forall (fun y => p y = false) l1 -> p x = true ->
  EventBus.remove_first p (l1 ++ x :: l2) = (l1 ++ l2)%list.
Proof.
  intros Hl1 Hx. induction Hl1 as [|y l1 Hy _ IH]; simpl; [by rewrite Hx|].
  by rewrite Hy, IH.
Qed.

Lemma remove_last_unique {A} (p : A -> bool) (l1 l2 : list A) (x : A) :
  Forall (fun y => p y = false) l2 -> p x = true ->
  EventBus.remove_last p (l1 ++ x :: l2) = (l1 ++ l2)%list.
Proof.
  intros Hl2 Hx. unfold EventBus.remove_last.
  rewrite rev_app_distr. simpl. rewrite <- app_assoc. simpl.
  rewrite remove_first_unique; [|by apply Forall_rev|done].
  by rewrite rev_app_distr, !rev_involutive.
Qed.

Lemma survivors_sublist (a : Args) (ls : list Listener) :
  sublist (survivors a ls) ls.
Proof.
  induction ls as [|l rest IH]; simpl; [constructor|].
  assert (Hrest : sublist (match fn_call (l_fn l) a with
                           | Some _ => rest
                           | None => survivors a rest
                           end) rest) by (by destruct (fn_call (l_fn l) a)).
  destruct (l_once l); simpl; [by apply sublist_cons | by apply sublist_skip].
Qed.

(** Among registrations with distinct serial numbers, the wrapper of one is
    the only one that its own [removeListener] takes. *)
Lemma unwrap_one (pre rest : list Listener) (l : Listener) :
  NoDup (map l_serial (pre ++ l :: rest)) ->
  EventBus.remove_last (fun l0 => Nat.eqb (l_serial l0) (l_serial l)) (pre ++ l :: rest)
    = (pre ++ rest)%list.
Proof.
  intros Hnd. apply remove_last_unique; [|apply Nat.eqb_refl].
  rewrite map_app in Hnd. apply NoDup_app in Hnd as (_ & _ & Hnd).
  simpl in Hnd. apply NoDup_cons in Hnd as [Hnotin _].
  apply Forall_forall. intros y Hy. apply Nat.eqb_neq. intros Heq.
  apply Hnotin. rewrite <- Heq. apply list_elem_of_In, in_map, list_elem_of_In, Hy.
Qed.

(** While ['removeListener'] has no listener, a wrapper removes itself and
    nothing else happens. *)
Lemma before_call_quiet (nested : list nat -> string -> Args -> M (list nat))
    (fired : list nat) (event : string) (l : Listener) (pre rest : list Listener)
    (h : Heap) :
  listeners_of_heap event h = (pre ++ l :: rest)%list ->
  NoDup (map l_serial (pre ++ l :: rest)) ->
  listeners_of_heap "removeListener" h = [] ->
  exists h1,
    EventBus.before_call nested fired event l h
      = (Ok (if l_once l then l_serial l :: fired else fired), h1) /\
    listeners_of_heap event h1
      = ((pre ++ (if l_once l then [] else [l])) ++ rest)%list /\
    (forall ev, ev <> event -> listeners_of_heap ev h1 = listeners_of_heap ev h).
Proof.
  intros Hls Hnd Hrl. unfold EventBus.before_call. destruct (l_once l).
  - assert (Hne : event <> "removeListener").
    { intros ->. rewrite Hrl in Hls. by destruct pre. }
    unfold bind. rewrite removeListener_run, Hls.
    rewrite existsb_app. cbn [existsb]. rewrite Nat.eqb_refl.
    rewrite orb_true_l, orb_true_r. cbv zeta.
    rewrite (unwrap_one pre rest l Hnd).
    set (h1 := (set_events _ h).2).
    assert (Hev : forall ev, listeners_of_heap ev h1
                    = if decide (event = ev) then (pre ++ rest)%list
                      else listeners_of_heap ev h).
    { intros ev. unfold listeners_of_heap. subst h1. cbn [set_events snd events].
      by rewrite listeners_of_set. }
    rewrite (Hev "removeListener"), decide_False, Hrl by done.
    exists h1. split; [done|]. split.
    + by rewrite Hev, decide_True, app_nil_r.
    + intros ev Hev'. rewrite Hev, decide_False; done.
  - exists h. split; [done|]. split; [|done]. by rewrite Hls, <- app_assoc.
Qed.

Lemma call_listeners_step (nested : list nat -> string -> Args -> M (list nat))
    (fired fired' : list nat) (event : string) (a : Args) (l : Listener)
    (rest : list Listener) (h h1 : Heap) :
  l_once l && existsb (Nat.eqb (l_serial l)) fired = false ->
  EventBus.before_call nested fired event l h = (Ok fired', h1) ->
  EventBus.call_listeners nested fired event a (l :: rest) h
    = match fn_call (l_fn l) a with
      | Some e => (Throw e, traced [EventBus.call_effect event l a] h1)
      | None =>
          EventBus.call_listeners nested fired' event a rest
            (traced [EventBus.call_effect event l a] h1)
      end.
Proof.
  intros Hf Hb. cbn [EventBus.call_listeners]. rewrite Hf.
  unfold bind at 1. rewrite Hb. unfold bind, emit_effect.
  by destruct (fn_call (l_fn l) a).
Qed.

Lemma call_listeners_leaves (nested : list nat -> string -> Args -> M (list nat))
    (event : string) (a : Args) (ls : list Listener) :
  forall (pre : list Listener) (fired : list nat) (h : Heap),
    listeners_of_heap event h = (pre ++ ls)%list ->
    NoDup (map l_serial (pre ++ ls)) ->
    listeners_of_heap "removeListener" h = [] ->
    Forall (fun l => existsb (Nat.eqb (l_serial l)) fired = false) ls ->
    listeners_of_heap event (EventBus.call_listeners nested fired event a ls h).2
      = (pre ++ survivors a ls)%list /\
    (forall ev, ev <> event ->
       listeners_of_heap ev (EventBus.call_listeners nested fired event a ls h).2
         = listeners_of_heap ev h).
Proof.
  induction ls as [|l rest IH]; intros pre fired h Hls Hnd Hrl Hfired; [by simpl|].
  apply Forall_cons in Hfired as [Hl Hrest].
  destruct (before_call_quiet nested fired event l pre rest h Hls Hnd Hrl)
    as (h1 & Hb & Hls1 & Hoth1).
  rewrite (call_listeners_step _ _ _ _ _ _ _ _ _ (andb_false_intro2 _ _ Hl) Hb).
  set (h2 := traced _ h1).
  assert (H2 : forall ev, listeners_of_heap ev h2 = listeners_of_heap ev h1) by done.
  simpl survivors. rewrite (app_assoc pre).
  destruct (fn_call (l_fn l) a) as [e|]; cbn [fst snd].
  - rewrite H2. split; [done|]. intros ev Hev. rewrite H2. by apply Hoth1.
  - assert (Hne : event <> "removeListener").
    { intros ->. rewrite Hrl in Hls. by destruct pre. }
    destruct (IH (pre ++ (if l_once l then [] else [l]))%list
                (if l_once l then l_serial l :: fired else fired) h2) as (Hr & Ho).
    + by rewrite H2.
    + eapply sublist_NoDup; [exact Hnd|]. apply sublist_map.
      destruct (l_once l).
      * rewrite app_nil_r. apply sublist_app; [done|]. by apply sublist_cons.
      * by rewrite <- app_assoc.
    + rewrite H2, Hoth1 by done. exact Hrl.
    + destruct (l_once l); [|done].
      apply Forall_forall. intros x Hx. cbn [existsb].
      rewrite (proj1 (Forall_forall _ _) Hrest x Hx), orb_false_r.
      apply Nat.eqb_neq. intros Heq.
      rewrite map_app in Hnd. apply NoDup_app in Hnd as (_ & _ & Hnd).
      simpl in Hnd. apply NoDup_cons in Hnd as [Hnotin _].
      apply Hnotin. rewrite <- Heq.
      apply list_elem_of_In, in_map, list_elem_of_In, Hx.
    + split; [done|]. intros ev Hev. rewrite (Ho ev Hev), H2. by apply Hoth1.
Qed.

Lemma emit_leaves (event : string) (payload : JsVal) (h : Heap) :
  NoDup (map l_serial (listeners_of_heap event h)) ->
  listeners_of_heap "removeListener" h = [] ->
  listeners_of_heap event (EventBus.emit event payload h).2
    = survivors (args_payload payload) (listeners_of_heap event h) /\
  (forall ev, ev <> event ->
     listeners_of_heap ev (EventBus.emit event payload h).2 = listeners_of_heap ev h).
Proof.
  intros Hnd Hrl. rewrite emit_unfold. cbv zeta. cbn [snd].
  unfold EventBus.fuel_for. rewrite emit_S.
  destruct (listeners_of_heap event h) as [|l rest] eqn:Hls.
  - cbn [snd survivors]. by rewrite Hls.
  - rewrite <- Hls in *.
    apply (call_listeners_leaves _ event _ _ [] [] h); [done|done|done|].
    by apply Forall_forall.
Qed.

Lemma bus_wf_new : bus_wf EventBus.new.
Proof. intros event. unfold EventBus.listeners_of. simpl. rewrite lookup_empty. simpl.
  split; constructor. Qed.

(** Listener lists that are sublists of those of a well-formed bus, under a
    counter that is not smaller, form a well-formed bus. *)
Lemma bus_wf_sub (b b' : EventBusObj) :
  bus_wf b ->
  (forall ev, sublist (EventBus.listeners_of ev b') (EventBus.listeners_of ev b)) ->
  (next_serial (emitter b) <= next_serial (emitter b'))%nat ->
  bus_wf b'.
Proof.
  intros Hwf Hsub Hn ev. destruct (Hwf ev) as [Hnd Hlt]. split.
  - eapply sublist_NoDup; [exact Hnd|]. apply sublist_map, Hsub.
  - eapply sublist_Forall; [apply Hsub|].
    eapply Forall_impl; [exact Hlt|]. simpl. intros l Hl.
    by eapply Nat.lt_le_trans.
Qed.

Lemma shrinks_keeps_bus {A} (m : M A) : shrinks m -> keeps_bus m.
Proof.
  intros Hm h Hwf. destruct (Hm h) as [Hn Hs].
  apply (bus_wf_sub (events h)); [done|done|]. by rewrite Hn.
Qed.

Lemma keeps_bus_bind {A B} (m : M A) (k : A -> M B) :
  keeps_bus m -> (forall a, keeps_bus (k a)) -> keeps_bus (bind m k).
Proof.
  intros Hm Hk h Hwf. unfold bind. specialize (Hm h Hwf).
  destruct (m h) as [[a|e] h1]; [by apply Hk | done].
Qed.

Lemma append_keeps_bus (event : string) (handler : EventHandler) (once_ : bool)
    (h : Heap) :
  bus_wf (events h) ->
  bus_wf (EventBus.set_listeners event
            (EventBus.listeners_of event (events h)
               ++ [mkListener (next_serial (emitter (events h))) handler once_])
            (S (next_serial (emitter (events h)))) (events h)).
Proof.
  intros Hwf ev. cbn [emitter next_serial EventBus.set_listeners].
  rewrite listeners_of_set. destruct (Hwf ev) as [Hnd Hlt].
  destruct (decide (event = ev)) as [->|Hne].
  - split.
    + rewrite map_app. apply NoDup_app. split; [done|].
      split; [|simpl; apply NoDup_singleton].
      intros n Hn Hn'. apply list_elem_of_singleton in Hn'. subst n.
      apply list_elem_of_In, in_map_iff in Hn as (l & Hl & Hin).
      apply list_elem_of_In in Hin.
      pose proof (proj1 (Forall_forall _ _) Hlt l Hin) as Hlt'.
      simpl in Hlt', Hl. lia.
    + apply Forall_app. split.
      * eapply Forall_impl; [exact Hlt|]. simpl. intros l Hl. lia.
      * constructor; [simpl; lia | constructor].
  - split; [done|]. eapply Forall_impl; [exact Hlt|]. simpl. intros l Hl. lia.
Qed.

Lemma addListener_keeps_bus (event : string) (handler : EventHandler) (once_ : bool) :
  keeps_bus (EventBus.addListener event handler once_).
Proof.
  unfold EventBus.addListener. intros h Hwf. unfold bind at 1. cbn [get_heap].
  apply keeps_bus_bind; [|intros _|exact Hwf].
  - destruct (EventBus.listeners_of "newListener" (events h));
      [by apply shrinks_keeps_bus, shrinks_same|].
    apply shrinks_keeps_bus, shrinks_bind; [apply emit__shrinks|].
    intros. by apply shrinks_same.
  - intros h1 H1. unfold bind. cbn [get_heap set_events snd events].
    by apply append_keeps_bus.
Qed.

Lemma off_shrinks (event : string) (handler : EventHandler) :
  shrinks (EventBus.off event handler).
Proof.
  intros h. unfold EventBus.off, bind at 1. cbn [get_heap].
  apply shrinks_bind; [|intros; by apply shrinks_same].
  apply removeListener_shrinks, emit__shrinks.
Qed.

Lemma off_keeps_bus (event : string) (handler : EventHandler) :
  keeps_bus (EventBus.off event handler).
Proof. apply shrinks_keeps_bus, off_shrinks. Qed.

Lemma emit_keeps_bus (event : string) (payload : JsVal) :
  keeps_bus (EventBus.emit event payload).
Proof. apply shrinks_keeps_bus, emit_shrinks. Qed.

Lemma stays_keeps_bus {A} (fp : Footprint) (m : M A) :
  w_events fp = false -> stays fp m -> keeps_bus m.
Proof.
  intros Hw Hm h Hwf. destruct (Hm h) as (_ & He & _). by rewrite (He Hw).
Qed.

Lemma dispatch_keeps_bus (action : TimerAction) : keeps_bus (TimerService.dispatch action).
Proof.
  destruct action; cbn [TimerService.dispatch]; [|apply emit_keeps_bus..].
  apply (stays_keeps_bus fp_trace); [done | apply send_stays].
Qed.

Lemma JobFn_call_keeps_bus (fn : JobFn) : keeps_bus (JobFn_call fn).
Proof.
  assert (Hm : forall id st, keeps_bus (TimerService.markStatus id st)).
  { intros. apply (stays_keeps_bus fp_timer); [done | apply markStatus_stays]. }
  destruct fn; cbn [JobFn_call].
  - apply keeps_bus_bind; [apply Hm | intros; apply dispatch_keeps_bus].
  - apply keeps_bus_bind; [apply Hm|]. intros _.
    apply keeps_bus_bind; [apply dispatch_keeps_bus | intros; apply Hm].
  - apply (stays_keeps_bus fp_trace); [done | apply send_stays].
Qed.

Lemma deliver_keeps_bus (jobId : string) : keeps_bus (Worker_.deliver jobId).
Proof.
  intros h Hwf. unfold Worker_.deliver, bind, get_heap.
  destruct (queue (scheduler h)) as [q|]; [|done].
  destruct (worker (scheduler h)) as [w|]; [|done].
  destruct (held q !! jobId) as [job|]; [|done].
  assert (Hfin : forall h1, bus_wf (events h1) ->
            bus_wf (events
              (match Worker_.process job h1 with
               | (Ok _, h'') => (Ok tt, h'')
               | (Throw e, h'') =>
                   emit_effect (Console (error_job_failed (job_name job) e)) h''
               end).2)).
  { intros h1 H1.
    assert (Hp : bus_wf (events (Worker_.process job h1).2)).
    { unfold Worker_.process, bind, get_heap.
      destruct (handlers (scheduler h1) !! job_name job) as [fn|]; [|done].
      by apply JobFn_call_keeps_bus. }
    by destruct (Worker_.process job h1) as [[[]|e] h2]. }
  destruct (job_opts job); cbn [set_scheduler ret fst snd]; by apply Hfin.
Qed.

Lemma call_keeps_bus (toISO : Z -> option string) (c : Call) (h : Heap) :
  bus_wf (events h) -> bus_wf (events (run_call toISO c h)).
Proof.
  intros Hwf.
  pose proof (call_stays_within_footprint_aux toISO c h) as Hfp.
  destruct c; cbn [run_call footprint] in *;
    try (destruct Hfp as (_ & He & _); by rewrite He).
  - by apply addListener_keeps_bus.
  - by apply addListener_keeps_bus.
  - by apply off_keeps_bus.
  - by apply emit_keeps_bus.
  - by apply deliver_keeps_bus.
Qed.

Lemma run_keeps_bus (toISO : Z -> option string) (cs : list Call) (h : Heap) :
  bus_wf (events h) -> bus_wf (events (run_calls toISO cs h)).
Proof.
  intros Hwf. induction cs as [|c cs IH] using rev_ind; [done|].
  rewrite run_calls_snoc. by apply call_keeps_bus.
Qed.

Lemma built_bus_wf (lib : BullMQ) (prisma : PrismaClient) (conn : ConnectionOptions)
    (env : option string) (now : Z) (uuids : nat -> string) :
  bus_wf (events (buildCoreServices lib prisma conn env now uuids)).
Proof.
  unfold buildCoreServices. destruct (Scheduler.new lib conn _). apply bus_wf_new.
Qed.

(** X18.  At every point of every run, while ['removeListener'] has no
    listener, an emission leaves registered, for its event, exactly the
    survivors: a listener added by [once] is gone as soon as the emission
    has reached it, whether it returned or threw; a listener added by [on]
    stays; the listeners after one that threw are all still there, those
    added by [once] included, because they were not reached.  The listeners
    of every other event are untouched. *)
Theorem emit_leaves_the_survivors
    (toISO : Z -> option string) (lib : BullMQ) (prisma : PrismaClient)
    (conn : ConnectionOptions) (env : option string) (now : Z) (uuids : nat -> string)
    (cs : list Call) (event : string) (payload : JsVal) :
  let h := run_calls toISO cs (buildCoreServices lib prisma conn env now uuids) in
  listeners_of_heap "removeListener" h = [] ->
  listeners_of_heap event (EventBus.emit event payload h).2
    = survivors (args_payload payload) (listeners_of_heap event h) /\
  forall ev, ev <> event ->
    listeners_of_heap ev (EventBus.emit event payload h).2 = listeners_of_heap ev h.
Proof.
  intros h Hrl.
  assert (Hwf : bus_wf (events h)) by apply run_keeps_bus, built_bus_wf.
  destruct (Hwf event) as [Hnd _].
  by apply emit_leaves.
Qed.

Lemma emit_leaves_the_survivors_witness :
  listeners_of_heap "tick"
    (EventBus.emit "tick" JsNull
       (run_calls iso_ms [call_once "tick" quiet; call_on "tick" loud; call_on "tick" quiet]
          heap_up)).2
  = [mkListener 1 loud false; mkListener 2 quiet false].
Proof.
  exact (proj1 (emit_leaves_the_survivors iso_ms bullmq_up prisma_up localhost None 5000
                  uuid_n [call_once "tick" quiet; call_on "tick" loud; call_on "tick" quiet]
                  "tick" JsNull eq_refl)).
Defined.

(** ** The status [failed] *)

Lemma stays_keeps_no_failed {A} (fp : Footprint) (m : M A) :
  w_timer fp = false -> stays fp m -> keeps_no_failed m.
Proof.
  intros Hw Hm h Hn. destruct (Hm h) as (_ & _ & _ & Ht & _).
  unfold no_failed. by rewrite (Ht Hw).
Qed.

Lemma keeps_no_failed_bind {A B} (m : M A) (k : A -> M B) :
  keeps_no_failed m -> (forall a, keeps_no_failed (k a)) -> keeps_no_failed (bind m k).
Proof.
  intros Hm Hk h Hn. unfold bind. specialize (Hm h Hn).
  destruct (m h) as [[a|e] h1]; [by apply Hk | done].
Qed.

Lemma set_entry_keeps_no_failed (id : string) (e : TimerEntry.t) :
  TimerEntry.status e <> failed -> keeps_no_failed (TimerService.set_entry id e).
Proof.
  intros He h Hn k e'. unfold TimerService.set_entry, bind, get_heap. simpl.
  destruct (decide (k = id)) as [->|Hne].
  - rewrite lookup_insert_eq. by intros [= <-].
  - rewrite lookup_insert_ne by done. apply Hn.
Qed.

Lemma markStatus_keeps_no_failed (id : string) (st : TimerStatus) :
  st <> failed -> keeps_no_failed (TimerService.markStatus id st).
Proof.
  intros Hst h Hn k e'. unfold TimerService.markStatus, bind, get_heap.
  destruct (entries (timer h) !! id) as [e|] eqn:Hid; simpl; [|apply Hn].
  destruct (decide (k = id)) as [->|Hne].
  - rewrite lookup_insert_eq. intros [= <-]. by destruct e.
  - rewrite lookup_insert_ne by done. apply Hn.
Qed.

Lemma after_keeps_no_failed (toISO : Z -> option string) (label : string)
    (delayMs : Z) (action : TimerAction) :
  keeps_no_failed (TimerService.after toISO label delayMs action).
Proof.
  unfold TimerService.after.
  apply keeps_no_failed_bind;
    [apply (stays_keeps_no_failed (mkFootprint false false false false false true));
       [done | by apply stays_randomUUID]|]. intros id.
  apply keeps_no_failed_bind;
    [apply (stays_keeps_no_failed fp_trace); [done | apply stays_Date_now]|].
  intros now. cbv zeta.
  apply keeps_no_failed_bind; [by apply set_entry_keeps_no_failed|]. intros _.
  apply keeps_no_failed_bind;
    [apply (stays_keeps_no_failed fp_scheduler); [done | apply addDelayed_stays]|].
  intros j. apply (stays_keeps_no_failed fp_trace); [done | apply stays_ret].
Qed.

Lemma cron_keeps_no_failed (toISO : Z -> option string) (label cronExpr : string)
    (action : TimerAction) :
  keeps_no_failed (TimerService.cron toISO label cronExpr action).
Proof.
  unfold TimerService.cron.
  apply keeps_no_failed_bind;
    [apply (stays_keeps_no_failed (mkFootprint false false false false false true));
       [done | by apply stays_randomUUID]|]. intros id.
  apply keeps_no_failed_bind;
    [apply (stays_keeps_no_failed fp_trace); [done | apply stays_Date_now]|].
  intros now. cbv zeta.
  apply keeps_no_failed_bind; [by apply set_entry_keeps_no_failed|]. intros _.
  apply keeps_no_failed_bind;
    [apply (stays_keeps_no_failed fp_scheduler); [done | apply add_stays]|].
  intros j. apply (stays_keeps_no_failed fp_trace); [done | apply stays_ret].
Qed.

Lemma timer_cancel_keeps_no_failed (timerId : string) :
  keeps_no_failed (TimerService.cancel timerId).
Proof.
  intros h Hn. unfold TimerService.cancel. unfold bind at 1. unfold get_heap.
  cbn [fst snd]. destruct (entries (timer h) !! timerId); [|done].
  revert h Hn. change (keeps_no_failed
    (Scheduler.remove ("timer:" +:+ timerId) ;;
     TimerService.markStatus timerId cancelled)).
  apply keeps_no_failed_bind;
    [apply (stays_keeps_no_failed fp_scheduler); [done | apply remove_stays]|].
  intros _. by apply markStatus_keeps_no_failed.
Qed.

Lemma JobFn_call_keeps_no_failed (fn : JobFn) : keeps_no_failed (JobFn_call fn).
Proof.
  assert (Hd : forall a, keeps_no_failed (TimerService.dispatch a)).
  { intros. apply (stays_keeps_no_failed fp_events); [done | apply dispatch_stays]. }
  destruct fn; cbn [JobFn_call].
  - apply keeps_no_failed_bind; [by apply markStatus_keeps_no_failed | intros; apply Hd].
  - apply keeps_no_failed_bind; [by apply markStatus_keeps_no_failed|]. intros _.
    apply keeps_no_failed_bind; [apply Hd|]. intros _.
    by apply markStatus_keeps_no_failed.
  - apply (stays_keeps_no_failed fp_trace); [done | apply send_stays].
Qed.

Lemma deliver_keeps_no_failed (jobId : string) : keeps_no_failed (Worker_.deliver jobId).
Proof.
  intros h Hn. unfold Worker_.deliver, bind, get_heap.
  destruct (queue (scheduler h)) as [q|]; [|done].
  destruct (worker (scheduler h)) as [w|]; [|done].
  destruct (held q !! jobId) as [job|]; [|done].
  assert (Hfin : forall h1, no_failed h1 ->
            no_failed
              (match Worker_.process job h1 with
               | (Ok _, h'') => (Ok tt, h'')
               | (Throw e, h'') =>
                   emit_effect (Console (error_job_failed (job_name job) e)) h''
               end).2).
  { intros h1 H1.
    assert (Hp : no_failed (Worker_.process job h1).2).
    { unfold Worker_.process, bind, get_heap.
      destruct (handlers (scheduler h1) !! job_name job) as [fn|]; [|done].
      by apply JobFn_call_keeps_no_failed. }
    by destruct (Worker_.process job h1) as [[[]|e] h2]. }
  destruct (job_opts job); cbn [set_scheduler ret fst snd]; by apply Hfin.
Qed.

Lemma call_keeps_no_failed (toISO : Z -> option string) (c : Call) (h : Heap) :
  no_failed h -> no_failed (run_call toISO c h).
Proof.
  intros Hn.
  pose proof (call_stays_within_footprint_aux toISO c h) as Hfp.
  destruct c; cbn [run_call footprint] in *;
    try (destruct Hfp as (_ & _ & _ & Ht & _); unfold no_failed; by rewrite Ht).
  - by apply after_keeps_no_failed.
  - rewrite at_unfold. destruct (dt - clock h <? 0)%Z; [done|].
    by apply after_keeps_no_failed.
  - by apply cron_keeps_no_failed.
  - by apply timer_cancel_keeps_no_failed.
  - by apply deliver_keeps_no_failed.
Qed.

(** X19.  The status [failed] is never set: at every point of every run of
    the core, whatever was called and whatever threw, no timer entry has it.
    An entry is created [pending]; a delivery writes [fired], and [pending]
    again for a cron timer; [cancel] writes [cancelled]; nothing else writes
    a status. *)
Theorem status_failed_is_never_set
    (toISO : Z -> option string) (lib : BullMQ) (prisma : PrismaClient)
    (conn : ConnectionOptions) (env : option string) (now : Z) (uuids : nat -> string)
    (cs : list Call) (id : string) :
  status_of id (run_calls toISO cs (buildCoreServices lib prisma conn env now uuids))
    <> Some failed.
Proof.
  assert (Hn : no_failed
            (run_calls toISO cs (buildCoreServices lib prisma conn env now uuids))).
  { induction cs as [|c cs IH] using rev_ind.
    - unfold buildCoreServices. destruct (Scheduler.new lib conn _).
      intros k e. simpl. by rewrite lookup_empty.
    - rewrite run_calls_snoc. by apply call_keeps_no_failed. }
  unfold status_of.
  destruct (entries (timer _) !! id) as [e|] eqn:He; simpl; [|done].
  intros [= Hs]. by apply (Hn id e).
Qed.

(** ** A one-shot timer fires once *)

(** X20.  On a ready scheduler [after] returns the id of a [pending] entry.
    When the broker delivers the job, the entry is marked [fired] before the
    action is dispatched, and stays [fired] whether the dispatch returned or
    threw (a throw is only logged by the worker).  The delivery consumes the
    job: a second delivery of the same id does nothing, so the action is
    dispatched once. *)
Theorem one_shot_fires_once
    (toISO : Z -> option string) (label : string) (delayMs : Z)
    (action : TimerAction) (h : Heap) (q : Queue) (w : Worker) :
  Scheduler.ready_queue (scheduler h) = Some q ->
  worker (scheduler h) = Some w ->
  let id := entropy h (drawn h) in
  let name := timer_job_name id in
  let jobId := delayed_job_id name (clock h) in
  held q !! jobId = None ->
  let h1 := (TimerService.after toISO label delayMs action h).2 in
  let h2 := (Worker_.deliver jobId h1).2 in
  (TimerService.after toISO label delayMs action h).1 = Ok id /\
  status_of id h1 = Some pending /\
  (exists h3,
     status_of id h3 = Some fired /\
     trace h3 = trace h /\
     Worker_.deliver jobId h1 = settle_job name (TimerService.dispatch action h3)) /\
  status_of id h2 = Some fired /\
  Worker_.deliver jobId h2 = (Ok tt, h2).
Proof.
  intros Hq Hw id name jobId Hfresh h1 h2.
  pose proof (after_ready toISO label delayMs action h q Hq Hfresh) as Hafter.
  fold id name jobId in Hafter.
  set (job := mkBullJob (Some jobId) name (opts_delay delayMs)) in *.
  set (entry := TimerEntry.mk id label action pending _ _) in Hafter.
  subst h2 h1. rewrite Hafter. cbn [fst snd].
  set (h1 := put_scheduler _ _).
  set (q1 := mkQueue (<[jobId := job]> (held q)) (next_seq q)).
  assert (He1 : entries (timer h1) !! id = Some entry).
  { subst h1. simpl. by rewrite lookup_insert_eq. }
  assert (Hq1 : queue (scheduler h1) = Some q1) by reflexivity.
  assert (Hj1 : held q1 !! jobId = Some job).
  { subst q1. simpl. by rewrite lookup_insert_eq. }
  split; [done|]. split; [unfold status_of; by rewrite He1|].
  rewrite (deliver_delayed jobId h1 q1 w job delayMs Hq1 Hw Hj1 eq_refl).
  set (h1' := put_scheduler _ h1).
  assert (Hh1' : handlers (scheduler h1') !! job_name job = Some (after_closure id action)).
  { subst h1' h1. simpl. by rewrite lookup_insert_eq. }
  rewrite (process_registered _ _ _ Hh1'), after_closure_unfold.
  assert (He1' : entries (timer h1') !! id = Some entry) by exact He1.
  rewrite (markStatus_found _ _ _ _ He1'). cbn [fst snd].
  set (h3 := put_entry id _ h1').
  assert (Hs3 : status_of id h3 = Some fired).
  { unfold status_of. subst h3. simpl. by rewrite lookup_insert_eq. }
  change (job_name job) with name.
  split; [by exists h3|].
  destruct (dispatch_frame action h3) as [Ht Hs].
  assert (Hfin : timer (settle_job name (TimerService.dispatch action h3)).2 = timer h3 /\
                 scheduler (settle_job name (TimerService.dispatch action h3)).2
                   = scheduler h3).
  { unfold settle_job.
    by destruct (TimerService.dispatch action h3) as [[[]|e] h4]. }
  destruct Hfin as [Ht' Hs']. split.
  { unfold status_of in *. by rewrite Ht'. }
  eapply deliver_not_held.
  - rewrite Hs'. reflexivity.
  - subst q1. simpl. apply lookup_delete_eq.
Qed.

Lemma one_shot_fires_once_witness :
  status_of "uuid-0" (Worker_.deliver "timer:uuid-0-5000" heap_after).2 = Some fired /\
  Worker_.deliver "timer:uuid-0-5000" (Worker_.deliver "timer:uuid-0-5000" heap_after).2
    = (Ok tt, (Worker_.deliver "timer:uuid-0-5000" heap_after).2).
Proof.
  destruct (one_shot_fires_once iso_ms "x" 1000 ping_action heap_listening
              (mkQueue ∅ 0) mkWorker eq_refl eq_refl eq_refl)
    as (_ & _ & _ & Hfired & Hagain).
  exact (conj Hfired Hagain).
Defined.

(** ** Two jobs under one name *)

(** X21.  The scheduler keeps its handlers by the name of the job, not by
    its id.  When [addDelayed] is called a second time under a name, at the
    same instant or any other, the first job is still held with its own
    delay, but the handler under the name is now the second function: when
    the broker delivers the first job, the worker runs the second function,
    and the first is never run: that delivery takes the job out of the
    queue. *)
Theorem same_name_latest_handler_runs
    (name : string) (d1 d2 ms : Z) (fn1 fn2 : JobFn) (h : Heap) (q : Queue) (w : Worker) :
  Scheduler.ready_queue (scheduler h) = Some q ->
  worker (scheduler h) = Some w ->
  let j1 := delayed_job_id name (clock h) in
  held q !! j1 = None ->
  let h1 := (Scheduler.addDelayed name d1 fn1 h).2 in
  let h2 := (Scheduler.addDelayed name d2 fn2 (advance ms h1)).2 in
  (Scheduler.addDelayed name d1 fn1 h).1 = Ok j1 /\
  handlers (scheduler h1) !! name = Some fn1 /\
  handlers (scheduler h2) !! name = Some fn2 /\
  (exists q2, queue (scheduler h2) = Some q2 /\
              held q2 !! j1 = Some (mkBullJob (Some j1) name (opts_delay d1))) /\
  exists h3,
    events h3 = events h /\ notify h3 = notify h /\ timer h3 = timer h /\
    trace h3 = trace h /\
    Worker_.deliver j1 h2 = settle_job name (JobFn_call fn2 h3) /\
    Worker_.deliver j1 (Worker_.deliver j1 h2).2
      = (Ok tt, (Worker_.deliver j1 h2).2).
Proof.
  intros Hq Hw j1 Hfresh h1 h2.
  destruct (ready_queue_Some _ _ Hq) as (_ & Hr & _).
  pose proof (addDelayed_fresh_run name d1 fn1 h q Hq Hfresh) as Hadd.
  fold j1 in Hadd. subst h2 h1. rewrite Hadd. cbn [fst snd].
  set (job := mkBullJob (Some j1) name (opts_delay d1)).
  set (q1 := mkQueue (<[j1 := job]> (held q)) (next_seq q)).
  set (h1 := put_scheduler _ h).
  assert (Hq1 : Scheduler.ready_queue (scheduler (advance ms h1)) = Some q1)
    by (by apply ready_queue_with_queue).
  assert (Hj1 : held q1 !! j1 = Some job) by (simpl; by rewrite lookup_insert_eq).
  split; [done|]. split; [simpl; by rewrite lookup_insert_eq|].
  rewrite (addDelayed_ready name d2 fn2 (advance ms h1) q1 Hq1). cbv zeta.
  set (j2 := delayed_job_id name (clock (advance ms h1))).
  set (jq := Queue_.add name (opts_delay d2) (Some j2) q1).
  assert (Hjq : held jq.2 !! j1 = Some job).
  { subst jq. unfold Queue_.add.
    destruct (held q1 !! j2) as [job2|] eqn:Hj2; cbn [snd]; [exact Hj1|].
    cbn [held]. rewrite lookup_insert_ne; [exact Hj1|].
    intros ->. by rewrite Hj1 in Hj2. }
  cbn [snd]. set (h2 := put_scheduler _ (advance ms h1)).
  assert (Hh2 : handlers (scheduler h2) !! name = Some fn2).
  { subst h2. simpl. by rewrite lookup_insert_eq. }
  split; [exact Hh2|]. split; [by exists jq.2|].
  rewrite (deliver_delayed j1 h2 jq.2 w job d1 eq_refl Hw Hjq eq_refl).
  set (h3 := put_scheduler _ h2).
  assert (Hh3 : handlers (scheduler h3) !! job_name job = Some fn2) by exact Hh2.
  rewrite (process_registered _ _ _ Hh3).
  exists h3. split; [done|]. split; [done|]. split; [done|]. split; [done|].
  split; [done|].
  pose proof (JobFn_call_scheduler fn2 h3) as Hsame.
  assert (Hfin : scheduler (settle_job (job_name job) (JobFn_call fn2 h3)).2
                 = scheduler h3).
  { unfold settle_job. by destruct (JobFn_call fn2 h3) as [[[]|e] h4]. }
  eapply deliver_not_held.
  - rewrite Hfin. reflexivity.
  - unfold Queue_.remove_job. cbn [job_id job held]. apply lookup_delete_eq.
Qed.

Lemma same_name_latest_handler_runs_witness :
  (Scheduler.addDelayed "digest" 1000 (after_closure "t" ping_action) heap_up).1
    = Ok "digest-5000" /\
  handlers
    (scheduler
       (Scheduler.addDelayed "digest" 2000 (schedule_closure hi_u1)
          (advance 10
             (Scheduler.addDelayed "digest" 1000
                (after_closure "t" ping_action) heap_up).2)).2)
    !! "digest" = Some (schedule_closure hi_u1).
Proof.
  destruct (same_name_latest_handler_runs "digest" 1000 2000 10
              (after_closure "t" ping_action) (schedule_closure hi_u1)
              heap_up (mkQueue ∅ 0) mkWorker eq_refl eq_refl eq_refl)
    as (Hid & _ & Hh & _).
  exact (conj Hid Hh).
Defined.

(** ** Jobs that outlive the process *)




(** ** The route POST /<prefix>/trigger *)

Lemma trigger_schema_spec (b : TimeModule.TriggerBody) :
  TimeModule.triggerBodySchema b = false <->
  TimeModule.body_label b = "" \/ (TimeModule.body_delayMs b <= 0)%Z.
Proof.
  unfold TimeModule.triggerBodySchema.
  destruct (String.eqb_spec (TimeModule.body_label b) "") as [Hl|Hl];
    destruct (Z.ltb_spec 0 (TimeModule.body_delayMs b)); simpl;
    split; try done; try (intros _; by left); try (intros _; right; lia).
  intros [?|?]; [done | lia].
Qed.

Lemma trigger_valid (toISO : Z -> option string) (b : TimeModule.TriggerBody)
    (h : Heap) :
  TimeModule.triggerBodySchema b = true ->
  let r := TimerService.after toISO (TimeModule.body_label b)
             (TimeModule.body_delayMs b) (TimeModule.body_action b) h in
  TimeModule.trigger toISO b h
    = match r.1 with
      | Ok id =>
          (Ok (TimeModule.trigger_scheduled id (TimeModule.body_label b)
                 (TimeModule.body_delayMs b)
                 (toISO (clock r.2 + TimeModule.body_delayMs b))), r.2)
      | Throw e => (Throw e, r.2)
      end.
Proof.
  intros Hv. unfold TimeModule.trigger. rewrite Hv. unfold bind, Date_now.
  cbv zeta. by destruct (TimerService.after _ _ _ _ _) as [[id|e] h1].
Qed.

(** X23.  The route answers 400 exactly when the label is empty or the
    delay is not positive, and then nothing was called: the heap is as it
    was and no id was drawn.  Any other request reaches [after] with the
    label, delay and action of the body, and the route catches nothing: on a
    ready scheduler the answer carries the id of the new [pending] entry; on
    a scheduler that is not ready the request fails with
    [SchedulerUnavailable] and the [pending] entry that [after] stored
    stays behind. *)
Theorem trigger_rejects_or_schedules
    (toISO : Z -> option string) (b : TimeModule.TriggerBody) (h : Heap) :
  let r := TimeModule.trigger toISO b h in
  let id := entropy h (drawn h) in
  let entry :=
    TimerEntry.mk id (TimeModule.body_label b) (TimeModule.body_action b) pending
      (default "" (toISO (clock h + TimeModule.body_delayMs b)))
      (default "" (toISO (clock h))) in
  (r.1 = Ok TimeModule.trigger_bad_request <->
     TimeModule.body_label b = "" \/ (TimeModule.body_delayMs b <= 0)%Z) /\
  (r.1 = Ok TimeModule.trigger_bad_request -> r.2 = h) /\
  (r.1 <> Ok TimeModule.trigger_bad_request ->
     entries (timer r.2) !! id = Some entry /\
     (Scheduler.isReady (scheduler h) = true ->
        exists fireAt,
          r.1 = Ok (TimeModule.trigger_scheduled id (TimeModule.body_label b)
                      (TimeModule.body_delayMs b) fireAt)) /\
     (Scheduler.isReady (scheduler h) = false ->
        r.1 = Throw SchedulerUnavailable /\ scheduler r.2 = scheduler h)).
Proof.
  cbv zeta.
  destruct (TimeModule.triggerBodySchema b) eqn:Hv.
  - assert (Hnot : ~ (TimeModule.body_label b = "" \/ (TimeModule.body_delayMs b <= 0)%Z)).
    { intros Hbad%trigger_schema_spec. congruence. }
    rewrite (trigger_valid toISO b h Hv). cbv zeta.
    assert (Hbad : forall r : result string * Heap,
              (match r.1 with
               | Ok id =>
                   (Ok (TimeModule.trigger_scheduled id (TimeModule.body_label b)
                          (TimeModule.body_delayMs b)
                          (toISO (clock r.2 + TimeModule.body_delayMs b))), r.2)
               | Throw e => (Throw e, r.2)
               end).1 <> Ok TimeModule.trigger_bad_request).
    { intros [[?|?] ?]; simpl; congruence. }
    split; [split; [by intros ?%Hbad | done]|].
    split; [by intros ?%Hbad|]. intros _.
    destruct (Scheduler.isReady (scheduler h)) eqn:Hr.
    + destruct (after_registers toISO (TimeModule.body_label b)
                  (TimeModule.body_delayMs b) (TimeModule.body_action b) h Hr)
        as (Hid & _ & He).
      cbv zeta in Hid, He. rewrite Hid. cbn [fst snd].
      split; [exact He|]. split; [eauto | done].
    + rewrite (after_not_ready_run toISO (TimeModule.body_label b)
                 (TimeModule.body_delayMs b) (TimeModule.body_action b) h Hr).
      cbn [fst snd].
      split; [simpl; by rewrite lookup_insert_eq|]. split; [done|]. by split.
  - assert (Hrun : TimeModule.trigger toISO b h = (Ok TimeModule.trigger_bad_request, h)).
    { unfold TimeModule.trigger. by rewrite Hv. }
    rewrite Hrun. cbn [fst snd]. apply trigger_schema_spec in Hv.
    split; [done|]. split; [done|]. done.
Qed.

(** ** The dashboard's esc *)

Lemma esc_cons (a : Ascii.ascii) (s : string) :
  Dashboard.esc (String a s) = Dashboard.esc_char a +:+ Dashboard.esc s.
Proof.
  unfold Dashboard.esc, Dashboard.esc_char.
  cbn [Dashboard.replace_char].
  destruct (Ascii.eqb a Dashboard.amp) eqn:Ha; [reflexivity|].
  cbn [Dashboard.replace_char]. 
  destruct (Ascii.eqb a Dashboard.lt) eqn:Hl; [reflexivity|].
  cbn [Dashboard.replace_char]. 
  destruct (Ascii.eqb a Dashboard.gt) eqn:Hg; [reflexivity|].
  cbn [Dashboard.replace_char]. 
  destruct (Ascii.eqb a Dashboard.dquote) eqn:Hq; reflexivity.
Qed.

Lemma esc_single_pass (s : string) : Dashboard.esc s = Dashboard.esc_each s.
Proof.
  induction s as [|a s IH]; [reflexivity|].
  rewrite esc_cons. simpl. by rewrite IH.
Qed.

Lemma chars_app (s1 s2 : string) :
  Dashboard.chars (s1 +:+ s2) = (Dashboard.chars s1 ++ Dashboard.chars s2)%list.
Proof. induction s1 as [|a s1 IH]; simpl; [done | by rewrite IH]. Qed.

Lemma esc_char_safe (a c : Ascii.ascii) :
  c ∈ Dashboard.chars (Dashboard.esc_char a) ->
  c <> Dashboard.lt /\ c <> Dashboard.gt /\ c <> Dashboard.dquote.
Proof.
  unfold Dashboard.esc_char.
  destruct (Ascii.eqb_spec a Dashboard.amp) as [->|Ha].
  { simpl. rewrite !elem_of_cons, elem_of_nil.
    intros [->|[->|[->|[->|[->|[]]]]]]; repeat split; discriminate. }
  destruct (Ascii.eqb_spec a Dashboard.lt) as [->|Hl].
  { simpl. rewrite !elem_of_cons, elem_of_nil.
    intros [->|[->|[->|[->|[]]]]]; repeat split; discriminate. }
  destruct (Ascii.eqb_spec a Dashboard.gt) as [->|Hg].
  { simpl. rewrite !elem_of_cons, elem_of_nil.
    intros [->|[->|[->|[->|[]]]]]; repeat split; discriminate. }
  destruct (Ascii.eqb_spec a Dashboard.dquote) as [->|Hq].
  { simpl. rewrite !elem_of_cons, elem_of_nil.
    intros [->|[->|[->|[->|[->|[->|[]]]]]]]; repeat split; discriminate. }
  simpl. rewrite elem_of_cons, elem_of_nil. intros [->|[]]. done.
Qed.

Lemma esc_char_prefix_free (a b : Ascii.ascii) (r1 r2 : string) :
  Dashboard.esc_char a +:+ r1 = Dashboard.esc_char b +:+ r2 -> a = b /\ r1 = r2.
Proof.
  unfold Dashboard.esc_char.
  destruct (Ascii.eqb_spec a Dashboard.amp) as [->|Ha];
    [|destruct (Ascii.eqb_spec a Dashboard.lt) as [->|Hl];
      [|destruct (Ascii.eqb_spec a Dashboard.gt) as [->|Hg];
        [|destruct (Ascii.eqb_spec a Dashboard.dquote) as [->|Hq]]]];
  (destruct (Ascii.eqb_spec b Dashboard.amp) as [->|Hb];
    [|destruct (Ascii.eqb_spec b Dashboard.lt) as [->|Hbl];
      [|destruct (Ascii.eqb_spec b Dashboard.gt) as [->|Hbg];
        [|destruct (Ascii.eqb_spec b Dashboard.dquote) as [->|Hbq]]]]);
  simpl; intros H; try discriminate H;
  try (injection H; intros; subst; done).
Qed.

Lemma esc_char_plain (a : Ascii.ascii) :
  a <> Dashboard.amp -> a <> Dashboard.lt -> a <> Dashboard.gt ->
  a <> Dashboard.dquote ->
  Dashboard.esc_char a = String a EmptyString.
Proof.
  intros Ha Hl Hg Hq. unfold Dashboard.esc_char.
  destruct (Ascii.eqb_spec a Dashboard.amp); [done|].
  destruct (Ascii.eqb_spec a Dashboard.lt); [done|].
  destruct (Ascii.eqb_spec a Dashboard.gt); [done|].
  by destruct (Ascii.eqb_spec a Dashboard.dquote).
Qed.

(** X24.  [esc] works as one pass over the characters of its argument: each
    of the four characters becomes its entity and every other character is
    copied, so the ampersand of an entity that [esc] wrote is not escaped
    again by the later replacements.  The result contains no [<], no [>]
    and no double quote, and a text without the four characters is returned
    as it is. *)
Theorem esc_is_one_pass_and_safe (s : string) :
  Dashboard.esc s = Dashboard.esc_each s /\
  (forall c, c ∈ Dashboard.chars (Dashboard.esc s) ->
     c <> Dashboard.lt /\ c <> Dashboard.gt /\ c <> Dashboard.dquote) /\
  (Forall (fun c => c <> Dashboard.amp /\ c <> Dashboard.lt /\
                    c <> Dashboard.gt /\ c <> Dashboard.dquote)
          (Dashboard.chars s) ->
   Dashboard.esc s = s).
Proof.
  split; [apply esc_single_pass|]. rewrite esc_single_pass. split.
  - induction s as [|a s IH]; simpl; [by intros c ?%elem_of_nil|].
    intros c. rewrite chars_app, elem_of_app. intros [Hc|Hc].
    + by eapply esc_char_safe.
    + by apply IH.
  - induction s as [|a s IH]; simpl; [done|].
    intros [(Ha & Hl & Hg & Hq) Hs]%Forall_cons.
    rewrite esc_char_plain by done. simpl. by rewrite IH.
Qed.

(** X25.  [esc] loses nothing: two texts with the same escaped form are
    the same text. *)
Theorem esc_injective (s1 s2 : string) :
  Dashboard.esc s1 = Dashboard.esc s2 -> s1 = s2.
Proof.
  rewrite !esc_single_pass. revert s2.
  induction s1 as [|a s1 IH]; intros [|b s2]; simpl; [done| | |].
  - unfold Dashboard.esc_char.
    destruct (Ascii.eqb b Dashboard.amp); [discriminate|].
    destruct (Ascii.eqb b Dashboard.lt); [discriminate|].
    destruct (Ascii.eqb b Dashboard.gt); [discriminate|].
    destruct (Ascii.eqb b Dashboard.dquote); discriminate.
  - unfold Dashboard.esc_char.
    destruct (Ascii.eqb a Dashboard.amp); [discriminate|].
    destruct (Ascii.eqb a Dashboard.lt); [discriminate|].
    destruct (Ascii.eqb a Dashboard.gt); [discriminate|].
    destruct (Ascii.eqb a Dashboard.dquote); discriminate.
  - intros [-> Hr]%esc_char_prefix_free. by rewrite (IH s2 Hr).
Qed.

Lemma esc_injective_witness : "a<b" = "a<b".
Proof. apply (esc_injective "a<b" "a<b"). reflexivity. Defined.
